(** * Legal-RAG-Preprocessor: source-text search, field verification and
      footnote reconciliation

    A shallow embedding of the verification and reconciliation core of
    [13_text_classifier.py] and [merge_footnotes.py], with the properties
    of the specification stated and proved (or refuted) over it.

    Conventions of the embedding:
    - a Python [str] is a list of Unicode code points ([N]);
    - a Python [int] is a [Z] (unbounded, as in Python; the interpreter's
      limit on the number of digits [int] converts is not modelled);
    - a [dict] keyed by integers is a [gmap Z _], a [set] of integers a
      [gset Z] (or [gset nat] for line indices); no modelled result depends
      on iteration order, every list built from a dict or a set goes
      through [sorted];
    - JSON objects read with [.get(key, default)] are records whose
      fields are options, [None] standing for an absent key;
    - an exception is a [Raise] result;
    - logging and the files written ([footnote_index.csv], the merged
      document) are effects outside the embedding. *)

From stdpp Require Import strings gmap list sorting list_numbers pretty.

Local Open Scope Z_scope.

(** ** Python runtime primitives *)

Module Py.

Definition char := N.
Definition str := list char.

(** ASCII literals of the sources, written as Rocq strings. *)
Definition lit (s : string) : str :=
  Ascii.N_of_ascii <$> String.list_ascii_of_string s.

Definition SP : char := 32%N.
Definition TAB : char := 9%N.
Definition LF : char := 10%N.
Definition CR : char := 13%N.
Definition FF : char := 12%N.

(** [str.isspace] on one character, which is also the class [\s] of
    [re] for [str] patterns: U+0009..000D, U+001C..0020, U+0085, U+00A0,
    U+1680, U+2000..200A, U+2028, U+2029, U+202F, U+205F, U+3000. *)
Definition isspace (c : char) : bool :=
  ((9 <=? c) && (c <=? 13) || (28 <=? c) && (c <=? 32)
   || (c =? 133) || (c =? 160) || (c =? 5760)
   || (8192 <=? c) && (c <=? 8202)
   || (c =? 8232) || (c =? 8233) || (c =? 8239) || (c =? 8287)
   || (c =? 12288))%N.

(** First code points of the runs of ten decimal digits (category Nd,
    Unicode 14.0): the class [\d] of [re], and the digits [int] reads. *)
Definition decimal_blocks : list N :=
  [48; 1632; 1776; 1984; 2406; 2534; 2662; 2790; 2918; 3046; 3174; 3302;
   3430; 3558; 3664; 3792; 3872; 4160; 4240; 6112; 6160; 6470; 6608; 6784;
   6800; 6992; 7088; 7232; 7248; 42528; 43216; 43264; 43472; 43504; 43600;
   44016; 65296; 66720; 68912; 69734; 69872; 69942; 70096; 70384; 70736;
   70864; 71248; 71360; 71472; 71904; 72016; 72784; 73040; 73120; 92768;
   92864; 93008; 120782; 120792; 120802; 120812; 120822; 123200; 123632;
   125264; 130032]%N.

(** The value of a decimal digit, [None] for any other character. *)
Definition digit_value (c : char) : option N :=
  (λ b, c - b)%N <$>
    head (filter (λ b, (b ≤ c)%N ∧ (c < b + 10)%N) decimal_blocks).

Definition isdecimal (c : char) : bool :=
  bool_decide (is_Some (digit_value c)).

(** [int(s)] on a string of decimal digits (its only use in the sources:
    the group [(\d+)] of a match). *)
Definition int_of_digits (ds : str) : Z :=
  Z.of_N (foldl (λ acc c, acc * 10 + default 0 (digit_value c))%N 0%N ds).

(** [str(n)], [f'{n}'] for an integer. *)
Definition str_of_int (n : Z) : str := lit (pretty n).

(** A string is truthy when it is not empty. *)
Definition nonempty (s : str) : bool :=
  match s with [] => false | _ :: _ => true end.

(** [s.lstrip()], [s.rstrip()], [s.strip()]. *)
Fixpoint lstrip (s : str) : str :=
  match s with
  | c :: r => if isspace c then lstrip r else s
  | [] => []
  end.

Definition rstrip (s : str) : str := reverse (lstrip (reverse s)).

Definition strip (s : str) : str := rstrip (lstrip s).

(** [s.startswith(p)]. *)
Fixpoint startswith (s p : str) : bool :=
  match p, s with
  | [], _ => true
  | a :: p', b :: s' => bool_decide (a = b) && startswith s' p'
  | _ :: _, [] => false
  end.

(** [hay.find(needle)], counted from offset [i]: the least index of an
    occurrence, [None] for Python's [-1]. *)
Fixpoint find_from (i : nat) (hay needle : str) : option nat :=
  if startswith hay needle then Some i
  else match hay with
       | [] => None
       | _ :: hay' => find_from (S i) hay' needle
       end.

Definition find (hay needle : str) : option nat := find_from 0 hay needle.

(** [s.split('\n')]; the line being read is accumulated in [cur]. *)
Fixpoint split_go (cur : str) (s : str) : list str :=
  match s with
  | [] => [cur]
  | c :: r => if bool_decide (c = LF) then cur :: split_go [] r
              else split_go (cur ++ [c]) r
  end.

Definition split_lines (s : str) : list str := split_go [] s.

(** ['\n'.join(parts)]. *)
Fixpoint join_lines (parts : list str) : str :=
  match parts with
  | [] => []
  | p :: rest =>
      match rest with
      | [] => p
      | _ :: _ => p ++ LF :: join_lines rest
      end
  end.

(** [source[i:j]] for indices [0 <= i], [0 <= j]. *)
Definition slice (source : str) (i j : nat) : str :=
  take (j - i) (drop i source).

(** [sorted(s)] for a set of integers. *)
Definition sorted (s : gset Z) : list Z := merge_sort Z.le (elements s).

(** [min(s)] for a set of integers; [0] stands for the [ValueError] of an
    empty set, which no caller in the sources can pass. *)
Definition set_min (s : gset Z) : Z :=
  match sorted s with
  | [] => 0
  | x :: _ => x
  end.

(** Exceptions the embedded code could raise, and results. *)
Inductive exn := IndexError.

Inductive result (A : Type) := Ok (a : A) | Raise (e : exn).
Global Arguments Ok {A} a.
Global Arguments Raise {A} e.

(** *** Pieces of the regular expressions of the sources

    Each pattern of the sources is a sequence of literals, [\s*], [\s+],
    [\d+] and a final [.+]; in all of them a greedy repetition is followed
    by a character outside its class, so the first choice of the
    backtracking matcher is the only one that can succeed (the one
    exception, [\s+(.+)$], is spelled out where it is used). *)

(** [\d+] (greedy): the digits read and the rest. *)
Fixpoint span_digits (s : str) : str * str :=
  match s with
  | c :: r =>
      if isdecimal c then let '(ds, r') := span_digits r in (c :: ds, r')
      else ([], s)
  | [] => ([], [])
  end.

(** A literal prefix: the rest of [s] after [p]. *)
Fixpoint expect (p s : str) : option str :=
  match p, s with
  | [], _ => Some s
  | a :: p', b :: s' => if bool_decide (a = b) then expect p' s' else None
  | _ :: _, [] => None
  end.

End Py.

(** ** The classification output shared by both programs *)

Module Classification.
Import Py.

(** An entry of a page's ['footnotes'] list. *)
Module Footnote.
Record t := {
  fn_number : option Z;
  fn_text : option str;
  merge_status : option str;
  merge_location : option str }.
End Footnote.

(** An entry of the ['pages'] list of the classification output. *)
Module PageResult.
Record t := {
  page_number : option Z;
  footnotes : option (list Footnote.t) }.
End PageResult.

(** A search-constrained proposal: [{'search_text': ..., 'page': ...}]. *)
Module SearchField.
Record t := { search_text : option str; page : option Z }.
End SearchField.

(** The value under ['document_title']: the proposal object before
    processing, a string after it. *)
Inductive title_value := Object (f : SearchField.t) | Text (s : str).

Module CaptionInfo.
Record t := {
  document_title : option title_value;
  document_title_verified : option bool;
  document_title_proposed_value : option str }.
End CaptionInfo.

Module ParagraphRange.
Record t := { start : option Z; end_ : option Z }.
End ParagraphRange.

(** A cause of action, with the keys that processing adds or removes. *)
Module Coa.
Record t := {
  number : option Z;
  search_text : option str;
  page : option Z;
  paragraph_range : option ParagraphRange.t;
  title : option str;
  title_verified : option bool;
  title_proposed_value : option str;
  paragraph_range_verified : option bool;
  missing_paragraphs : option (list Z) }.
End Coa.

(** The classification output, restricted to the keys read here. *)
Module Result.
Record t := {
  caption_info : CaptionInfo.t;
  causes_of_action : option (list Coa.t);
  pages : option (list PageResult.t) }.
End Result.

End Classification.

(** ** 13_text_classifier.py *)

Module TextClassifier.
Import Py Classification.

(** A page of the store: [{'number': ..., 'text': ...}]. *)
Module Page.
Record t := { number : Z; text : str }.
End Page.

(** *** search_source_text *)

(** ['for pg in pages: if pg['number'] == page_number: ... break']. *)
Fixpoint find_page (pages : list Page.t) (page_number : Z) : option Page.t :=
  match pages with
  | [] => None
  | pg :: rest =>
      if bool_decide (Page.number pg = page_number) then Some pg
      else find_page rest page_number
  end.

(** [re.sub(r'\s+', ' ', s)] for a whitespace class [ws]: every maximal
    run of [ws] characters becomes one space (emitted at the last
    character of the run). *)
Fixpoint collapse (ws : char → bool) (s : str) : str :=
  match s with
  | [] => []
  | c :: r =>
      if ws c then
        match r with
        | c' :: _ => if ws c' then collapse ws r else SP :: collapse ws r
        | [] => [SP]
        end
      else c :: collapse ws r
  end.

(** [normalize(s) = re.sub(r'\s+', ' ', s).strip()]. *)
Definition normalize (s : str) : str := strip (collapse isspace s).

(** [c in ' \t\n\r']. *)
Definition is_ws4 (c : char) : bool :=
  bool_decide (c = SP) || bool_decide (c = TAB)
  || bool_decide (c = LF) || bool_decide (c = CR).

(** The cursor [src_i] of the mapping loops is carried as the unread
    remainder [source[src_i:]], so [src_i = len(source) - len(rest)].

    ['while src_i < len(source) and source[src_i] in ' \t\n\r': src_i += 1'] *)
Fixpoint skip_ws (rest : str) : str :=
  match rest with
  | c :: rest' => if is_ws4 c then skip_ws rest' else rest
  | [] => []
  end.

(** ['while norm_i < idx: ...'], with [k = idx - norm_i] iterations left.
    [source[src_i]] is read without a bound check: [None] is the
    [IndexError] of reading past the end. *)
Fixpoint advance (k : nat) (rest : str) : option str :=
  match k with
  | O => Some rest
  | S k' =>
      match rest with
      | [] => None
      | c :: rest' =>
          if is_ws4 c then advance k' (skip_ws rest)
          else advance k' rest'
      end
  end.

(** ['while consumed < match_len and src_i < len(source): ...'], with
    [k = match_len - consumed]. *)
Fixpoint consume (k : nat) (rest : str) : str :=
  match k with
  | O => rest
  | S k' =>
      match rest with
      | [] => []
      | c :: rest' =>
          if is_ws4 c then consume k' (skip_ws rest)
          else consume k' rest'
      end
  end.

Definition search_source_text
    (search_text : str) (page_number : Z) (pages : list Page.t)
  : result (option str) :=
  if negb (nonempty search_text) || negb (nonempty (strip search_text))
  then Ok None
  else
    match find_page pages page_number with
    | None => Ok None
    | Some target_page =>
        let needle := normalize search_text in
        if negb (nonempty needle) then Ok None
        else
          let source := Page.text target_page in
          let source_norm := normalize source in
          match find source_norm needle with
          | None => Ok None
          | Some idx =>
              let rest0 := skip_ws source in
              match advance idx rest0 with
              | None => Raise IndexError
              | Some rest1 =>
                  let match_start := (length source - length rest1)%nat in
                  let match_len := length needle in
                  let rest2 := consume match_len rest1 in
                  let src_i := (length source - length rest2)%nat in
                  Ok (Some (slice source match_start src_i))
              end
          end
    end.

(** *** verify_search_fields *)

Definition bind {A B} (r : result A) (f : A → result B) : result B :=
  match r with
  | Ok a => f a
  | Raise e => Raise e
  end.

Fixpoint mapM {A B} (f : A → result B) (l : list A) : result (list B) :=
  match l with
  | [] => Ok []
  | x :: l' => bind (f x) (λ y, bind (mapM f l') (λ ys, Ok (y :: ys)))
  end.

(** ['if verbatim:']: a found, non-empty string. *)
Definition truthy (r : option str) : option str :=
  match r with
  | Some v => if nonempty v then Some v else None
  | None => None
  end.

(** The [caption_info.document_title] part. A value that is not a dict is
    left as it is; an absent key reads as the empty dict. *)
Definition verify_document_title
    (ci : CaptionInfo.t) (pages : list Page.t) : result CaptionInfo.t :=
  match CaptionInfo.document_title ci with
  | Some (Text _) => Ok ci
  | dt_opt =>
      let dt := match dt_opt with
                | Some (Object f) => f
                | _ => {| SearchField.search_text := None;
                          SearchField.page := None |}
                end in
      let search_text := default [] (SearchField.search_text dt) in
      if nonempty search_text then
        bind (search_source_text search_text
                (default 1 (SearchField.page dt)) pages)
          (λ found,
             match truthy found with
             | Some verbatim =>
                 Ok {| CaptionInfo.document_title := Some (Text verbatim);
                       CaptionInfo.document_title_verified := Some true;
                       CaptionInfo.document_title_proposed_value :=
                         CaptionInfo.document_title_proposed_value ci |}
             | None =>
                 Ok {| CaptionInfo.document_title := Some (Text search_text);
                       CaptionInfo.document_title_verified := Some false;
                       CaptionInfo.document_title_proposed_value :=
                         Some search_text |}
             end)
      else
        Ok {| CaptionInfo.document_title := Some (Text search_text);
              CaptionInfo.document_title_verified :=
                CaptionInfo.document_title_verified ci;
              CaptionInfo.document_title_proposed_value :=
                CaptionInfo.document_title_proposed_value ci |}
  end.

(** [coa] with the keys [title], [title_verified], [title_proposed_value]
    set as given and [search_text] popped. *)
Definition set_title (coa : Coa.t) (title : str)
    (verified : option bool) (proposed : option str) : Coa.t :=
  {| Coa.number := Coa.number coa;
     Coa.search_text := None;
     Coa.page := Coa.page coa;
     Coa.paragraph_range := Coa.paragraph_range coa;
     Coa.title := Some title;
     Coa.title_verified := verified;
     Coa.title_proposed_value := proposed;
     Coa.paragraph_range_verified := Coa.paragraph_range_verified coa;
     Coa.missing_paragraphs := Coa.missing_paragraphs coa |}.

(** The body of ['for coa in result.get('causes_of_action', []):']. *)
Definition verify_coa_title (pages : list Page.t) (coa : Coa.t)
  : result Coa.t :=
  let search_text := default [] (Coa.search_text coa) in
  let coa_page := default 0 (Coa.page coa) in
  if nonempty search_text && bool_decide (coa_page > 0) then
    bind (search_source_text search_text coa_page pages)
      (λ found,
         match truthy found with
         | Some verbatim =>
             Ok (set_title coa verbatim (Some true)
                   (Coa.title_proposed_value coa))
         | None =>
             Ok (set_title coa search_text (Some false) (Some search_text))
         end)
  else
    Ok (set_title coa search_text (Coa.title_verified coa)
          (Coa.title_proposed_value coa)).

Definition verify_search_fields (result_ : Result.t) (pages : list Page.t)
  : result Result.t :=
  bind (verify_document_title (Result.caption_info result_) pages)
    (λ ci,
       match Result.causes_of_action result_ with
       | None =>
           Ok {| Result.caption_info := ci;
                 Result.causes_of_action := None;
                 Result.pages := Result.pages result_ |}
       | Some coas =>
           bind (mapM (verify_coa_title pages) coas)
             (λ coas',
                Ok {| Result.caption_info := ci;
                      Result.causes_of_action := Some coas';
                      Result.pages := Result.pages result_ |})
       end).

(** *** generate_footnote_index *)

(** A row of [all_footnotes]. *)
Module IndexRow.
Record t := { fn_number : Z; page : Z; merge_status : str; fn_text : str }.
End IndexRow.

(** The rows collected from [result['pages']], in page order. *)
Definition collect_footnotes (pages : list PageResult.t) : list IndexRow.t :=
  pg ← pages;
  let pg_num := default 0 (PageResult.page_number pg) in
  fn ← default [] (PageResult.footnotes pg);
  [ {| IndexRow.fn_number := default 0 (Footnote.fn_number fn);
       IndexRow.page := pg_num;
       IndexRow.merge_status :=
         default (lit "not_applicable") (Footnote.merge_status fn);
       IndexRow.fn_text := default [] (Footnote.fn_text fn) |} ].

(** [all_footnotes.sort(key=lambda x: x['fn_number'])]: the sort of Python
    is stable, and a stable sort has one result; this is insertion of each
    row before the rows that follow it. *)
Fixpoint insert_row (x : IndexRow.t) (l : list IndexRow.t) : list IndexRow.t :=
  match l with
  | [] => [x]
  | y :: l' =>
      if bool_decide (IndexRow.fn_number x ≤ IndexRow.fn_number y)
      then x :: l
      else y :: insert_row x l'
  end.

Fixpoint sort_rows (l : list IndexRow.t) : list IndexRow.t :=
  match l with
  | [] => []
  | x :: l' => insert_row x (sort_rows l')
  end.

(** The three kinds of issue strings. *)
Inductive Issue :=
| MISSING (missing num page : Z)
| OUT_OF_ORDER (num page expected : Z)
| DUPLICATE (num page : Z).

Definition issue_text (i : Issue) : str :=
  match i with
  | MISSING missing num page =>
      lit "MISSING footnote " ++ str_of_int missing
      ++ lit " (gap before fn " ++ str_of_int num
      ++ lit " on page " ++ str_of_int page ++ lit ")"
  | OUT_OF_ORDER num page expected =>
      lit "OUT OF ORDER: footnote " ++ str_of_int num
      ++ lit " on page " ++ str_of_int page
      ++ lit " (expected " ++ str_of_int expected ++ lit ")"
  | DUPLICATE num page =>
      lit "DUPLICATE: footnote " ++ str_of_int num
      ++ lit " on page " ++ str_of_int page
  end.

(** The state of the validation loop. *)
Record ValidationState := {
  issues : list Issue;
  seen_numbers : gset Z;
  expected_num : Z }.

(** The body of ['for fn in all_footnotes:']. *)
Definition validate_step (st : ValidationState) (fn : IndexRow.t)
  : ValidationState :=
  let num := IndexRow.fn_number fn in
  let page := IndexRow.page fn in
  let expected := expected_num st in
  let gaps :=
    if bool_decide (num ≠ expected) then
      if bool_decide (num > expected) then
        (λ missing, MISSING missing num page)
          <$> seqZ expected (num - expected)
      else [OUT_OF_ORDER num page expected]
    else [] in
  let dups :=
    if bool_decide (num ∈ seen_numbers st) then [DUPLICATE num page]
    else [] in
  {| issues := issues st ++ gaps ++ dups;
     seen_numbers := {[ num ]} ∪ seen_numbers st;
     expected_num := num + 1 |}.

Definition validate (all_footnotes : list IndexRow.t) : list Issue :=
  issues (foldl validate_step
            {| issues := []; seen_numbers := ∅; expected_num := 1 |}
            all_footnotes).

(** The issues of a classification output, as data. *)
Definition footnote_issues (result_ : Result.t) : list Issue :=
  let all_footnotes := collect_footnotes (default [] (Result.pages result_)) in
  match all_footnotes with
  | [] => []
  | _ :: _ => validate (sort_rows all_footnotes)
  end.

Definition generate_footnote_index (result_ : Result.t) : list str :=
  issue_text <$> footnote_issues result_.

(** *** verify_causes_of_action *)

Definition PILCROW : char := 182%N.

(** [PARAGRAPH_NUM_RE], the pattern [^ \s* (?: ¶ \s* )? (\d+) \. \s] (written
    here with spaces between its pieces), tried at a position
    where [^] holds: the number read and the length of the match. *)
Definition match_paragraph_num (s : str) : option (Z * nat) :=
  let s1 := lstrip s in
  let s2 := match s1 with
            | c :: r => if bool_decide (c = PILCROW) then lstrip r else s1
            | [] => s1
            end in
  let '(ds, s3) := span_digits s2 in
  if nonempty ds then
    match s3 with
    | dot :: c :: s4 =>
        if bool_decide (dot = 46%N) && isspace c
        then Some (int_of_digits ds, (length s - length s4)%nat)
        else None
    | _ => None
    end
  else None.

(** [PARAGRAPH_NUM_RE.finditer(text)] with [re.MULTILINE], read left to
    right: [bol] tells whether [^] holds here (start of the text or just
    after a newline), [skip] counts the characters of the last match still
    to pass. *)
Fixpoint paragraph_nums_go (skip : nat) (bol : bool) (s : str) : list Z :=
  match s with
  | [] => []
  | c :: r =>
      let bol' := bool_decide (c = LF) in
      match skip with
      | S k => paragraph_nums_go k bol' r
      | O =>
          match (if bol then match_paragraph_num s else None) with
          | Some (n, len) => n :: paragraph_nums_go (len - 1) bol' r
          | None => paragraph_nums_go 0 bol' r
          end
      end
  end.

(** [{int(m.group(1)) for m in PARAGRAPH_NUM_RE.finditer(text)}]. *)
Definition paragraph_nums (text : str) : gset Z :=
  list_to_set (paragraph_nums_go 0 true text).

(** [page_paragraphs]: page number -> paragraph numbers, for the pages
    that show any. *)
Definition page_paragraphs (pages : list Page.t) : gmap Z (gset Z) :=
  foldl (λ acc pg,
           let nums := paragraph_nums (Page.text pg) in
           if bool_decide (nums ≠ ∅) then <[Page.number pg := nums]> acc
           else acc)
        ∅ pages.

(** [all_paragraphs]: the union of the values of [page_paragraphs]. *)
Definition all_paragraphs (pages : list Page.t) : gset Z :=
  ⋃ (snd <$> map_to_list (page_paragraphs pages)).

(** [set(range(start, end + 1))]. *)
Definition range_set (start end_ : Z) : gset Z :=
  list_to_set (seqZ start (end_ + 1 - start)).

(** The body of ['for coa in coa_list:']. *)
Definition verify_range (all_paragraphs : gset Z) (coa : Coa.t) : Coa.t :=
  let para_range :=
    default {| ParagraphRange.start := None; ParagraphRange.end_ := None |}
            (Coa.paragraph_range coa) in
  let start := default 0 (ParagraphRange.start para_range) in
  let end_ := default 0 (ParagraphRange.end_ para_range) in
  let '(verified, missing_list) :=
    if bool_decide (start > 0) && bool_decide (end_ > 0) then
      let expected := range_set start end_ in
      let missing := expected ∖ all_paragraphs in
      (bool_decide (size missing = 0%nat),
       if bool_decide (missing ≠ ∅) then sorted missing else [])
    else (false, []) in
  {| Coa.number := Coa.number coa;
     Coa.search_text := Coa.search_text coa;
     Coa.page := Coa.page coa;
     Coa.paragraph_range := Coa.paragraph_range coa;
     Coa.title := Coa.title coa;
     Coa.title_verified := Coa.title_verified coa;
     Coa.title_proposed_value := Coa.title_proposed_value coa;
     Coa.paragraph_range_verified := Some verified;
     Coa.missing_paragraphs := Some missing_list |}.

Definition verify_causes_of_action
    (coa_list : list Coa.t) (pages : list Page.t) : list Coa.t :=
  match coa_list with
  | [] => []
  | _ :: _ => verify_range (all_paragraphs pages) <$> coa_list
  end.

End TextClassifier.

(** ** merge_footnotes.py *)

Module MergeFootnotes.
Import Py Classification.

(** *** Patterns *)

Definition DOLLAR : char := 36%N.
Definition CARET : char := 94%N.
Definition LBRACE : char := 123%N.
Definition RBRACE : char := 125%N.

(** [FN_MARKER_RE], the pattern [\s* \$ \s* \^ \{ (\d+) \} \s* \$] (written
    with spaces between its pieces), tried at the head of [s]: the number
    read and the text after the match. *)
Definition match_marker (s : str) : option (Z * str) :=
  s1 ← expect [DOLLAR] (lstrip s);
  s2 ← expect [CARET; LBRACE] (lstrip s1);
  let '(ds, s3) := span_digits s2 in
  if nonempty ds then
    s4 ← expect [RBRACE] s3;
    s5 ← expect [DOLLAR] (lstrip s4);
    Some (int_of_digits ds, s5)
  else None.

(** [[int(m.group(1)) for m in FN_MARKER_RE.finditer(line)]], read left to
    right; [skip] counts the characters of the last match still to pass. *)
Fixpoint markers_go (skip : nat) (s : str) : list Z :=
  match s with
  | [] => []
  | _ :: r =>
      match skip with
      | S k => markers_go k r
      | O =>
          match match_marker s with
          | Some (n, rest) =>
              n :: markers_go (length s - length rest - 1) r
          | None => markers_go 0 r
          end
      end
  end.

Definition markers (line : str) : list Z := markers_go 0 line.

(** [FN_MARKER_RE.sub(repl, line)]: [repl] receives the number of the
    match and its whole text, [m.group(0)]. *)
Fixpoint sub_markers_go (repl : Z → str → str) (skip : nat) (s : str) : str :=
  match s with
  | [] => []
  | c :: r =>
      match skip with
      | S k => sub_markers_go repl k r
      | O =>
          match match_marker s with
          | Some (n, rest) =>
              let len := (length s - length rest)%nat in
              repl n (take len s) ++ sub_markers_go repl (len - 1) r
          | None => c :: sub_markers_go repl 0 r
          end
      end
  end.

Definition sub_markers (repl : Z → str → str) (line : str) : str :=
  sub_markers_go repl 0 line.

(** The text before a final newline, where [$] also matches. *)
Definition chomp (s : str) : str :=
  match reverse s with
  | c :: r => if bool_decide (c = LF) then reverse r else s
  | [] => []
  end.

(** [FN_TEXT_BLOCK_RE.match(line)], the pattern of the marker at the start
    of the line followed by [\s+ (.+) $]: the number and [m.group(2)].
    [\s+] takes the whole run of whitespace after the marker and [.+] the
    rest, which must not hold a newline; when nothing is left for [.+],
    [\s+] gives its last character back to it. *)
Definition match_text_block (line : str) : option (Z * str) :=
  '(n, after) ← match_marker line;
  let body := chomp after in
  let x := lstrip body in
  match x with
  | _ :: _ =>
      if bool_decide (length x < length body)%nat && bool_decide (LF ∉ x)
      then Some (n, x)
      else None
  | [] =>
      match reverse body with
      | c :: _ :: _ => if bool_decide (c ≠ LF) then Some (n, [c]) else None
      | _ => None
      end
  end.

(** [PAGE_START_RE] and [PAGE_END_RE]: [prefix], digits, the closing
    bracket and dashes, then whitespace only. *)
Definition match_page_delim (prefix line : str) : option Z :=
  s1 ← expect prefix line;
  let '(ds, s2) := span_digits s1 in
  if nonempty ds then
    s3 ← expect (lit "]---") s2;
    if nonempty (lstrip s3) then None else Some (int_of_digits ds)
  else None.

Definition PAGE_START_RE : str → option Z :=
  match_page_delim (lit "---[Start PDF page ").

Definition PAGE_END_RE : str → option Z :=
  match_page_delim (lit "---[End PDF page ").

(** *** Footnote inventory from the classification output *)

(** A record of the inventory; [_original_page] is the key that the page
    correction adds. *)
Module FnRecord.
Record t := {
  page : Z;
  merge_status : str;
  merge_location : str;
  _llm_text : str;
  _original_page : option Z }.
End FnRecord.

(** All [(page, footnote)] entries of the classification pages, in the
    order the two nested loops visit them. *)
Definition inventory_entries (pages : list PageResult.t)
  : list (Z * Footnote.t) :=
  pg ← pages;
  fn ← default [] (PageResult.footnotes pg);
  [ (default 0 (PageResult.page_number pg), fn) ].

Definition record_of (pg_num : Z) (fn : Footnote.t) : FnRecord.t :=
  {| FnRecord.page := pg_num;
     FnRecord.merge_status := default [] (Footnote.merge_status fn);
     FnRecord.merge_location := default [] (Footnote.merge_location fn);
     FnRecord._llm_text := default [] (Footnote.fn_text fn);
     FnRecord._original_page := None |}.

Definition _extract_fn_inventory (pages : list PageResult.t)
  : gmap Z FnRecord.t :=
  foldl (λ footnotes '(pg_num, fn),
           let fn_num := default 0 (Footnote.fn_number fn) in
           if bool_decide (fn_num > 0)
           then <[fn_num := record_of pg_num fn]> footnotes
           else footnotes)
        ∅ (inventory_entries pages).

(** *** Footnote text from the page text *)

(** The body of the loop of [extract_ocr_footnotes]. *)
Definition extract_step (footnotes : gmap Z str) (line : str) : gmap Z str :=
  match match_text_block line with
  | Some (fn_num, group2) => <[fn_num := strip group2]> footnotes
  | None => footnotes
  end.

Definition extract_ocr_footnotes (lines : list str) : gmap Z str :=
  foldl extract_step ∅ lines.

(** *** Page processing *)

Module Block.
Record t := {
  page_number : Z;
  start_delim : str;
  lines : list str;
  end_delim : str }.
End Block.

(** The state of the loop of [split_into_pages]. *)
Record SplitState := {
  blocks : list Block.t;
  preamble : list str;
  current_page : option Z;
  current_lines : list str;
  current_start : str }.

Definition split_step (st : SplitState) (line : str) : SplitState :=
  match PAGE_START_RE line with
  | Some n =>
      {| blocks := blocks st; preamble := preamble st;
         current_page := Some n; current_lines := [];
         current_start := line |}
  | None =>
      match PAGE_END_RE line with
      | Some _ =>
          {| blocks :=
               match current_page st with
               | Some p =>
                   blocks st ++
                     [ {| Block.page_number := p;
                          Block.start_delim := current_start st;
                          Block.lines := current_lines st;
                          Block.end_delim := line |} ]
               | None => blocks st
               end;
             preamble := preamble st;
             current_page := None; current_lines := [];
             current_start := current_start st |}
      | None =>
          match current_page st with
          | Some _ =>
              {| blocks := blocks st; preamble := preamble st;
                 current_page := current_page st;
                 current_lines := current_lines st ++ [line];
                 current_start := current_start st |}
          | None =>
              {| blocks := blocks st; preamble := preamble st ++ [line];
                 current_page := None;
                 current_lines := current_lines st;
                 current_start := current_start st |}
          end
      end
  end.

Definition split_into_pages (content : str) : list str * list Block.t :=
  let st := foldl split_step
              {| blocks := []; preamble := []; current_page := None;
                 current_lines := []; current_start := [] |}
              (split_lines content) in
  (preamble st, blocks st).

(** [line.strip() == ''] *)
Definition is_blank (line : str) : bool := negb (nonempty (strip line)).

(** The indices of the text-block lines whose number is to be removed. *)
Definition fn_line_indices (lines : list str) (fn_numbers_to_remove : gset Z)
  : gset nat :=
  list_to_set
    (omap (λ '(i, line),
             match match_text_block line with
             | Some (n, _) =>
                 if bool_decide (n ∈ fn_numbers_to_remove) then Some i
                 else None
             | None => None
             end)
          (imap pair lines)).

(** The first [j] in [range(i + 1, len(lines))] with [lines[j].strip()]
    not empty. *)
Definition next_content (lines : list str) (i : nat) : option nat :=
  (λ found, (i + 1 + found.1)%nat)
    <$> list_find (λ l, is_blank l = false) (drop (S i) lines).

(** The first [j] in [range(i - 1, -1, -1)] with [lines[j].strip()] not
    empty. *)
Definition prev_content (lines : list str) (i : nat) : option nat :=
  (λ found, (i - 1 - found.1)%nat)
    <$> list_find (λ l, is_blank l = false) (reverse (take i lines)).

(** [x in s] for [x] an index or [None]. *)
Definition opt_in (x : option nat) (s : gset nat) : bool :=
  match x with
  | Some j => bool_decide (j ∈ s)
  | None => false
  end.

(** Whether the second loop of [remove_fn_text_blocks] skips line [i]. *)
Definition skipped (lines : list str) (indices : gset nat)
    (i : nat) (line : str) : bool :=
  if bool_decide (i ∈ indices) then true
  else if is_blank line then
    if opt_in (next_content lines i) indices then true
    else if opt_in (prev_content lines i) indices then true
    else false
  else false.

Definition remove_fn_text_blocks
    (lines : list str) (fn_numbers_to_remove : gset Z) : list str :=
  let indices := fn_line_indices lines fn_numbers_to_remove in
  if bool_decide (indices = ∅) then lines
  else
    snd <$> filter (λ p, skipped lines indices p.1 p.2 = false)
                   (imap pair lines).

(** An entry of [page_fns]. *)
Module PageFn.
Record t := {
  fn_text : str;
  page : Z;
  _llm_text : option str;
  _text_source : str }.
End PageFn.

(** [replace_ref], on the number and the whole text of a match. *)
Definition replace_ref (fn_data : gmap Z PageFn.t)
    (fn_num : Z) (group0 : str) : str :=
  match fn_data !! fn_num with
  | None => group0
  | Some entry =>
      let fn_text := PageFn.fn_text entry in
      if nonempty fn_text
      then lit " [FN" ++ str_of_int fn_num ++ lit ": " ++ fn_text ++ lit "]"
      else group0
  end.

Definition merge_refs_inline (lines : list str) (fn_data : gmap Z PageFn.t)
  : list str :=
  sub_markers (replace_ref fn_data) <$> lines.

(** *** Main processing *)

Module PageStat.
Record t := {
  page : Z;
  fn_numbers : list Z;
  merged_refs : list Z;
  unmatched : list Z;
  no_ocr_text : list Z }.
End PageStat.

Module Stats.
Record t := {
  source : str;
  total_found : Z;
  total_merged : Z;
  total_unmatched : Z;
  total_no_ocr_text : Z;
  pages_with_footnotes : Z;
  page_details : list PageStat.t }.
End Stats.

(** [marker_pages]: number -> set of the pages with a marker of it. *)
Definition add_marker (page : Z) (acc : gmap Z (gset Z)) (fn_num : Z)
  : gmap Z (gset Z) :=
  <[fn_num := {[ page ]} ∪ default ∅ (acc !! fn_num)]> acc.

Definition marker_pages (blocks : list Block.t) : gmap Z (gset Z) :=
  foldl (λ acc block,
           foldl (add_marker (Block.page_number block)) acc
                 (line ← Block.lines block; markers line))
        ∅ blocks.

(** [ocr_texts]: number -> text, every entry of a page written over the
    entries of the pages before it. *)
Definition ocr_texts (blocks : list Block.t) : gmap Z str :=
  foldl (λ acc block, extract_ocr_footnotes (Block.lines block) ∪ acc)
        ∅ blocks.

(** The body of the page correction loop, on one record. *)
Definition correct_page (marker_pages : gmap Z (gset Z))
    (fn_num : Z) (data : FnRecord.t) : FnRecord.t :=
  match marker_pages !! fn_num with
  | Some actual_pages =>
      let llm_page := FnRecord.page data in
      if bool_decide (llm_page ∉ actual_pages) then
        let corrected := set_min actual_pages in
        {| FnRecord.page := corrected;
           FnRecord.merge_status := FnRecord.merge_status data;
           FnRecord.merge_location := FnRecord.merge_location data;
           FnRecord._llm_text := FnRecord._llm_text data;
           FnRecord._original_page := Some llm_page |}
      else data
  | None => data
  end.

Definition correct_attribution (marker_pages : gmap Z (gset Z))
    (classification_fns : gmap Z FnRecord.t) : gmap Z FnRecord.t :=
  map_imap (λ fn_num data, Some (correct_page marker_pages fn_num data))
           classification_fns.

(** A dict or [None] is truthy when it is a dict that is not empty. *)
Definition truthy_dict {A} (d : option (gmap Z A)) : option (gmap Z A) :=
  match d with
  | Some m => if bool_decide (m = ∅) then None else Some m
  | None => None
  end.

(** [page_fns] of a page, from the (corrected) inventory. *)
Definition page_fns_classified (classification_fns : gmap Z FnRecord.t)
    (ocr_texts : gmap Z str) (pg_num : Z) : gmap Z PageFn.t :=
  map_imap (λ num data,
              if bool_decide (FnRecord.page data = pg_num) then
                let ocr_text := default [] (ocr_texts !! num) in
                Some {| PageFn.fn_text := ocr_text;
                        PageFn.page := pg_num;
                        PageFn._llm_text := Some (FnRecord._llm_text data);
                        PageFn._text_source :=
                          if nonempty ocr_text then lit "ocr"
                          else lit "none" |}
              else None)
           classification_fns.

(** [page_fns] of a page in pure OCR mode. *)
Definition page_fns_ocr (lines : list str) (pg_num : Z) : gmap Z PageFn.t :=
  (λ text, {| PageFn.fn_text := text;
              PageFn.page := pg_num;
              PageFn._llm_text := None;
              PageFn._text_source := lit "ocr" |})
    <$> extract_ocr_footnotes lines.

Definition page_fns_of (classification_fns : option (gmap Z FnRecord.t))
    (ocr_texts : gmap Z str) (block : Block.t) : gmap Z PageFn.t :=
  match classification_fns with
  | Some fns => page_fns_classified fns ocr_texts (Block.page_number block)
  | None => page_fns_ocr (Block.lines block) (Block.page_number block)
  end.

(** The numbers of [page_fns] without text. *)
Definition no_text (page_fns : gmap Z PageFn.t) : gset Z :=
  dom (filter (λ kv, nonempty (PageFn.fn_text kv.2) = false) page_fns).

(** [refs_on_page]: the numbers of [page_fns] with a marker on the page. *)
Definition refs_on_page (lines : list str) (page_fns : gmap Z PageFn.t)
  : gset Z :=
  list_to_set (filter (λ n, n ∈ dom page_fns) (line ← lines; markers line)).

(** The lines written for a page. *)
Definition merged_lines (lines : list str) (page_fns : gmap Z PageFn.t)
  : list str :=
  if bool_decide (page_fns = ∅) then lines
  else
    let cleaned := remove_fn_text_blocks lines (dom page_fns) in
    merge_refs_inline cleaned page_fns.

(** The state of the loop over the pages. *)
Record MergeState := {
  total_found : Z;
  total_merged : Z;
  total_unmatched : Z;
  total_no_ocr_text : Z;
  page_stats : list PageStat.t;
  output_parts : list str }.

(** The body of the loop over the pages; [classification_fns] is the
    truthy, corrected inventory, or [None] in pure OCR mode. *)
Definition process_block (classification_fns : option (gmap Z FnRecord.t))
    (ocr_texts : gmap Z str) (st : MergeState) (block : Block.t)
  : MergeState :=
  let pg_num := Block.page_number block in
  let lines := Block.lines block in
  let page_fns := page_fns_of classification_fns ocr_texts block in
  let no_ocr_now :=
    match classification_fns with
    | Some _ => Z.of_nat (size (no_text page_fns))
    | None => 0
    end in
  let refs := refs_on_page lines page_fns in
  let unmatched_fns := dom page_fns ∖ refs in
  let found := negb (bool_decide (page_fns = ∅)) in
  {| total_found :=
       total_found st + Z.of_nat (size page_fns);
     total_merged :=
       total_merged st + (if found then Z.of_nat (size refs) else 0);
     total_unmatched :=
       total_unmatched st
       + (if found then Z.of_nat (size unmatched_fns) else 0);
     total_no_ocr_text := total_no_ocr_text st + no_ocr_now;
     page_stats :=
       page_stats st ++
         (if found then
            [ {| PageStat.page := pg_num;
                 PageStat.fn_numbers := sorted (dom page_fns);
                 PageStat.merged_refs := sorted refs;
                 PageStat.unmatched := sorted unmatched_fns;
                 PageStat.no_ocr_text := sorted (no_text page_fns) |} ]
          else []);
     output_parts :=
       output_parts st ++
         [ Block.start_delim block;
           join_lines (merged_lines lines page_fns);
           Block.end_delim block ] |}.

Definition process_document
    (content : str) (classification_fns : option (gmap Z FnRecord.t))
  : str * Stats.t :=
  let '(preamble, blocks) := split_into_pages content in
  let source :=
    match truthy_dict classification_fns with
    | Some _ => lit "classification+ocr"
    | None => lit "ocr_only"
    end in
  let marker_pages := marker_pages blocks in
  let ocr_texts := ocr_texts blocks in
  let classification_fns :=
    correct_attribution marker_pages <$> truthy_dict classification_fns in
  let st :=
    foldl (process_block classification_fns ocr_texts)
          {| total_found := 0; total_merged := 0; total_unmatched := 0;
             total_no_ocr_text := 0; page_stats := [];
             output_parts :=
               match preamble with
               | [] => []
               | _ :: _ => [join_lines preamble]
               end |}
          blocks in
  (join_lines (output_parts st),
   {| Stats.source := source;
      Stats.total_found := total_found st;
      Stats.total_merged := total_merged st;
      Stats.total_unmatched := total_unmatched st;
      Stats.total_no_ocr_text := total_no_ocr_text st;
      Stats.pages_with_footnotes := Z.of_nat (length (page_stats st));
      Stats.page_details := page_stats st |}).

End MergeFootnotes.

(** ** 13_text_classifier.py: reading the pages of a combined file *)

Module CombinedMd.
Import Py Classification TextClassifier.

(** The line boundaries of [str.splitlines]: LF, VT, FF, CR, FS, GS, RS,
    NEL, LS and PS; CR LF counts as one. *)
Definition is_linebreak (c : char) : bool :=
  ((10 <=? c) && (c <=? 13) || (28 <=? c) && (c <=? 30)
   || (c =? 133) || (c =? 8232) || (c =? 8233))%N.

(** [s.splitlines()]; the line being read is accumulated in [cur], and
    [after_cr] tells that the character before was a CR (an LF that
    follows it belongs to the same boundary). No empty line is added
    after a final boundary. *)
Fixpoint splitlines_go (after_cr : bool) (cur : str) (s : str) : list str :=
  match s with
  | [] => match cur with [] => [] | _ :: _ => [cur] end
  | c :: r =>
      if after_cr && bool_decide (c = LF) then splitlines_go false [] r
      else if is_linebreak c
      then cur :: splitlines_go (bool_decide (c = CR)) [] r
      else splitlines_go false (cur ++ [c]) r
  end.

Definition splitlines (s : str) : list str := splitlines_go false [] s.

(** [MD_PAGE_START_RE] and [MD_PAGE_END_RE]: the patterns of
    [merge_footnotes.py], character for character. *)
Definition MD_PAGE_START_RE : str → option Z :=
  MergeFootnotes.match_page_delim (lit "---[Start PDF page ").

Definition MD_PAGE_END_RE : str → option Z :=
  MergeFootnotes.match_page_delim (lit "---[End PDF page ").

(** [f'{n:04d}']: the sign, then the digits filled with zeros to four
    characters in all. *)
Definition zero_pad (width : nat) (ds : str) : str :=
  replicate (width - length ds) 48%N ++ ds.

Definition format_04d (n : Z) : str :=
  if bool_decide (n < 0) then lit "-" ++ zero_pad 3 (str_of_int (- n))
  else zero_pad 4 (str_of_int n).

(** A page as [read_combined_md] builds it; [page] is the part of it
    that the verification functions read. *)
Module SourcePage.
Record t := { number : Z; filename : str; text : str }.
Definition page (p : t) : Page.t :=
  {| Page.number := number p; Page.text := text p |}.
End SourcePage.

Definition source_page (current_page : Z) (current_lines : list str)
  : SourcePage.t :=
  {| SourcePage.number := current_page;
     SourcePage.filename :=
       lit "page_" ++ format_04d current_page ++ lit ".txt";
     SourcePage.text := strip (join_lines current_lines) |}.

(** The state of the loop of [read_combined_md]. *)
Module ReadState.
Record t := {
  pages : list SourcePage.t;
  current_page : option Z;
  current_lines : list str }.
End ReadState.

Definition read_step (st : ReadState.t) (line : str) : ReadState.t :=
  match MD_PAGE_START_RE line with
  | Some n =>
      {| ReadState.pages := ReadState.pages st;
         ReadState.current_page := Some n;
         ReadState.current_lines := [] |}
  | None =>
      match MD_PAGE_END_RE line with
      | Some _ =>
          {| ReadState.pages :=
               match ReadState.current_page st with
               | Some p =>
                   ReadState.pages st
                   ++ [ source_page p (ReadState.current_lines st) ]
               | None => ReadState.pages st
               end;
             ReadState.current_page := None;
             ReadState.current_lines := [] |}
      | None =>
          match ReadState.current_page st with
          | Some _ =>
              {| ReadState.pages := ReadState.pages st;
                 ReadState.current_page := ReadState.current_page st;
                 ReadState.current_lines :=
                   ReadState.current_lines st ++ [line] |}
          | None => st
          end
      end
  end.

(** The pages in the order of the file, before they are sorted. *)
Definition read_pages (content : str) : list SourcePage.t :=
  ReadState.pages
    (foldl read_step
       {| ReadState.pages := []; ReadState.current_page := None;
          ReadState.current_lines := [] |}
       (splitlines content)).

(** [pages.sort(key=lambda x: x['number'])], a stable sort: each page is
    inserted before the pages that follow it in the file. *)
Fixpoint insert_page (x : SourcePage.t) (l : list SourcePage.t)
  : list SourcePage.t :=
  match l with
  | [] => [x]
  | y :: l' =>
      if bool_decide (SourcePage.number x ≤ SourcePage.number y)
      then x :: l
      else y :: insert_page x l'
  end.

Fixpoint sort_pages (l : list SourcePage.t) : list SourcePage.t :=
  match l with
  | [] => []
  | x :: l' => insert_page x (sort_pages l')
  end.

(** [read_combined_md], on the text of the file. *)
Definition read_combined_md (content : str) : list SourcePage.t :=
  sort_pages (read_pages content).

End CombinedMd.

(** ** 13_text_classifier.py: the fields flattened without verification *)

Module SearchFields.
Import Py Classification TextClassifier.

(** The [caption_info.document_title] part: a value that is a dict gives
    way to its [search_text]; an absent key reads as the empty dict. *)
Definition normalize_document_title (ci : CaptionInfo.t) : CaptionInfo.t :=
  match CaptionInfo.document_title ci with
  | Some (Text _) => ci
  | dt_opt =>
      let dt := match dt_opt with
                | Some (Object f) => f
                | _ => {| SearchField.search_text := None;
                          SearchField.page := None |}
                end in
      {| CaptionInfo.document_title :=
           Some (Text (default [] (SearchField.search_text dt)));
         CaptionInfo.document_title_verified :=
           CaptionInfo.document_title_verified ci;
         CaptionInfo.document_title_proposed_value :=
           CaptionInfo.document_title_proposed_value ci |}
  end.

(** ['if 'search_text' in coa: coa['title'] = coa.pop('search_text')']. *)
Definition normalize_coa (coa : Coa.t) : Coa.t :=
  match Coa.search_text coa with
  | Some search_text =>
      {| Coa.number := Coa.number coa;
         Coa.search_text := None;
         Coa.page := Coa.page coa;
         Coa.paragraph_range := Coa.paragraph_range coa;
         Coa.title := Some search_text;
         Coa.title_verified := Coa.title_verified coa;
         Coa.title_proposed_value := Coa.title_proposed_value coa;
         Coa.paragraph_range_verified := Coa.paragraph_range_verified coa;
         Coa.missing_paragraphs := Coa.missing_paragraphs coa |}
  | None => coa
  end.

Definition normalize_search_fields (result_ : Result.t) : Result.t :=
  {| Result.caption_info :=
       normalize_document_title (Result.caption_info result_);
     Result.causes_of_action :=
       (λ coas : list Coa.t, normalize_coa <$> coas)
         <$> Result.causes_of_action result_;
     Result.pages := Result.pages result_ |}.

End SearchFields.

(** ** 13_text_classifier.py: the answers of the image review *)

Module ImageReview.
Import Py Classification TextClassifier.

Definition CATEGORIES : list str :=
  [ lit "Form"; lit "Pleading first page"; lit "Pleading table of contents";
    lit "Pleading table of authorities"; lit "Exhibit cover page";
    lit "Exhibit content"; lit "Proof of service"; lit "Pleading body" ].

(** The three caption fields that an answer can update, and a table with
    one value for each of them. *)
Inductive Field := FILING_DATE | DOCUMENT_TITLE | CASE_NUMBER.

Definition caption_fields : list Field :=
  [ FILING_DATE; DOCUMENT_TITLE; CASE_NUMBER ].

Module PerField.
Record t (A : Type) := {
  filing_date : A;
  document_title : A;
  case_number : A }.
Global Arguments filing_date {A} _.
Global Arguments document_title {A} _.
Global Arguments case_number {A} _.

Definition get {A} (d : t A) (field : Field) : A :=
  match field with
  | FILING_DATE => filing_date d
  | DOCUMENT_TITLE => document_title d
  | CASE_NUMBER => case_number d
  end.

Definition set {A} (d : t A) (field : Field) (v : A) : t A :=
  match field with
  | FILING_DATE =>
      {| filing_date := v; document_title := document_title d;
         case_number := case_number d |}
  | DOCUMENT_TITLE =>
      {| filing_date := filing_date d; document_title := v;
         case_number := case_number d |}
  | CASE_NUMBER =>
      {| filing_date := filing_date d; document_title := document_title d;
         case_number := v |}
  end.
End PerField.

(** A page of the first pass, with the keys that the merge reads or
    writes. *)
Module Page.
Record t := {
  page_number : Z;
  category : str;
  exhibit_label : option str;
  footnotes : option (list Footnote.t);
  has_footnote : option bool }.
End Page.

(** An answer of the second pass. *)
Module Answer.
Record t := {
  page_number : Z;
  updated_category : option str;
  updated_exhibit_label : option str;
  updated_footnotes : option (list Footnote.t);
  caption_updates : option (PerField.t (option str)) }.
End Answer.

(** An entry of [caption_review]. *)
Module Entry.
Record t := {
  text_value : title_value;
  image_value : str;
  source : str;
  chosen : str }.
End Entry.

(** Equality of values is decidable, as [==] and [!=] decide it. *)
#[global] Instance SearchField_eq_dec : EqDecision SearchField.t :=
  ltac:(solve_decision).
#[global] Instance title_value_eq_dec : EqDecision title_value :=
  ltac:(solve_decision).
#[global] Instance Entry_eq_dec : EqDecision Entry.t :=
  ltac:(solve_decision).
#[global] Instance PerField_eq_dec `{EqDecision A} : EqDecision (PerField.t A) :=
  ltac:(solve_decision).

(** The result of the first pass and of the merge, with the keys read or
    written here; a caption value is a string or, for the title before
    it is flattened, the proposal object. *)
Module Pass1.
Record t := {
  pages : list Page.t;
  caption_info : PerField.t (option title_value);
  caption_review : option (PerField.t (option Entry.t));
  image_review_completed : option bool }.
End Pass1.

Module Pass2.
Record t := { answers : option (list Answer.t) }.
End Pass2.

(** [page_map]: page number -> the page object, here its place in the
    list of pages; of two pages with one number the later one is kept. *)
Definition page_map (pages : list Page.t) : gmap Z nat :=
  foldl (λ m ip, <[Page.page_number ip.2 := ip.1]> m) ∅ (imap pair pages).

(** The three updates of a page object through [page_map]. *)
Definition set_category (cat : str) (p : Page.t) : Page.t :=
  {| Page.page_number := Page.page_number p;
     Page.category := cat;
     Page.exhibit_label := Page.exhibit_label p;
     Page.footnotes := Page.footnotes p;
     Page.has_footnote := Page.has_footnote p |}.

Definition set_exhibit_label (label : str) (p : Page.t) : Page.t :=
  {| Page.page_number := Page.page_number p;
     Page.category := Page.category p;
     Page.exhibit_label := Some label;
     Page.footnotes := Page.footnotes p;
     Page.has_footnote := Page.has_footnote p |}.

Definition set_footnotes (fns : list Footnote.t) (p : Page.t) : Page.t :=
  {| Page.page_number := Page.page_number p;
     Page.category := Page.category p;
     Page.exhibit_label := Page.exhibit_label p;
     Page.footnotes := Some fns;
     Page.has_footnote := Some (bool_decide (0 < length fns)%nat) |}.

(** The page updates of one answer. *)
Definition update_pages (page_map : gmap Z nat) (answer : Answer.t)
    (pages : list Page.t) : list Page.t :=
  let pg_num := Answer.page_number answer in
  let pages1 :=
    match truthy (Answer.updated_category answer) with
    | Some cat =>
        if bool_decide (cat ∈ CATEGORIES) then
          match page_map !! pg_num with
          | Some i =>
              alter (λ p, if bool_decide (Page.category p ≠ cat)
                          then set_category cat p else p) i pages
          | None => pages
          end
        else pages
    | None => pages
    end in
  let pages2 :=
    match truthy (Answer.updated_exhibit_label answer), page_map !! pg_num with
    | Some label, Some i => alter (set_exhibit_label label) i pages1
    | _, _ => pages1
    end in
  match Answer.updated_footnotes answer, page_map !! pg_num with
  | Some (fn :: fns), Some i => alter (set_footnotes (fn :: fns)) i pages2
  | _, _ => pages2
  end.

(** The body of ['for field in [...]'] for one field of one answer, on
    the caption and the review collected so far. *)
Definition review_field (cap_updates : PerField.t (option str))
    (st : PerField.t (option title_value) * PerField.t (option Entry.t))
    (field : Field)
  : PerField.t (option title_value) * PerField.t (option Entry.t) :=
  let new_val := default [] (PerField.get cap_updates field) in
  if nonempty new_val then
    let old_val := default (Text []) (PerField.get st.1 field) in
    if bool_decide (old_val ≠ Text new_val) then
      (match field with
       | FILING_DATE => PerField.set st.1 field (Some (Text new_val))
       | _ => st.1
       end,
       PerField.set st.2 field
         (Some {| Entry.text_value := old_val;
                  Entry.image_value := new_val;
                  Entry.source := lit "image_review";
                  Entry.chosen :=
                    match field with
                    | FILING_DATE => lit "image"
                    | _ => lit "text"
                    end |}))
    else st
  else st.

Definition no_updates : PerField.t (option str) :=
  {| PerField.filing_date := None; PerField.document_title := None;
     PerField.case_number := None |}.

Definition review_caption (answer : Answer.t)
    (st : PerField.t (option title_value) * PerField.t (option Entry.t))
  : PerField.t (option title_value) * PerField.t (option Entry.t) :=
  foldl (review_field (default no_updates (Answer.caption_updates answer)))
        st caption_fields.

(** The state of the loop over the answers. *)
Module MergeState.
Record t := {
  pages : list Page.t;
  caption : PerField.t (option title_value) * PerField.t (option Entry.t) }.
End MergeState.

Definition apply_answer (page_map : gmap Z nat) (st : MergeState.t)
    (answer : Answer.t) : MergeState.t :=
  {| MergeState.pages := update_pages page_map answer (MergeState.pages st);
     MergeState.caption := review_caption answer (MergeState.caption st) |}.

Definition no_review : PerField.t (option Entry.t) :=
  {| PerField.filing_date := None; PerField.document_title := None;
     PerField.case_number := None |}.

Definition merge_image_review (pass1_result : Pass1.t)
    (pass2_result : Pass2.t) : Pass1.t :=
  let page_map := page_map (Pass1.pages pass1_result) in
  let st :=
    foldl (apply_answer page_map)
      {| MergeState.pages := Pass1.pages pass1_result;
         MergeState.caption := (Pass1.caption_info pass1_result, no_review) |}
      (default [] (Pass2.answers pass2_result)) in
  let caption_review := (MergeState.caption st).2 in
  {| Pass1.pages := MergeState.pages st;
     Pass1.caption_info := (MergeState.caption st).1;
     Pass1.caption_review :=
       if bool_decide (caption_review = no_review)
       then Pass1.caption_review pass1_result
       else Some caption_review;
     Pass1.image_review_completed := Some true |}.

End ImageReview.

(** ** 13_text_classifier.py: the rows of the classification table *)

Module ClassificationCsv.
Import Py Classification TextClassifier.

(** A page of the classification output, with the keys that the table
    reads. *)
Module ClassifiedPage.
Record t := {
  page_number : Z;
  category : option str;
  subtype : option str;
  exhibit_label : option str;
  exhibit_title : option str;
  nested_exhibit_label : option str;
  nested_exhibit_title : option str;
  exhibit_notes : option str;
  notes : option str }.
End ClassifiedPage.

(** A row of the table. *)
Module Row.
Record t := {
  filename : str;
  category : str;
  subtype : str;
  exhibit_label : str;
  exhibit_title : str;
  nested_exhibit_label : str;
  nested_exhibit_title : str;
  exhibit_notes : str;
  notes : str }.
End Row.

(** [classified]: page number -> classification, the dict comprehension
    over [result['pages']]. *)
Definition classified (result_pages : list ClassifiedPage.t)
  : gmap Z ClassifiedPage.t :=
  foldl (λ m p, <[ClassifiedPage.page_number p := p]> m) ∅ result_pages.

(** The body of ['for pg in pages:']; an absent classification reads as
    the empty dict. *)
Definition row (classified : gmap Z ClassifiedPage.t) (pg : Page.t)
  : Row.t :=
  let num := Page.number pg in
  let cl := classified !! num in
  {| Row.filename := lit "page_" ++ CombinedMd.format_04d num ++ lit ".png";
     Row.category :=
       default (lit "Pleading body") (cl ≫= ClassifiedPage.category);
     Row.subtype := default [] (cl ≫= ClassifiedPage.subtype);
     Row.exhibit_label := default [] (cl ≫= ClassifiedPage.exhibit_label);
     Row.exhibit_title := default [] (cl ≫= ClassifiedPage.exhibit_title);
     Row.nested_exhibit_label :=
       default [] (cl ≫= ClassifiedPage.nested_exhibit_label);
     Row.nested_exhibit_title :=
       default [] (cl ≫= ClassifiedPage.nested_exhibit_title);
     Row.exhibit_notes := default [] (cl ≫= ClassifiedPage.exhibit_notes);
     Row.notes := default [] (cl ≫= ClassifiedPage.notes) |}.

(** The rows that [write_classification_csv] hands to the CSV writer. *)
Definition rows (result_pages : list ClassifiedPage.t) (pages : list Page.t)
  : list Row.t :=
  row (classified result_pages) <$> pages.

End ClassificationCsv.

Import Py Classification TextClassifier MergeFootnotes.

(** ** Vocabulary of the statements *)

(** The first character of [s] exists and is not whitespace. *)
Definition head_nonspace (s : str) : bool :=
  match s with
  | c :: _ => negb (isspace c)
  | [] => false
  end.

(** The last character of [s] exists and is not whitespace. *)
Definition last_nonspace (s : str) : bool := head_nonspace (reverse s).

(** The only whitespace characters of [s] are the four that the mapping
    loops of [search_source_text] look for: space, tab, newline and
    carriage return. *)
Definition plain_ws (s : str) : Prop :=
  Forall (λ c, isspace c = true → is_ws4 c = true) s.

(** [s] starts, or ends, inside a run of the four characters. *)
Definition starts_ws4 (s : str) : bool :=
  match s with
  | c :: _ => is_ws4 c
  | [] => false
  end.

Definition ends_ws4 (s : str) : bool := starts_ws4 (reverse s).

(** What field verification owes a cause of action [coa] in its output
    [coa']: the search is run when the proposal is not empty and the page
    is positive. *)
Definition coa_title_verified (pages : list Page.t) (coa coa' : Coa.t)
  : Prop :=
  let proposal := default [] (Coa.search_text coa) in
  let page := default 0 (Coa.page coa) in
  if bool_decide (proposal ≠ [] ∧ page > 0) then
    match search_source_text proposal page pages with
    | Ok (Some verbatim) =>
        Coa.title coa' = Some verbatim
        ∧ Coa.title_verified coa' = Some true
    | Ok None =>
        Coa.title coa' = Some proposal
        ∧ Coa.title_verified coa' = Some false
        ∧ Coa.title_proposed_value coa' = Some proposal
    | Raise _ => False
    end
  else
    Coa.title coa' = Some proposal
    ∧ Coa.title_verified coa' = Coa.title_verified coa
    ∧ Coa.title_proposed_value coa' = Coa.title_proposed_value coa.

(** The same for the document title [dt] of the caption [ci]: the search
    is run when the proposal is not empty, on page 1 when none is given. *)
Definition document_title_verified (pages : list Page.t)
    (dt : SearchField.t) (ci ci' : CaptionInfo.t) : Prop :=
  let proposal := default [] (SearchField.search_text dt) in
  let page := default 1 (SearchField.page dt) in
  if bool_decide (proposal ≠ []) then
    match search_source_text proposal page pages with
    | Ok (Some verbatim) =>
        CaptionInfo.document_title ci' = Some (Text verbatim)
        ∧ CaptionInfo.document_title_verified ci' = Some true
    | Ok None =>
        CaptionInfo.document_title ci' = Some (Text proposal)
        ∧ CaptionInfo.document_title_verified ci' = Some false
        ∧ CaptionInfo.document_title_proposed_value ci' = Some proposal
    | Raise _ => False
    end
  else
    CaptionInfo.document_title ci' = Some (Text proposal)
    ∧ CaptionInfo.document_title_verified ci'
      = CaptionInfo.document_title_verified ci
    ∧ CaptionInfo.document_title_proposed_value ci'
      = CaptionInfo.document_title_proposed_value ci.

(** The footnote numbers of a classification output, in page order. *)
Definition resolved_numbers (result_ : Result.t) : list Z :=
  IndexRow.fn_number <$> collect_footnotes (default [] (Result.pages result_)).

(** The numbers reported missing, and the numbers reported duplicate, in
    the order of the report. *)
Definition missing_numbers (report : list Issue) : list Z :=
  omap (λ i, match i with MISSING m _ _ => Some m | _ => None end) report.

Definition duplicate_numbers (report : list Issue) : list Z :=
  omap (λ i, match i with DUPLICATE n _ => Some n | _ => None end) report.

(** How often [n] occurs in [l]. *)
Definition occurrences (n : Z) (l : list Z) : nat :=
  length (filter (λ x, x = n) l).

(** The gaps and the repetitions that the validation loop meets on the
    numbers [l], from the expected number [e] and the numbers [seen]. *)
Fixpoint gaps (e : Z) (l : list Z) : list Z :=
  match l with
  | [] => []
  | x :: l' => (if bool_decide (x > e) then seqZ e (x - e) else [])
               ++ gaps (x + 1) l'
  end.

Fixpoint repeats (seen : gset Z) (l : list Z) : list Z :=
  match l with
  | [] => []
  | x :: l' => (if bool_decide (x ∈ seen) then [x] else [])
               ++ repeats ({[ x ]} ∪ seen) l'
  end.

(** What range verification owes a cause of action [coa] in its output
    [coa'], [observed] being the pooled set of paragraph numbers. *)
Definition range_verified (observed : gset Z) (coa coa' : Coa.t) : Prop :=
  let para_range :=
    default {| ParagraphRange.start := None; ParagraphRange.end_ := None |}
            (Coa.paragraph_range coa) in
  let start := default 0 (ParagraphRange.start para_range) in
  let end_ := default 0 (ParagraphRange.end_ para_range) in
  if bool_decide (start > 0 ∧ end_ > 0) then
    ∃ missing,
      Coa.missing_paragraphs coa' = Some missing
      ∧ StronglySorted Z.lt missing
      ∧ (∀ k, k ∈ missing ↔ start ≤ k ≤ end_ ∧ k ∉ observed)
      ∧ Coa.paragraph_range_verified coa'
        = Some (bool_decide (missing = []))
  else
    Coa.paragraph_range_verified coa' = Some false
    ∧ Coa.missing_paragraphs coa' = Some [].

(** The entries of the classification pages that carry the footnote
    number [n], in the order listed. *)
Definition entries_numbered (n : Z) (pages : list PageResult.t)
  : list (Z * Footnote.t) :=
  filter (λ e, default 0 (Footnote.fn_number e.2) = n)
         (inventory_entries pages).

(** The write that an entry causes in the inventory, if any. *)
Definition inventory_write (e : Z * Footnote.t) : option (Z * FnRecord.t) :=
  if bool_decide (default 0 (Footnote.fn_number e.2) > 0)
  then Some (default 0 (Footnote.fn_number e.2), record_of e.1 e.2)
  else None.

(** A marker of the footnote number [n] occurs on page [p] of the
    document: the marker survey of the reconciliation. *)
Definition marker_on_page (blocks : list Block.t) (n p : Z) : Prop :=
  ∃ b line,
    b ∈ blocks ∧ Block.page_number b = p
    ∧ line ∈ Block.lines b ∧ n ∈ markers line.

(** The pairs (page, number) of the markers of a document, in the order
    the survey meets them. *)
Definition marker_sites (blocks : list Block.t) : list (Z * Z) :=
  b ← blocks;
  line ← Block.lines b;
  n ← markers line;
  [ (Block.page_number b, n) ].

(** The pages with an inline reference marker of [n] in the strict sense:
    a marker on a line that is not a trailing text block. *)
Definition inline_marker_pages (blocks : list Block.t) (n : Z) : gset Z :=
  list_to_set
    (b ← blocks;
     line ← Block.lines b;
     if bool_decide (match_text_block line = None ∧ n ∈ markers line)
     then [ Block.page_number b ] else []).

(** The trailing text blocks of a page, and of a document, as pairs of
    number and text, in document order. *)
Definition text_block_of (line : str) : option (Z * str) :=
  match match_text_block line with
  | Some (n, group2) => Some (n, strip group2)
  | None => None
  end.

Definition text_blocks_of (lines : list str) : list (Z * str) :=
  omap text_block_of lines.

Definition text_blocks (blocks : list Block.t) : list (Z * str) :=
  b ← blocks; text_blocks_of (Block.lines b).

(** The text of the last trailing text block numbered [n]. *)
Definition last_text (n : Z) (blocks : list Block.t) : option str :=
  snd <$> last (filter (λ e, e.1 = n) (text_blocks blocks)).

(** The annotation that replaces a marker of [n]. *)
Definition annotation (n : Z) (text : str) : str :=
  lit " [FN" ++ str_of_int n ++ lit ": " ++ text ++ lit "]".

(** Line [i] of [lines] is a trailing text block of a number to remove;
    line [i] is blank; all lines strictly between [i] and [j] are blank. *)
Definition block_line (lines : list str) (nums : gset Z) (i : nat) : Prop :=
  ∃ line n group2,
    lines !! i = Some line
    ∧ match_text_block line = Some (n, group2) ∧ n ∈ nums.

Definition blank_line (lines : list str) (i : nat) : Prop :=
  ∃ line, lines !! i = Some line ∧ is_blank line = true.

Definition blank_between (lines : list str) (i j : nat) : Prop :=
  ∀ k, (i < k < j)%nat ∨ (j < k < i)%nat → blank_line lines k.

(** What [remove_fn_text_blocks] deletes: the text blocks to remove, and
    the blank lines that only blank lines separate from one of them. *)
Definition deleted (lines : list str) (nums : gset Z) (i : nat) : Prop :=
  block_line lines nums i
  ∨ (blank_line lines i
     ∧ ∃ j, block_line lines nums j ∧ blank_between lines i j).

(** The document written from the preamble and, for each page, the lines
    [written] for it between its two delimiters. *)
Definition document_of (preamble : list str) (blocks : list Block.t)
    (written : Block.t → list str) : str :=
  join_lines
    (match preamble with
     | [] => []
     | _ :: _ => [ join_lines preamble ]
     end
     ++ (b ← blocks;
         [ Block.start_delim b; join_lines (written b); Block.end_delim b ])).

(** The footnote numbers of the trailing text blocks of a page. *)
Definition block_numbers (lines : list str) : gset Z :=
  dom (extract_ocr_footnotes lines).

(** The write that a page causes in [page_paragraphs], if any. *)
Definition paragraphs_write (pg : Page.t) : option (Z * gset Z) :=
  if bool_decide (paragraph_nums (Page.text pg) ≠ ∅)
  then Some (Page.number pg, paragraph_nums (Page.text pg))
  else None.

(** [pg] is the first page of the store [pages] that carries the number
    [p]: no page before it does. *)
Definition first_page (pages : list Page.t) (p : Z) (pg : Page.t) : Prop :=
  ∃ before after,
    pages = before ++ pg :: after
    ∧ Page.number pg = p
    ∧ ∀ q, q ∈ before → Page.number q ≠ p.

(** [piece] occurs in [text] as a contiguous run of characters. *)
Definition occurs_in (piece text : str) : Prop :=
  ∃ a b, text = a ++ piece ++ b.


(** ** Sample inputs of the examples *)

Module Sample.

(** A complaint whose paragraphs 1 to 10 are on page 1 and 12, 13 on
    page 2: paragraph 11 is not in the text. *)
Definition complaint_pages : list Page.t :=
  [ {| Page.number := 1;
       Page.text :=
         join_lines
           [ lit "COMPLAINT"; lit "1. Plaintiff is a resident.";
             lit "2. Defendant is a corporation."; lit "  3. Venue is proper.";
             lit "4. On May 1 the parties met."; lit "5. They signed.";
             lit "6. Plaintiff paid."; lit "7. Defendant did not deliver.";
             lit "8. Plaintiff demanded."; lit "9. Defendant refused.";
             lit "FIRST CAUSE OF ACTION"; lit "10. Plaintiff realleges." ] |};
    {| Page.number := 2;
       Page.text :=
         join_lines
           [ [PILCROW] ++ lit " 12. Defendant breached.";
             lit "13. Plaintiff was damaged."; lit "See 14. above." ] |} ].

(** A cause of action with the paragraph range from [start] to [end_]. *)
Definition coa_with_range (start end_ : Z) : Coa.t :=
  {| Coa.number := Some 1;
     Coa.search_text := None;
     Coa.page := Some 1;
     Coa.paragraph_range :=
       Some {| ParagraphRange.start := Some start;
               ParagraphRange.end_ := Some end_ |};
     Coa.title := Some (lit "FIRST CAUSE OF ACTION");
     Coa.title_verified := None;
     Coa.title_proposed_value := None;
     Coa.paragraph_range_verified := None;
     Coa.missing_paragraphs := None |}.

(** A page of a merged document. *)
Definition page_text (n : Z) (lines : list str) : list str :=
  [ lit "---[Start PDF page " ++ str_of_int n ++ lit "]---" ]
  ++ lines
  ++ [ lit "---[End PDF page " ++ str_of_int n ++ lit "]---" ].

(** Footnote 7 is cited on pages 8 and 9 and printed on page 9; page 5
    has no marker of it. *)
Definition brief : str :=
  join_lines
    (page_text 5 [ lit "The statute applies." ]
     ++ page_text 8 [ lit "Plaintiff relies on Smith.$ ^{7} $ It controls." ]
     ++ page_text 9 [ lit "As noted$ ^{7} $ above."; [];
                      lit "$ ^{7} $ Smith v. Jones, 1 Cal. 2 (1990)." ]).

(** The same citations, with the text of footnote 7 printed on page 5. *)
Definition brief_printed_on_5 : str :=
  join_lines
    (page_text 5 [ lit "The statute applies."; [];
                   lit "$ ^{7} $ Smith v. Jones, 1 Cal. 2 (1990)." ]
     ++ page_text 8 [ lit "Plaintiff relies on Smith.$ ^{7} $ It controls." ]
     ++ page_text 9 [ lit "As noted$ ^{7} $ above." ]).

(** The location record that claims footnote 7 for page 5. *)
Definition record_on_page_5 : FnRecord.t :=
  {| FnRecord.page := 5;
     FnRecord.merge_status := lit "merged";
     FnRecord.merge_location := [];
     FnRecord._llm_text := lit "Smith v. Jones";
     FnRecord._original_page := None |}.

(** Footnote 1 is cited and printed on page 1, and again, with another
    text, on page 2. *)
Definition twice_printed : str :=
  join_lines
    (page_text 1 [ lit "The court held$ ^{1} $ otherwise.";
                   lit "$ ^{1} $ First version." ]
     ++ page_text 2 [ lit "It later$ ^{1} $ agreed.";
                      lit "$ ^{1} $ Second version." ]).

(** Footnote 1 is cited on page 1 and printed on page 2. *)
Definition cited_then_printed : str :=
  join_lines
    (page_text 1 [ lit "The court agreed.$ ^{1} $ See below." ]
     ++ page_text 2 [ lit "The discussion continues."; [];
                      lit "$ ^{1} $ Smith v. Jones, 1 Cal. 2 (1990)." ]).

(** A footnote entry of the classification output with the number [n]
    and the status [merged], and a classification output with the given
    pages and nothing else. *)
Definition footnote (n : Z) (text : string) : Footnote.t :=
  {| Footnote.fn_number := Some n;
     Footnote.fn_text := Some (lit text);
     Footnote.merge_status := Some (lit "merged");
     Footnote.merge_location := Some [] |}.

Definition classified (pages : list (Z * list Footnote.t)) : Result.t :=
  {| Result.caption_info :=
       {| CaptionInfo.document_title := None;
          CaptionInfo.document_title_verified := None;
          CaptionInfo.document_title_proposed_value := None |};
     Result.causes_of_action := None;
     Result.pages :=
       Some ((λ p, {| PageResult.page_number := Some p.1;
                      PageResult.footnotes := Some p.2 |}) <$> pages) |}.

End Sample.

(** ** Vocabulary of the further properties *)

(** The records (number, page) reported out of order, and the records
    reported duplicate, in the order of the report. *)
Definition out_of_order_records (report : list Issue) : list (Z * Z) :=
  omap (λ i, match i with OUT_OF_ORDER n p _ => Some (n, p) | _ => None end)
       report.

Definition duplicate_records (report : list Issue) : list (Z * Z) :=
  omap (λ i, match i with DUPLICATE n p => Some (n, p) | _ => None end)
       report.

(** Every out-of-order issue of the report expects the number after the
    one it reports: the record before it carried the same number. *)
Definition expects_successor (i : Issue) : Prop :=
  match i with
  | OUT_OF_ORDER n _ e => e = n + 1
  | _ => True
  end.

(** Page [i] of the store counts in the pooled paragraph set: it shows
    paragraph numbers, and no later page of the same number does (a later
    page that shows some takes its place in [page_paragraphs]). *)
Definition counts_in_pool (pages : list Page.t) (i : nat) (pg : Page.t)
  : Prop :=
  pages !! i = Some pg
  ∧ paragraph_nums (Page.text pg) ≠ ∅
  ∧ ∀ j pg', (i < j)%nat → pages !! j = Some pg' →
             Page.number pg' = Page.number pg →
             paragraph_nums (Page.text pg') = ∅.

(** A line that one of the two page delimiter patterns matches. *)
Definition is_delimiter (line : str) : bool :=
  bool_decide (is_Some (PAGE_START_RE line))
  || bool_decide (is_Some (PAGE_END_RE line)).

(** The lines of a page in a document: its start delimiter, its lines,
    its end delimiter. *)
Definition page_lines (b : Block.t) : list str :=
  Block.start_delim b :: Block.lines b ++ [ Block.end_delim b ].

(** The lines of a document made of a preamble and pages. *)
Definition document_lines (preamble : list str) (blocks : list Block.t)
  : list str :=
  preamble ++ (b ← blocks; page_lines b).

(** A page block as the splitter builds it: the start delimiter carries
    the page number, the end delimiter matches the end pattern, and no
    line between them is a delimiter. *)
Definition well_formed_block (b : Block.t) : Prop :=
  PAGE_START_RE (Block.start_delim b) = Some (Block.page_number b)
  ∧ is_Some (PAGE_END_RE (Block.end_delim b))
  ∧ Forall (λ l, is_delimiter l = false) (Block.lines b).

(** What a page entry of the diagnostics must satisfy: it lists at least
    one footnote number, and its numbers are those found with a marker on
    the page together with those without one, no number being in both. *)
Definition page_stat_partition (ps : PageStat.t) : Prop :=
  PageStat.fn_numbers ps ≠ []
  ∧ (∀ n, n ∈ PageStat.fn_numbers ps
          ↔ n ∈ PageStat.merged_refs ps ∨ n ∈ PageStat.unmatched ps)
  ∧ (∀ n, n ∈ PageStat.merged_refs ps → n ∉ PageStat.unmatched ps)
  ∧ (∀ n, n ∈ PageStat.no_ocr_text ps → n ∈ PageStat.fn_numbers ps).

(** The number of footnote numbers listed in the page entries. *)
Definition listed_numbers (details : list PageStat.t) : Z :=
  Z.of_nat (sum_list_with (λ ps, length (PageStat.fn_numbers ps)) details).

(** Two inventories that place the same footnote numbers on the same
    pages (they may differ in the other fields of their records). *)
Definition same_locations (fns1 fns2 : gmap Z FnRecord.t) : Prop :=
  ∀ n, FnRecord.page <$> fns1 !! n = FnRecord.page <$> fns2 !! n.

(** The page that the classifier reads from a page block of the merger:
    its number, and its lines joined and stripped. *)
Definition block_page (b : Block.t) : CombinedMd.SourcePage.t :=
  CombinedMd.source_page (Block.page_number b) (Block.lines b).

(** The only line boundary of [content] is the newline: it holds none of
    the other characters at which [str.splitlines] splits. *)
Definition newline_only (content : str) : Prop :=
  Forall (λ c, CombinedMd.is_linebreak c = true → c = LF) content.

(** A title after verification is the proposal, or it is marked verified
    and is a piece, not empty, of the text of the page searched. *)
Definition proposal_or_verbatim (pages : list Page.t) (proposal : str)
    (page : Z) (title : str) (verified : option bool) : Prop :=
  title = proposal
  ∨ (verified = Some true ∧ title ≠ []
     ∧ ∃ pg a b, find_page pages page = Some pg
                 ∧ Page.text pg = a ++ title ++ b).

(** A cause of action whose title has been set to the empty string, as
    verification leaves it when it finds no [search_text] key. *)
Definition blank_title (coa : Coa.t) : Coa.t :=
  set_title coa [] (Coa.title_verified coa) (Coa.title_proposed_value coa).

(** What the image review may have done to a page [p] of the first pass,
    [p'] being the page in its place afterwards: the number is kept; the
    category is kept or is one of [CATEGORIES]; the footnotes are kept
    or replaced by a list that is not empty, with the page marked as
    having footnotes; and a page whose number no answer names is
    unchanged. *)
Definition page_reviewed (answers : list ImageReview.Answer.t)
    (p p' : ImageReview.Page.t) : Prop :=
  ImageReview.Page.page_number p' = ImageReview.Page.page_number p
  ∧ (ImageReview.Page.category p' = ImageReview.Page.category p
     ∨ ImageReview.Page.category p' ∈ ImageReview.CATEGORIES)
  ∧ ((ImageReview.Page.footnotes p' = ImageReview.Page.footnotes p
      ∧ ImageReview.Page.has_footnote p' = ImageReview.Page.has_footnote p)
     ∨ ∃ fns, ImageReview.Page.footnotes p' = Some fns ∧ fns ≠ []
              ∧ ImageReview.Page.has_footnote p' = Some true)
  ∧ ((∀ a, a ∈ answers →
           ImageReview.Answer.page_number a
           ≠ ImageReview.Page.page_number p) →
     p' = p).

(** The filing dates that the answers propose, in their order: the
    values of [caption_updates.filing_date] that are not empty. *)
Definition proposed_filing_dates (answers : list ImageReview.Answer.t)
  : list str :=
  omap (λ a, truthy (ImageReview.PerField.filing_date
                       (default ImageReview.no_updates
                          (ImageReview.Answer.caption_updates a))))
       answers.

(** The classification that the table uses for page number [n]: the last
    page of the classification output with that number. *)
Definition classification_of (n : Z)
    (result_pages : list ClassificationCsv.ClassifiedPage.t)
  : option ClassificationCsv.ClassifiedPage.t :=
  last (filter (λ p, ClassificationCsv.ClassifiedPage.page_number p = n)
               result_pages).


(** * Properties *)

(** ** [sorted] and [min] on sets of integers *)

Lemma StronglySorted_le_lt (l : list Z) :
  StronglySorted Z.le l → NoDup l → StronglySorted Z.lt l.
Proof.
  induction 1 as [|x l Hs IH Hx]; intros Hnd; [constructor|].
  apply NoDup_cons in Hnd as [Hnotin Hnd].
  constructor; [by apply IH|].
  rewrite Forall_forall in Hx |- *. intros y Hy.
  specialize (Hx y Hy). assert (x ≠ y) by (by intros ->). lia.
Qed.

Lemma sorted_elem_of (s : gset Z) k : k ∈ sorted s ↔ k ∈ s.
Proof.
  unfold sorted. by rewrite merge_sort_Permutation, elem_of_elements.
Qed.

Lemma sorted_ascending (s : gset Z) : StronglySorted Z.lt (sorted s).
Proof.
  apply StronglySorted_le_lt.
  - unfold sorted. apply StronglySorted_merge_sort; apply _.
  - unfold sorted. rewrite merge_sort_Permutation. apply NoDup_elements.
Qed.

Lemma sorted_nil_iff (s : gset Z) : sorted s = [] ↔ s = ∅.
Proof.
  split.
  - intros H. apply set_eq. intros k.
    rewrite <- sorted_elem_of, H. set_solver.
  - intros ->. apply elem_of_nil_inv. intros k.
    rewrite sorted_elem_of. set_solver.
Qed.

(** [min] of a set that is not empty: an element, and a lower bound. *)
Lemma set_min_spec (s : gset Z) :
  s ≠ ∅ → set_min s ∈ s ∧ ∀ q, q ∈ s → set_min s ≤ q.
Proof.
  intros Hne. unfold set_min.
  pose proof (sorted_ascending s) as Hs.
  pose proof (sorted_elem_of s) as Hin.
  destruct (sorted s) as [|x l] eqn:E.
  { by apply sorted_nil_iff in E. }
  split.
  - apply Hin. constructor.
  - intros q Hq. apply Hin in Hq. apply elem_of_cons in Hq as [->|Hq]; [lia|].
    apply StronglySorted_inv in Hs as [_ Hx].
    rewrite Forall_forall in Hx. specialize (Hx q Hq). lia.
Qed.

(** ** Dicts filled in a loop: the last write wins *)

Lemma foldl_ext_eq {A B} (f g : A → B → A) (a : A) (l : list B) :
  (∀ a b, f a b = g a b) → foldl f a l = foldl g a l.
Proof.
  intros H. revert a. induction l as [|b l IH]; intros a; [done|].
  simpl. by rewrite H, IH.
Qed.

Lemma foldl_insert_lookup {A} (l : list (Z * A)) (m0 : gmap Z A) n :
  foldl (λ m e, <[e.1 := e.2]> m) m0 l !! n
  = match last (filter (λ e, e.1 = n) l) with
    | Some e => Some e.2
    | None => m0 !! n
    end.
Proof.
  revert m0. induction l as [|e l IH]; intros m0; [done|].
  cbn [foldl]. rewrite IH, filter_cons.
  destruct (decide (e.1 = n)) as [He|He].
  - rewrite last_cons.
    destruct (last (filter _ l)); [done|].
    by rewrite <- He, lookup_insert_eq.
  - destruct (last (filter _ l)); [done|].
    by rewrite lookup_insert_ne.
Qed.

Lemma foldl_insert_omap {A B} (g : B → option (Z * A)) (l : list B)
    (m0 : gmap Z A) :
  foldl (λ m b, match g b with
                | Some (k, v) => <[k := v]> m
                | None => m
                end) m0 l
  = foldl (λ m e, <[e.1 := e.2]> m) m0 (omap g l).
Proof.
  revert m0. induction l as [|b l IH]; intros m0; [done|].
  simpl. rewrite IH. by destruct (g b) as [[k v]|].
Qed.




(** ** Whitespace classes *)

Lemma is_ws4_isspace c : is_ws4 c = true → isspace c = true.
Proof.
  unfold is_ws4. rewrite !orb_true_iff, !bool_decide_eq_true.
  intros [[[->| ->]| ->]| ->]; reflexivity.
Qed.

Lemma isspace_SP : isspace SP = true.
Proof. reflexivity. Qed.

Lemma is_ws4_SP : is_ws4 SP = true.
Proof. reflexivity. Qed.

Lemma not_isspace_not_ws4 c : isspace c = false → is_ws4 c = false.
Proof.
  intros H. destruct (is_ws4 c) eqn:E; [|done].
  apply is_ws4_isspace in E. congruence.
Qed.

Lemma plain_ws_agree s c : plain_ws s → c ∈ s → is_ws4 c = isspace c.
Proof.
  intros Hp Hc. unfold plain_ws in Hp. rewrite Forall_forall in Hp.
  destruct (isspace c) eqn:E.
  - by apply Hp.
  - by apply not_isspace_not_ws4.
Qed.

Lemma plain_ws_app s1 s2 : plain_ws (s1 ++ s2) ↔ plain_ws s1 ∧ plain_ws s2.
Proof. unfold plain_ws. apply Forall_app. Qed.

Lemma plain_ws_cons c s :
  plain_ws (c :: s) ↔ (isspace c = true → is_ws4 c = true) ∧ plain_ws s.
Proof. unfold plain_ws. apply Forall_cons. Qed.

Lemma plain_ws_suffix s1 s2 : s1 `suffix_of` s2 → plain_ws s2 → plain_ws s1.
Proof. intros [k ->] H. by apply plain_ws_app in H as [_ ?]. Qed.

(** ** [lstrip], [rstrip], [strip] *)

Lemma lstrip_suffix s : lstrip s `suffix_of` s.
Proof.
  induction s as [|c s IH]; simpl; [done|].
  destruct (isspace c); [by apply suffix_cons_r | done].
Qed.

Lemma lstrip_nonspace s : head_nonspace s = true → lstrip s = s.
Proof.
  destruct s as [|c s]; simpl; [done|]. by destruct (isspace c).
Qed.

Lemma lstrip_all s : Forall (λ c, isspace c = true) s → lstrip s = [].
Proof. induction 1 as [|c s Hc _ IH]; simpl; [done|]. by rewrite Hc. Qed.

Lemma lstrip_nil_all s : lstrip s = [] → Forall (λ c, isspace c = true) s.
Proof.
  induction s as [|c s IH]; simpl; [done|].
  destruct (isspace c) eqn:E; [|done]. intros H. constructor; auto.
Qed.

Lemma lstrip_app_all w s :
  Forall (λ c, isspace c = true) w → lstrip (w ++ s) = lstrip s.
Proof. induction 1 as [|c w Hc _ IH]; simpl; [done|]. by rewrite Hc. Qed.

Lemma lstrip_app_nonspace s1 s2 :
  lstrip s1 ≠ [] → lstrip (s1 ++ s2) = lstrip s1 ++ s2.
Proof.
  induction s1 as [|c s1 IH]; simpl; [done|].
  destruct (isspace c); [done|done].
Qed.

Lemma rstrip_app_nonspace u v :
  last_nonspace u = true → rstrip (u ++ v) = u ++ rstrip v.
Proof.
  unfold rstrip, last_nonspace. intros Hu.
  rewrite reverse_app.
  destruct (decide (lstrip (reverse v) = [])) as [Hv|Hv].
  - rewrite Hv. apply lstrip_nil_all in Hv.
    rewrite lstrip_app_all by done.
    rewrite lstrip_nonspace by done.
    by rewrite reverse_involutive, reverse_nil, app_nil_r.
  - rewrite lstrip_app_nonspace by done.
    by rewrite reverse_app, reverse_involutive.
Qed.

Lemma rstrip_nonspace u : last_nonspace u = true → rstrip u = u.
Proof.
  intros H. rewrite <- (app_nil_r u) at 1.
  rewrite rstrip_app_nonspace by done.
  unfold rstrip. simpl. by rewrite app_nil_r.
Qed.

Lemma rstrip_prefix s : rstrip s `prefix_of` s.
Proof.
  unfold rstrip. destruct (lstrip_suffix (reverse s)) as [k Hk].
  exists (reverse k).
  rewrite <- (reverse_involutive s) at 1. rewrite Hk at 1.
  by rewrite reverse_app.
Qed.

Lemma rstrip_all s : Forall (λ c, isspace c = true) s → rstrip s = [].
Proof.
  intros H. unfold rstrip. rewrite lstrip_all; [done|].
  by apply Forall_reverse.
Qed.

Lemma rstrip_nil_all s : rstrip s = [] → Forall (λ c, isspace c = true) s.
Proof.
  unfold rstrip. intros H.
  assert (lstrip (reverse s) = []) as H'.
  { apply (f_equal reverse) in H. by rewrite reverse_involutive in H. }
  apply lstrip_nil_all in H'. rewrite <- (reverse_involutive s).
  by apply Forall_reverse.
Qed.

Lemma strip_nil_all s : strip s = [] → Forall (λ c, isspace c = true) s.
Proof.
  unfold strip. intros H%rstrip_nil_all.
  destruct (lstrip_suffix s) as [k Hk].
  assert (Forall (λ c, isspace c = true) k) as Hkall.
  { clear H. revert k Hk. induction s as [|c s IH]; intros k Hk.
    - destruct k; [done|]. simpl in Hk. discriminate.
    - simpl in Hk. destruct (isspace c) eqn:E.
      + destruct k as [|c' k].
        * simpl in Hk. pose proof (lstrip_suffix s) as Hs.
          apply suffix_length in Hs. rewrite <- Hk in Hs. simpl in Hs. lia.
        * simpl in Hk. injection Hk as -> Hk. constructor; eauto.
      + destruct k as [|c' k]; [done|].
        simpl in Hk. apply (f_equal length) in Hk.
        simpl in Hk. rewrite length_app in Hk. simpl in Hk. lia. }
  rewrite Hk. by apply Forall_app.
Qed.

Lemma strip_nonspace s :
  head_nonspace s = true → last_nonspace s = true → strip s = s.
Proof.
  intros H1 H2. unfold strip. rewrite lstrip_nonspace by done.
  by apply rstrip_nonspace.
Qed.

(** ** [collapse]: the normal form and its lockstep image *)

Lemma collapse_nonws ws c r :
  ws c = false → collapse ws (c :: r) = c :: collapse ws r.
Proof. intros H. simpl. by rewrite H. Qed.

Lemma collapse_ext ws1 ws2 s :
  Forall (λ c, ws1 c = ws2 c) s → collapse ws1 s = collapse ws2 s.
Proof.
  induction 1 as [|c s Hc Hs IH]; [done|].
  simpl. rewrite Hc, IH. destruct Hs as [|c' s' Hc' _]; [done|].
  by rewrite Hc'.
Qed.

Lemma collapse_plain s :
  plain_ws s → collapse isspace s = collapse is_ws4 s.
Proof.
  intros Hp. apply collapse_ext. apply Forall_forall. intros c Hc.
  symmetry. by eapply plain_ws_agree.
Qed.

Lemma lstrip_plain s : plain_ws s → lstrip s = skip_ws s.
Proof.
  induction s as [|c s IH]; [done|].
  intros [Hc Hs]%plain_ws_cons. simpl.
  destruct (isspace c) eqn:E.
  - rewrite Hc by done. auto.
  - by rewrite not_isspace_not_ws4.
Qed.

Lemma lstrip_collapse s :
  lstrip (collapse isspace s) = collapse isspace (lstrip s).
Proof.
  induction s as [|c r IH]; [done|].
  simpl. destruct (isspace c) eqn:E.
  - destruct r as [|c' r']; [done|].
    destruct (isspace c') eqn:E'; [done|].
    cbn [lstrip]. by rewrite isspace_SP.
  - cbn [lstrip]. rewrite E. simpl. by rewrite E.
Qed.

Lemma collapse_length_cons ws c s :
  (length (collapse ws s) ≤ length (collapse ws (c :: s)))%nat.
Proof.
  simpl. destruct (ws c).
  - destruct s as [|c' s']; [simpl; lia|].
    destruct (ws c'); simpl; lia.
  - simpl. lia.
Qed.

Lemma collapse_length_suffix ws s1 s2 :
  s1 `suffix_of` s2 →
  (length (collapse ws s1) ≤ length (collapse ws s2))%nat.
Proof.
  intros [k ->]. induction k as [|c k IH]; [done|].
  etrans; [exact IH|]. apply collapse_length_cons.
Qed.

Lemma collapse_length_le s :
  (length (collapse isspace s) ≤ length (collapse is_ws4 s))%nat.
Proof.
  induction s as [|c r IH]; [done|].
  cbn [collapse]. destruct (is_ws4 c) eqn:E4.
  - rewrite (is_ws4_isspace _ E4).
    destruct r as [|c' r']; [done|].
    destruct (is_ws4 c') eqn:E4'.
    + by rewrite (is_ws4_isspace _ E4').
    + destruct (isspace c'); cbn [length]; lia.
  - destruct (isspace c).
    + destruct r as [|c' r']; [cbn; lia|].
      destruct (isspace c'); cbn [length]; lia.
    + cbn [length]. lia.
Qed.

Lemma skip_ws_suffix s : skip_ws s `suffix_of` s.
Proof.
  induction s as [|c s IH]; simpl; [done|].
  destruct (is_ws4 c); [by apply suffix_cons_r | done].
Qed.

Lemma skip_ws_starts s : starts_ws4 (skip_ws s) = false.
Proof.
  induction s as [|c s IH]; simpl; [done|].
  destruct (is_ws4 c) eqn:E; [done|]. simpl. done.
Qed.

Lemma skip_ws_id s : starts_ws4 s = false → skip_ws s = s.
Proof. destruct s as [|c s]; simpl; [done|]. by intros ->. Qed.

Lemma lstrip_suffix_skip_ws s : lstrip s `suffix_of` skip_ws s.
Proof.
  induction s as [|c s IH]; simpl; [done|].
  destruct (is_ws4 c) eqn:E.
  - by rewrite (is_ws4_isspace _ E).
  - destruct (isspace c); [|done].
    apply suffix_cons_r, lstrip_suffix.
Qed.

Lemma collapse_ws_ws ws c c' r :
  ws c = true → ws c' = true →
  collapse ws (c :: c' :: r) = collapse ws (c' :: r).
Proof. intros H1 H2. cbn [collapse]. by rewrite H1, H2. Qed.

Lemma collapse_ws_nonws ws c c' r :
  ws c = true → ws c' = false →
  collapse ws (c :: c' :: r) = SP :: collapse ws (c' :: r).
Proof. intros H1 H2. cbn [collapse]. by rewrite H1, H2. Qed.

Lemma collapse_ws_single ws c : ws c = true → collapse ws [c] = [SP].
Proof. intros H1. cbn [collapse]. by rewrite H1. Qed.

(** A run of the four characters collapses to one space. *)
Lemma collapse_ws4_run c r :
  is_ws4 c = true →
  collapse is_ws4 (c :: r) = SP :: collapse is_ws4 (skip_ws r).
Proof.
  revert c. induction r as [|c' r IH]; intros c Hc.
  - by rewrite collapse_ws_single.
  - cbn [skip_ws]. destruct (is_ws4 c') eqn:E'.
    + rewrite collapse_ws_ws by done. by apply IH.
    + by rewrite collapse_ws_nonws.
Qed.

(** The length of the normal form is at most the number of steps that the
    mapping loops can take from the first non-blank character. *)
Lemma normalize_length_le s :
  (length (normalize s) ≤ length (collapse is_ws4 (skip_ws s)))%nat.
Proof.
  unfold normalize, strip.
  etrans; [apply prefix_length, rstrip_prefix|].
  rewrite lstrip_collapse.
  etrans; [apply collapse_length_le|].
  apply collapse_length_suffix, lstrip_suffix_skip_ws.
Qed.

Lemma normalize_plain s :
  plain_ws s → normalize s = rstrip (collapse is_ws4 (skip_ws s)).
Proof.
  intros Hp. unfold normalize, strip. rewrite lstrip_collapse.
  rewrite collapse_plain by (eapply plain_ws_suffix; [apply lstrip_suffix|done]).
  by rewrite lstrip_plain.
Qed.

Lemma collapse_all_space s :
  Forall (λ c, isspace c = true) s →
  Forall (λ c, isspace c = true) (collapse isspace s).
Proof.
  induction 1 as [|c s Hc Hs IH]; [done|].
  simpl. rewrite Hc. destruct s as [|c' s']; [by repeat constructor|].
  destruct (isspace c'); [done|]. by constructor.
Qed.

Lemma normalize_all_space s :
  Forall (λ c, isspace c = true) s → normalize s = [].
Proof.
  intros H. unfold normalize, strip.
  rewrite lstrip_all by by apply collapse_all_space. done.
Qed.

(** ** The mapping loops *)

Lemma skip_ws_decomp s :
  ∃ w, s = w ++ skip_ws s ∧ Forall (λ c, is_ws4 c = true) w.
Proof.
  induction s as [|c s (w & Hw & Hall)]; [by exists []|].
  simpl. destruct (is_ws4 c) eqn:E.
  - exists (c :: w). split; [simpl; congruence | by constructor].
  - by exists [].
Qed.

Lemma skip_ws_app_run w x :
  Forall (λ c, is_ws4 c = true) w → skip_ws (w ++ x) = skip_ws x.
Proof. induction 1 as [|c w Hc _ IH]; simpl; [done|]. by rewrite Hc. Qed.

Lemma collapse_run_app c w x :
  is_ws4 c = true → Forall (λ c, is_ws4 c = true) w →
  starts_ws4 x = false →
  collapse is_ws4 (c :: w ++ x) = SP :: collapse is_ws4 x.
Proof.
  intros Hc Hw Hx. rewrite collapse_ws4_run by done.
  by rewrite skip_ws_app_run, skip_ws_id.
Qed.

Lemma starts_ws4_prefix r s :
  r `prefix_of` s → starts_ws4 s = false → starts_ws4 r = false.
Proof. intros [k ->]. by destruct r. Qed.

(** [k] steps from [s] succeed whenever the lockstep image of [s] has at
    least [k] characters; the part [r] passed has the first [k] of them as
    its image. *)
Lemma advance_spec k s :
  (k ≤ length (collapse is_ws4 s))%nat →
  ∃ s' r, advance k s = Some s' ∧ s = r ++ s'
          ∧ collapse is_ws4 r = take k (collapse is_ws4 s)
          ∧ collapse is_ws4 s' = drop k (collapse is_ws4 s).
Proof.
  revert s. induction k as [|k IH]; intros s Hk.
  { by exists s, []. }
  destruct s as [|c r]; [simpl in Hk; lia|].
  destruct (is_ws4 c) eqn:Hc.
  - rewrite collapse_ws4_run in Hk |- * by done. cbn [length] in Hk.
    destruct (IH (skip_ws r)) as (s' & r' & Hadv & Hsplit & Htake & Hdrop);
      [lia|].
    destruct (skip_ws_decomp r) as (w & Hw & Hall).
    exists s', (c :: w ++ r'). repeat split.
    + cbn [advance skip_ws]. by rewrite Hc.
    + rewrite Hw at 1. rewrite Hsplit at 1. simpl. by rewrite <- app_assoc.
    + rewrite collapse_run_app; [by rewrite Htake|done|done|].
      eapply starts_ws4_prefix; [|apply (skip_ws_starts r)].
      rewrite Hsplit. by apply prefix_app_r.
    + done.
  - rewrite collapse_nonws in Hk |- * by done. cbn [length] in Hk.
    destruct (IH r) as (s' & r' & Hadv & Hsplit & Htake & Hdrop); [lia|].
    exists s', (c :: r'). repeat split.
    + cbn [advance]. by rewrite Hc.
    + by rewrite Hsplit at 1.
    + rewrite collapse_nonws by done. by rewrite Htake.
    + done.
Qed.

Lemma advance_consume k s s' : advance k s = Some s' → consume k s = s'.
Proof.
  revert s. induction k as [|k IH]; intros s; simpl; [congruence|].
  destruct s as [|c r]; [done|]. destruct (is_ws4 c); apply IH.
Qed.

Lemma advance_add a b s :
  advance (a + b) s = advance a s ≫= advance b.
Proof.
  revert s. induction a as [|a IH]; intros s; [done|].
  cbn [Nat.add advance]. destruct s as [|c r]; [done|].
  destruct (is_ws4 c); apply IH.
Qed.

Lemma advance_suffix k s s' : advance k s = Some s' → s' `suffix_of` s.
Proof.
  revert s. induction k as [|k IH]; intros s; simpl.
  { by intros [= ->]. }
  destruct s as [|c r]; [done|]. destruct (is_ws4 c) eqn:E; intros H%IH.
  - etrans; [exact H|]. apply (skip_ws_suffix (c :: r)).
  - by apply suffix_cons_r.
Qed.

Lemma consume_suffix k s : consume k s `suffix_of` s.
Proof.
  revert s. induction k as [|k IH]; intros s; simpl; [done|].
  destruct s as [|c r]; [done|]. destruct (is_ws4 c) eqn:E.
  - etrans; [apply IH|]. apply (skip_ws_suffix (c :: r)).
  - apply suffix_cons_r, IH.
Qed.

Lemma consume_lt k s :
  s ≠ [] → (length (consume (S k) s) < length s)%nat.
Proof.
  destruct s as [|c r]; [done|]. intros _. cbn [consume].
  destruct (is_ws4 c) eqn:E.
  - pose proof (suffix_length _ _ (consume_suffix k (skip_ws (c :: r)))) as H1.
    pose proof (suffix_length _ _ (skip_ws_suffix r)) as H2.
    assert (skip_ws (c :: r) = skip_ws r) as Heq by (simpl; by rewrite E).
    rewrite Heq in *. cbn [length]. lia.
  - pose proof (suffix_length _ _ (consume_suffix k r)). cbn [length]. lia.
Qed.

Lemma ends_ws4_cons c s : s ≠ [] → ends_ws4 (c :: s) = ends_ws4 s.
Proof.
  unfold ends_ws4. intros Hs. rewrite reverse_cons.
  destruct (reverse s) eqn:E; [|done].
  apply (f_equal reverse) in E. rewrite reverse_involutive in E. done.
Qed.

Lemma ends_ws4_single c : ends_ws4 [c] = is_ws4 c.
Proof. done. Qed.

(** No run of the four characters crosses the boundary between [x] and
    [y]: the images concatenate, and the steps of [x] lead to [y]. *)
Lemma collapse_app_boundary x y :
  ends_ws4 x = false ∨ starts_ws4 y = false →
  collapse is_ws4 (x ++ y) = collapse is_ws4 x ++ collapse is_ws4 y.
Proof.
  induction x as [|c x IH]; intros Hb; [done|].
  destruct x as [|c' x'].
  - change ([c] ++ y) with (c :: y). destruct (is_ws4 c) eqn:Hc.
    + rewrite ends_ws4_single, Hc in Hb. destruct Hb as [?|Hy]; [done|].
      rewrite collapse_ws_single by done.
      destruct y as [|d y]; [by rewrite collapse_ws_single|].
      simpl in Hy. by rewrite collapse_ws_nonws.
    + by rewrite !collapse_nonws.
  - rewrite ends_ws4_cons in Hb by done. specialize (IH Hb).
    change ((c :: c' :: x') ++ y) with (c :: c' :: (x' ++ y)).
    change ((c' :: x') ++ y) with (c' :: (x' ++ y)) in IH.
    destruct (is_ws4 c) eqn:Hc.
    + destruct (is_ws4 c') eqn:Hc'.
      * by rewrite !(collapse_ws_ws _ c c').
      * rewrite !(collapse_ws_nonws _ c c') by done. by rewrite IH.
    + rewrite !(collapse_nonws _ c) by done. by rewrite IH.
Qed.

Lemma advance_app_boundary x y :
  ends_ws4 x = false ∨ starts_ws4 y = false →
  advance (length (collapse is_ws4 x)) (x ++ y) = Some y.
Proof.
  induction x as [|c x IH]; intros Hb; [done|].
  destruct x as [|c' x'].
  - change ([c] ++ y) with (c :: y). destruct (is_ws4 c) eqn:Hc.
    + rewrite ends_ws4_single, Hc in Hb. destruct Hb as [?|Hy]; [done|].
      rewrite collapse_ws_single by done. cbn [length advance skip_ws].
      by rewrite Hc, skip_ws_id.
    + rewrite collapse_nonws by done. cbn [length advance collapse].
      by rewrite Hc.
  - rewrite ends_ws4_cons in Hb by done. specialize (IH Hb).
    change ((c :: c' :: x') ++ y) with (c :: c' :: (x' ++ y)).
    change ((c' :: x') ++ y) with (c' :: (x' ++ y)) in IH.
    destruct (is_ws4 c) eqn:Hc.
    + destruct (is_ws4 c') eqn:Hc'.
      * rewrite collapse_ws_ws by done.
        destruct (collapse is_ws4 (c' :: x')) as [|e es] eqn:Ecol.
        { rewrite collapse_ws4_run in Ecol; done. }
        cbn [length advance skip_ws] in IH |- *.
        by rewrite Hc, Hc' in *.
      * rewrite collapse_ws_nonws by done.
        cbn [length advance skip_ws]. by rewrite Hc, Hc'.
    + rewrite collapse_nonws by done. cbn [length advance].
      by rewrite Hc.
Qed.

(** ** [find] *)

Lemma startswith_prefix s p : startswith s p = true ↔ p `prefix_of` s.
Proof.
  revert s. induction p as [|a p IH]; intros s.
  - destruct s; simpl; (split; [intros _; apply prefix_nil | done]).
  - destruct s as [|b s]; simpl.
    + split; [done|]. intros H%prefix_nil_inv. done.
    + rewrite andb_true_iff, bool_decide_eq_true, IH. split.
      * intros [-> H]. by apply prefix_cons.
      * intros H. split; [by apply prefix_cons_inv_1 in H
                         | by apply prefix_cons_inv_2 in H].
Qed.

Lemma find_from_Some i hay needle j :
  find_from i hay needle = Some j →
  ∃ k, j = (i + k)%nat ∧ (k ≤ length hay)%nat
       ∧ needle `prefix_of` drop k hay.
Proof.
  revert i. induction hay as [|b hay IH]; intros i; cbn [find_from].
  - destruct (startswith [] needle) eqn:E; [|done].
    intros [= <-]. exists 0%nat. apply startswith_prefix in E.
    split; [lia|]. split; [simpl; lia|]. exact E.
  - destruct (startswith (b :: hay) needle) eqn:E.
    + intros [= <-]. exists 0%nat. apply startswith_prefix in E.
      split; [lia|]. split; [simpl; lia|]. exact E.
    + intros (k & -> & Hk & Hp)%IH. exists (S k).
      split; [lia|]. split; [simpl; lia|]. exact Hp.
Qed.

Lemma find_from_first i hay needle k :
  (k ≤ length hay)%nat → needle `prefix_of` drop k hay →
  ∃ j, find_from i hay needle = Some j ∧ (j ≤ i + k)%nat.
Proof.
  revert i k. induction hay as [|b hay IH]; intros i k Hk Hp.
  - simpl in Hk. assert (k = 0%nat) as -> by lia. simpl in Hp.
    apply startswith_prefix in Hp. cbn [find_from]. rewrite Hp.
    exists i. split; [done|lia].
  - cbn [find_from]. destruct (startswith (b :: hay) needle) eqn:E.
    + exists i. split; [done|lia].
    + destruct k as [|k].
      { simpl in Hp. apply startswith_prefix in Hp. congruence. }
      simpl in Hp, Hk.
      destruct (IH (S i) k) as (j & Hj & Hle); [lia|done|].
      exists j. split; [done|lia].
Qed.

(** ** [search_source_text] *)

Lemma nonempty_true s : nonempty s = true ↔ s ≠ [].
Proof. by destruct s. Qed.

Lemma nonempty_false s : nonempty s = false ↔ s = [].
Proof. by destruct s. Qed.

Lemma slice_middle (a r b : str) :
  slice (a ++ r ++ b)
        (length (a ++ r ++ b) - length (r ++ b))
        (length (a ++ r ++ b) - length b) = r.
Proof.
  unfold slice. rewrite !length_app.
  replace (length a + (length r + length b) - (length r + length b))%nat
    with (length a) by lia.
  replace (length a + (length r + length b) - length b - length a)%nat
    with (length r) by lia.
  rewrite drop_app_length. by rewrite take_app_length.
Qed.

Lemma normalize_nonempty_strip s : normalize s ≠ [] → strip s ≠ [].
Proof.
  intros Hn Hs. apply Hn, normalize_all_space. by apply strip_nil_all.
Qed.

Lemma normalize_nonempty_arg s : normalize s ≠ [] → s ≠ [].
Proof. intros Hn ->. by apply Hn. Qed.

(** The shape of a successful search: the page text splits around the
    returned text [r], which the two loops delimit. *)
Lemma search_found cand p pages pg idx :
  find_page pages p = Some pg →
  normalize cand ≠ [] →
  find (normalize (Page.text pg)) (normalize cand) = Some idx →
  ∃ a r b,
    Page.text pg = a ++ r ++ b
    ∧ advance idx (skip_ws (Page.text pg)) = Some (r ++ b)
    ∧ consume (length (normalize cand)) (r ++ b) = b
    ∧ r ≠ []
    ∧ search_source_text cand p pages = Ok (Some r).
Proof.
  intros Hpg Hn Hfind.
  pose proof (normalize_nonempty_strip _ Hn) as Hstrip.
  pose proof (normalize_nonempty_arg _ Hn) as Hcand.
  apply nonempty_true in Hstrip, Hcand. pose proof Hn as Hn'.
  apply nonempty_true in Hn'.
  unfold search_source_text. rewrite Hstrip, Hcand, Hpg, Hn'. cbn [negb orb].
  rewrite Hfind.
  destruct (find_from_Some _ _ _ _ Hfind) as (k & Hk & Hklen & Hpre).
  simpl in Hk. subst k.
  set (T := Page.text pg) in *. set (needle := normalize cand) in *.
  assert (idx < length (normalize T))%nat as Hidx.
  { apply prefix_length in Hpre. rewrite length_drop in Hpre.
    destruct needle; [done|]. simpl in Hpre. lia. }
  pose proof (normalize_length_le T) as Hle.
  destruct (advance_spec idx (skip_ws T)) as (s1 & r0 & Hadv & Hsplit & _ & Hdrop);
    [lia|].
  rewrite Hadv.
  destruct (skip_ws_suffix T) as [a0 Ha0].
  destruct (consume_suffix (length needle) s1) as [r Hr].
  assert (s1 ≠ []) as Hs1.
  { intros ->. simpl in Hdrop. symmetry in Hdrop.
    apply (f_equal length) in Hdrop. rewrite length_drop in Hdrop.
    simpl in Hdrop. lia. }
  exists (a0 ++ r0), r, (consume (length needle) s1).
  assert (T = (a0 ++ r0) ++ r ++ consume (length needle) s1) as HT.
  { rewrite <- Hr, <- app_assoc, <- Hsplit. exact Ha0. }
  repeat split.
  - exact HT.
  - by rewrite <- Hr.
  - by rewrite <- Hr.
  - intros ->. simpl in Hr.
    destruct needle as [|n0 needle']; [done|].
    pose proof (consume_lt (length needle') s1 Hs1) as Hlt.
    cbn [length] in Hr. rewrite <- Hr in Hlt. lia.
  - do 2 f_equal. rewrite Hr at 1. rewrite HT. apply slice_middle.
Qed.

Lemma search_find_none cand p pages pg :
  find_page pages p = Some pg →
  find (normalize (Page.text pg)) (normalize cand) = None →
  search_source_text cand p pages = Ok None.
Proof.
  intros Hpg Hfind. unfold search_source_text.
  destruct (negb (nonempty cand) || negb (nonempty (strip cand))); [done|].
  rewrite Hpg. destruct (negb (nonempty (normalize cand))); [done|].
  by rewrite Hfind.
Qed.

Lemma search_no_page cand p pages :
  find_page pages p = None → search_source_text cand p pages = Ok None.
Proof.
  intros Hpg. unfold search_source_text.
  destruct (negb (nonempty cand) || negb (nonempty (strip cand))); [done|].
  by rewrite Hpg.
Qed.

Lemma search_blank cand p pages :
  normalize cand = [] → search_source_text cand p pages = Ok None.
Proof.
  intros Hn. unfold search_source_text.
  destruct (negb (nonempty cand) || negb (nonempty (strip cand))); [done|].
  destruct (find_page pages p); [|done]. by rewrite Hn.
Qed.

(** The search is total: it returns, and never with an exception. *)
Lemma search_total cand p pages :
  ∃ r, search_source_text cand p pages = Ok r.
Proof.
  destruct (decide (normalize cand = [])) as [Hn|Hn].
  { exists None. by apply search_blank. }
  destruct (find_page pages p) as [pg|] eqn:Hpg.
  2:{ exists None. by apply search_no_page. }
  destruct (find (normalize (Page.text pg)) (normalize cand)) as [idx|] eqn:Hf.
  2:{ exists None. by eapply search_find_none. }
  destruct (search_found _ _ _ _ _ Hpg Hn Hf) as (a & r & b & _ & _ & _ & _ & H).
  by exists (Some r).
Qed.

(** What the search returns is never the empty string. *)
Lemma search_result_nonempty cand p pages v :
  search_source_text cand p pages = Ok (Some v) → v ≠ [].
Proof.
  intros H.
  destruct (decide (normalize cand = [])) as [Hn|Hn].
  { rewrite search_blank in H by done. done. }
  destruct (find_page pages p) as [pg|] eqn:Hpg.
  2:{ rewrite search_no_page in H by done. done. }
  destruct (find (normalize (Page.text pg)) (normalize cand)) as [idx|] eqn:Hf.
  2:{ erewrite search_find_none in H by done. done. }
  destruct (search_found _ _ _ _ _ Hpg Hn Hf) as (a & r & b & _ & _ & _ & Hr & H').
  rewrite H' in H. by injection H as <-.
Qed.

Lemma head_nonspace_inv s :
  head_nonspace s = true → ∃ c r, s = c :: r ∧ isspace c = false.
Proof.
  destruct s as [|c r]; [done|]. simpl. intros H%negb_true_iff. eauto.
Qed.

Lemma last_nonspace_inv s :
  last_nonspace s = true → ∃ r c, s = r ++ [c] ∧ isspace c = false.
Proof.
  unfold last_nonspace. intros (c & r & Hr & Hc)%head_nonspace_inv.
  exists (reverse r), c. split; [|done].
  rewrite <- (reverse_involutive s), Hr. by rewrite reverse_cons.
Qed.

Lemma last_nonspace_snoc r c : last_nonspace (r ++ [c]) = negb (isspace c).
Proof. unfold last_nonspace. by rewrite reverse_app. Qed.

Lemma last_nonspace_app u v :
  last_nonspace v = true → last_nonspace (u ++ v) = true.
Proof.
  intros (r & c & -> & Hc)%last_nonspace_inv.
  by rewrite app_assoc, last_nonspace_snoc, Hc.
Qed.

Lemma head_nonspace_starts s : head_nonspace s = true → starts_ws4 s = false.
Proof.
  intros (c & r & -> & Hc)%head_nonspace_inv. simpl.
  by apply not_isspace_not_ws4.
Qed.

Lemma last_nonspace_ends s : last_nonspace s = true → ends_ws4 s = false.
Proof. unfold last_nonspace, ends_ws4. apply head_nonspace_starts. Qed.

Lemma skip_ws_app a y :
  starts_ws4 y = false → skip_ws (a ++ y) = skip_ws a ++ y.
Proof.
  intros Hy. induction a as [|c a IH]; simpl.
  - by apply skip_ws_id.
  - by destruct (is_ws4 c).
Qed.

(** The image of a text that starts and ends with a character that is
    not whitespace starts and ends with these characters. *)
Lemma collapse_head_nonspace s :
  head_nonspace s = true → head_nonspace (collapse is_ws4 s) = true.
Proof.
  intros (c & r & -> & Hc)%head_nonspace_inv.
  rewrite collapse_nonws by by apply not_isspace_not_ws4.
  simpl. by rewrite Hc.
Qed.

Lemma collapse_last_nonspace s :
  last_nonspace s = true → last_nonspace (collapse is_ws4 s) = true.
Proof.
  intros (r & c & -> & Hc)%last_nonspace_inv.
  rewrite collapse_app_boundary by (by right; simpl; apply not_isspace_not_ws4).
  rewrite collapse_nonws by by apply not_isspace_not_ws4.
  simpl. by rewrite last_nonspace_snoc, Hc.
Qed.

(** On a text with plain whitespace that starts with a character that is
    not whitespace, the normal form is the image up to a final space. *)
Lemma normalize_plain_head s :
  plain_ws s → head_nonspace s = true →
  normalize s = rstrip (collapse is_ws4 s).
Proof.
  intros Hp Hh. rewrite normalize_plain by done.
  by rewrite skip_ws_id by by apply head_nonspace_starts.
Qed.

Lemma normalize_tight s :
  plain_ws s → head_nonspace s = true → last_nonspace s = true →
  normalize s = collapse is_ws4 s.
Proof.
  intros Hp Hh Hl. rewrite normalize_plain_head by done.
  by apply rstrip_nonspace, collapse_last_nonspace.
Qed.

(** The text returned by a successful search on a page with plain
    whitespace has the candidate's normal form as its image. *)
Lemma search_found_image T needle idx r b :
  plain_ws T → needle ≠ [] →
  find (normalize T) needle = Some idx →
  advance idx (skip_ws T) = Some (r ++ b) →
  consume (length needle) (r ++ b) = b →
  collapse is_ws4 r = needle.
Proof.
  intros Hp Hne Hfind Hadv Hcons.
  destruct (find_from_Some _ _ _ _ Hfind) as (k & Hk & Hklen & Hpre).
  simpl in Hk. subst k.
  pose proof (normalize_length_le T) as Hle.
  destruct (advance_spec idx (skip_ws T)) as (s1 & r0 & Hadv' & _ & _ & Hdrop);
    [lia|].
  rewrite Hadv in Hadv'. injection Hadv' as <-.
  assert (needle `prefix_of` collapse is_ws4 (r ++ b)) as Hpre'.
  { rewrite Hdrop. rewrite normalize_plain in Hpre, Hklen by done.
    destruct (rstrip_prefix (collapse is_ws4 (skip_ws T))) as [t Ht].
    rewrite Ht. rewrite drop_app_le by done. by apply prefix_app_r. }
  destruct (advance_spec (length needle) (r ++ b))
    as (s2 & r2 & Hadv2 & Hsplit2 & Htake2 & _).
  { by apply prefix_length. }
  apply advance_consume in Hadv2. rewrite Hcons in Hadv2. subst s2.
  apply app_inv_tail in Hsplit2. subst r2. rewrite Htake2.
  destruct Hpre' as [t ->]. by rewrite take_app_length.
Qed.

(** *** The page searched, and what occurring means *)

Lemma find_page_first pages p pg :
  find_page pages p = Some pg ↔ first_page pages p pg.
Proof.
  split.
  - induction pages as [|q pages IH]; [done|]. cbn [find_page].
    case_bool_decide as Hq.
    + intros [= ->]. exists [], pages. split; [done|]. split; [done|].
      intros q' Hq'. by apply elem_of_nil in Hq'.
    + intros (before & after & -> & Hp & Hbefore)%IH.
      exists (q :: before), after. split; [done|]. split; [done|].
      intros q' [->|Hq']%elem_of_cons; [done|by apply Hbefore].
  - intros (before & after & -> & Hp & Hbefore).
    induction before as [|q before IH]; cbn [app find_page].
    + by rewrite bool_decide_eq_true_2.
    + rewrite bool_decide_eq_false_2 by (apply Hbefore; by left).
      apply IH. intros q' Hq'. apply Hbefore. by right.
Qed.

Lemma find_page_none pages p :
  find_page pages p = None ↔ ∀ pg, pg ∈ pages → Page.number pg ≠ p.
Proof.
  induction pages as [|q pages IH]; cbn [find_page].
  - split; [|done]. intros _ pg Hpg. by apply elem_of_nil in Hpg.
  - case_bool_decide as Hq.
    + split; [done|]. intros H. exfalso. apply (H q); [by left|done].
    + rewrite IH. split.
      * intros H pg [->|Hpg]%elem_of_cons; [done|by apply H].
      * intros H pg Hpg. apply H. by right.
Qed.

Lemma first_page_unique pages p pg1 pg2 :
  first_page pages p pg1 → first_page pages p pg2 → pg1 = pg2.
Proof. rewrite <- !find_page_first. congruence. Qed.

Lemma find_occurs hay needle :
  is_Some (find hay needle) ↔ occurs_in needle hay.
Proof.
  split.
  - intros [j Hj]. apply find_from_Some in Hj as (k & _ & _ & [b Hb]).
    exists (take k hay), b. by rewrite <- Hb, take_drop.
  - intros (a & b & ->).
    destruct (find_from_first 0 (a ++ needle ++ b) needle (length a))
      as (j & Hj & _).
    + rewrite length_app. lia.
    + rewrite drop_app_length. by apply prefix_app_r.
    + by exists j.
Qed.

Lemma find_none_occurs hay needle :
  find hay needle = None ↔ ¬ occurs_in needle hay.
Proof.
  rewrite <- find_occurs, <- eq_None_not_Some. done.
Qed.

Lemma collapse_all_space_inv s :
  Forall (λ c, isspace c = true) (collapse isspace s) →
  Forall (λ c, isspace c = true) s.
Proof.
  induction s as [|c r IH]; [done|]. cbn [collapse].
  destruct (isspace c) eqn:Hc.
  - intros H. constructor; [done|]. apply IH.
    destruct r as [|c' r']; [done|].
    destruct (isspace c'); [done|]. by apply Forall_cons in H as [_ H].
  - intros [Hc' _]%Forall_cons. congruence.
Qed.

(** The normal form is empty exactly for the texts that hold nothing but
    whitespace. *)
Lemma normalize_nil_iff s :
  normalize s = [] ↔ Forall (λ c, isspace c = true) s.
Proof.
  split; [|apply normalize_all_space].
  intros H. by apply collapse_all_space_inv, strip_nil_all.
Qed.

Lemma search_first_page cand p pages pg :
  first_page pages p pg →
  search_source_text cand p pages = search_source_text cand p [pg].
Proof.
  intros Hfirst. pose proof Hfirst as (_ & _ & _ & Hp & _).
  apply find_page_first in Hfirst.
  unfold search_source_text. rewrite Hfirst. cbn [find_page].
  by rewrite bool_decide_eq_true_2.
Qed.

(** C8. [search_source_text] answers not found ([None]) exactly when the
    candidate is empty or normalizes to the empty string (it holds
    nothing but whitespace), or no page of the store has the number asked
    for, or the normalized candidate does not occur, as a contiguous run
    of characters, in the normalized text of the first page of the store
    that has the number. In every other case it answers with a piece of
    the text of that page, which is not empty. It never raises an
    exception (the unchecked read [source[src_i]] stays inside the text),
    and it consults no page other than that one: the answer is the
    answer of the search in the store that holds this page alone. *)
Theorem search_not_found_iff cand p pages :
  (search_source_text cand p pages = Ok None ↔
     cand = [] ∨ normalize cand = []
     ∨ (∀ pg, pg ∈ pages → Page.number pg ≠ p)
     ∨ ∃ pg, first_page pages p pg
             ∧ ¬ occurs_in (normalize cand) (normalize (Page.text pg)))
  ∧ (normalize cand = [] ↔ Forall (λ c, isspace c = true) cand)
  ∧ (∀ pg, first_page pages p pg → normalize cand ≠ [] →
       occurs_in (normalize cand) (normalize (Page.text pg)) →
       ∃ v, search_source_text cand p pages = Ok (Some v)
            ∧ v ≠ [] ∧ occurs_in v (Page.text pg))
  ∧ (∃ r, search_source_text cand p pages = Ok r)
  ∧ (∀ pg, first_page pages p pg →
       search_source_text cand p pages = search_source_text cand p [pg]).
Proof.
  split; [|split; [|split; [|split]]].
  - split.
    + intros H.
      destruct (decide (normalize cand = [])) as [Hn|Hn]; [by auto|].
      destruct (find_page pages p) as [pg|] eqn:Hpg.
      2:{ pose proof (proj1 (find_page_none _ _) Hpg). by auto. }
      destruct (find (normalize (Page.text pg)) (normalize cand))
        as [idx|] eqn:Hf.
      2:{ apply find_none_occurs in Hf. apply find_page_first in Hpg.
          by eauto 10. }
      destruct (search_found _ _ _ _ _ Hpg Hn Hf)
        as (a & r & b & _ & _ & _ & _ & H').
      congruence.
    + intros [->|[Hn|[Hpg|(pg & Hpg & Hf)]]].
      * done.
      * by apply search_blank.
      * apply search_no_page. by apply (proj2 (find_page_none _ _)).
      * eapply search_find_none; [by apply find_page_first|].
        by apply find_none_occurs.
  - apply normalize_nil_iff.
  - intros pg Hpg%find_page_first Hn [idx Hf]%find_occurs.
    destruct (search_found _ _ _ _ _ Hpg Hn Hf)
      as (a & r & b & Htext & _ & _ & Hr & H').
    exists r. split; [done|]. split; [done|]. by exists a, b.
  - apply search_total.
  - intros pg. apply search_first_page.
Qed.

(** C1, as amended. On a page whose only whitespace characters are space,
    tab, newline and carriage return, searching for a contiguous piece [S]
    of the page text that starts and ends with a character that is not
    whitespace returns exactly [S], with its punctuation, casing and line
    breaks, provided [S] is the leftmost piece of the page with its normal
    form (among the pieces that start with a character that is not
    whitespace). *)
Theorem search_returns_substring pages p pg A S B :
  find_page pages p = Some pg →
  Page.text pg = A ++ S ++ B →
  plain_ws (Page.text pg) →
  head_nonspace S = true →
  last_nonspace S = true →
  (∀ A' R B',
     Page.text pg = A' ++ R ++ B' → head_nonspace R = true →
     normalize R = normalize S → (length A ≤ length A')%nat) →
  search_source_text S p pages = Ok (Some S).
Proof.
  intros Hpg HT Hplain Hhead Hlast Hleft.
  set (T := Page.text pg) in *.
  assert (plain_ws A ∧ plain_ws S ∧ plain_ws B) as (HpA & HpS & HpB).
  { rewrite HT in Hplain.
    apply plain_ws_app in Hplain as [? [? ?]%plain_ws_app]. done. }
  pose proof (normalize_tight S HpS Hhead Hlast) as HnS.
  pose proof (collapse_head_nonspace S Hhead) as HEhead.
  pose proof (collapse_last_nonspace S Hlast) as HElast.
  assert (normalize S ≠ []) as Hne.
  { rewrite HnS. intros E0. by rewrite E0 in HEhead. }
  assert (skip_ws T = skip_ws A ++ S ++ B) as HsT.
  { rewrite HT. apply skip_ws_app.
    destruct (head_nonspace_inv S Hhead) as (c & s' & -> & Hc).
    simpl. by apply not_isspace_not_ws4. }
  assert (starts_ws4 (S ++ B) = false) as HSB.
  { destruct (head_nonspace_inv S Hhead) as (c & s' & -> & Hc).
    simpl. by apply not_isspace_not_ws4. }
  assert (collapse is_ws4 (skip_ws T)
          = collapse is_ws4 (skip_ws A) ++ collapse is_ws4 S
            ++ collapse is_ws4 B) as HET.
  { rewrite HsT, collapse_app_boundary by by right.
    f_equal. apply collapse_app_boundary. left.
    by apply last_nonspace_ends. }
  assert (normalize T
          = collapse is_ws4 (skip_ws A) ++ collapse is_ws4 S
            ++ rstrip (collapse is_ws4 B)) as HnT.
  { rewrite normalize_plain, HET, app_assoc by done.
    rewrite rstrip_app_nonspace by by apply last_nonspace_app.
    by rewrite <- app_assoc. }
  set (kA := length (collapse is_ws4 (skip_ws A))) in *.
  destruct (find_from_first 0 (normalize T) (normalize S) kA)
    as (idx & Hidx & Hle).
  { rewrite HnT, length_app. unfold kA. lia. }
  { rewrite HnT. unfold kA. rewrite drop_app_length, HnS.
    by apply prefix_app_r. }
  simpl in Hle.
  destruct (search_found S p pages pg idx Hpg Hne Hidx)
    as (a & r & b & Hsplit & Hadv & Hcons & Hr & Hres).
  fold T in Hsplit, Hadv.
  rewrite Hres. do 2 f_equal.
  (* the image of the returned text *)
  pose proof (search_found_image T (normalize S) idx r b
                Hplain Hne Hidx Hadv Hcons) as Himg.
  assert (plain_ws r) as Hpr.
  { rewrite Hsplit in Hplain.
    apply plain_ws_app in Hplain as [? [? ?]%plain_ws_app]. done. }
  assert (head_nonspace r = true) as Hrh.
  { destruct (head_nonspace_inv S Hhead) as (c & s' & -> & Hc).
    rewrite HnS in Himg.
    rewrite (collapse_nonws is_ws4 c) in Himg
      by by apply not_isspace_not_ws4.
    destruct r as [|r0 r']; [done|].
    destruct (is_ws4 r0) eqn:Hr0.
    - rewrite collapse_ws4_run in Himg by done.
      injection Himg as <- _. by rewrite isspace_SP in Hc.
    - rewrite collapse_nonws in Himg by done.
      injection Himg as -> _. simpl. by rewrite Hc. }
  assert (normalize r = normalize S) as Hnr.
  { rewrite normalize_plain_head by done. rewrite Himg, HnS.
    by apply rstrip_nonspace. }
  pose proof (Hleft a r b Hsplit Hrh Hnr) as Hlen1.
  (* the steps to the position of [S] pass the start of the returned text *)
  assert (advance kA (skip_ws T) = Some (S ++ B)) as HadvA.
  { rewrite HsT. unfold kA. apply advance_app_boundary. by right. }
  replace kA with (idx + (kA - idx))%nat in HadvA by lia.
  rewrite advance_add, Hadv in HadvA. simpl in HadvA.
  apply advance_suffix, suffix_length in HadvA.
  assert (length a = length A) as Hlen.
  { apply (f_equal length) in Hsplit. rewrite HT in Hsplit.
    repeat rewrite length_app in Hsplit. repeat rewrite length_app in HadvA.
    lia. }
  rewrite HT in Hsplit. symmetry in Hlen.
  apply app_inj_1 in Hsplit as [_ Hrest]; [|done].
  (* from the same position, the same number of steps *)
  pose proof (advance_app_boundary S B
                (or_introl (last_nonspace_ends S Hlast))) as HadvS.
  apply advance_consume in HadvS.
  rewrite <- HnS, Hrest, Hcons in HadvS. subst b.
  by apply app_inv_tail in Hrest.
Qed.

Lemma search_not_found_iff_witness :
  search_source_text (lit "Breach of Contract") 3
    [ {| Page.number := 2; Page.text := lit "FIRST CAUSE: Breach of Contract" |};
      {| Page.number := 3; Page.text := lit "SECOND CAUSE: Fraud" |} ]
  = Ok None
  ∧ ∃ v,
      search_source_text (lit "Breach  of Contract") 2
        [ {| Page.number := 2;
             Page.text := lit "FIRST CAUSE: Breach of Contract" |};
          {| Page.number := 3; Page.text := lit "SECOND CAUSE: Fraud" |} ]
      = Ok (Some v)
      ∧ v ≠ [] ∧ occurs_in v (lit "FIRST CAUSE: Breach of Contract").
Proof.
  split.
  - apply (search_not_found_iff (lit "Breach of Contract") 3).
    right; right; right.
    exists {| Page.number := 3; Page.text := lit "SECOND CAUSE: Fraud" |}.
    split.
    + exists [ {| Page.number := 2;
                  Page.text := lit "FIRST CAUSE: Breach of Contract" |} ], [].
      split; [reflexivity|]. split; [reflexivity|].
      intros q [->|Hq]%elem_of_cons; [done|]. by apply elem_of_nil in Hq.
    + apply find_none_occurs. vm_compute. reflexivity.
  - destruct (search_not_found_iff (lit "Breach  of Contract") 2
                [ {| Page.number := 2;
                     Page.text := lit "FIRST CAUSE: Breach of Contract" |};
                  {| Page.number := 3;
                     Page.text := lit "SECOND CAUSE: Fraud" |} ])
      as (_ & _ & Hfound & _).
    apply (Hfound {| Page.number := 2;
                     Page.text := lit "FIRST CAUSE: Breach of Contract" |}).
    + exists [], [ {| Page.number := 3;
                      Page.text := lit "SECOND CAUSE: Fraud" |} ].
      split; [reflexivity|]. split; [reflexivity|].
      intros q Hq. by apply elem_of_nil in Hq.
    + vm_compute. discriminate.
    + exists (lit "FIRST CAUSE: "), []. vm_compute. reflexivity.
Defined.

Lemma search_returns_substring_witness :
  search_source_text (lit "hello" ++ [LF] ++ lit "world") 1
    [ {| Page.number := 1;
         Page.text := lit "  " ++ (lit "hello" ++ [LF] ++ lit "world")
                      ++ lit " again" |} ]
  = Ok (Some (lit "hello" ++ [LF] ++ lit "world")).
Proof.
  apply (search_returns_substring _ 1
           {| Page.number := 1;
              Page.text := lit "  " ++ (lit "hello" ++ [LF] ++ lit "world")
                           ++ lit " again" |}
           (lit "  ") _ (lit " again")).
  - reflexivity.
  - reflexivity.
  - unfold plain_ws. apply Forall_forall. intros c Hc.
    vm_compute in Hc. repeat (apply elem_of_cons in Hc as [->|Hc]; [vm_compute; done|]).
    by apply elem_of_nil in Hc.
  - reflexivity.
  - reflexivity.
  - intros A' R B' HT Hh _.
    destruct A' as [|a0 [|a1 A'']]; [| |simpl; lia].
    + destruct R as [|r0 R']; [done|]. injection HT as <- _. done.
    + destruct R as [|r0 R']; [done|]. injection HT as _ <- _. done.
Defined.

(** C1 as stated fails: a piece of the page text that ends with a space
    comes back without it. *)
Lemma search_substring_counterexample :
  lit "hello world" = [] ++ lit "hello " ++ lit "world"
  ∧ search_source_text (lit "hello ") 1
      [ {| Page.number := 1; Page.text := lit "hello world" |} ]
    = Ok (Some (lit "hello"))
  ∧ lit "hello" ≠ lit "hello ".
Proof. split; [reflexivity|]. split; [vm_compute; reflexivity|done]. Qed.

(** A later occurrence is not returned: the first piece with the same
    normal form is. *)
Example search_first_occurrence :
  search_source_text (lit "a b") 1
    [ {| Page.number := 1; Page.text := lit "a  b, a b" |} ]
  = Ok (Some (lit "a  b")).
Proof. vm_compute. reflexivity. Qed.

(** The example of the specification: the line break of the page comes
    back, not the spaces of the candidate. *)
Example search_hello_world :
  search_source_text (lit "hello   world") 1
    [ {| Page.number := 1; Page.text := lit "hello" ++ [LF] ++ lit "world" |} ]
  = Ok (Some (lit "hello" ++ [LF] ++ lit "world")).
Proof. vm_compute. reflexivity. Qed.

(** Whitespace that [\s] matches and the mapping loops do not look for
    (here two form feeds) shifts the text returned. *)
Example search_form_feed :
  search_source_text (lit "b c") 1
    [ {| Page.number := 1; Page.text := lit "a" ++ [FF; FF] ++ lit "b c" |} ]
  = Ok (Some ([FF] ++ lit "b ")).
Proof. vm_compute. reflexivity. Qed.


(** ** [verify_search_fields] *)

Lemma truthy_search cand p pages r :
  search_source_text cand p pages = Ok r → truthy r = r.
Proof.
  intros H. destruct r as [v|]; [|done]. simpl.
  apply search_result_nonempty, nonempty_true in H. by rewrite H.
Qed.

Lemma verify_coa_title_spec pages coa :
  ∃ coa', verify_coa_title pages coa = Ok coa'
          ∧ coa_title_verified pages coa coa'
          ∧ Coa.search_text coa' = None
          ∧ Coa.number coa' = Coa.number coa
          ∧ Coa.page coa' = Coa.page coa
          ∧ Coa.paragraph_range coa' = Coa.paragraph_range coa.
Proof.
  unfold verify_coa_title, coa_title_verified.
  set (proposal := default [] (Coa.search_text coa)).
  set (page := default 0 (Coa.page coa)).
  destruct (nonempty proposal) eqn:Hne; cbn [andb].
  - apply nonempty_true in Hne.
    destruct (bool_decide (page > 0)) eqn:Hpg.
    + apply bool_decide_eq_true in Hpg.
      rewrite bool_decide_eq_true_2 by done.
      destruct (search_total proposal page pages) as [r Hr].
      rewrite Hr. cbn [bind]. rewrite (truthy_search _ _ _ _ Hr).
      destruct r as [v|]; eexists; (split; [reflexivity|]); repeat split; reflexivity.
    + apply bool_decide_eq_false in Hpg.
      rewrite bool_decide_eq_false_2 by (intros [_ ?]; done).
      eexists; (split; [reflexivity|]); repeat split; reflexivity.
  - apply nonempty_false in Hne.
    rewrite bool_decide_eq_false_2 by (intros [? _]; done).
    eexists; (split; [reflexivity|]); repeat split; reflexivity.
Qed.

Lemma verify_document_title_spec pages ci dt :
  CaptionInfo.document_title ci = Some (Object dt) →
  ∃ ci', verify_document_title ci pages = Ok ci'
         ∧ document_title_verified pages dt ci ci'.
Proof.
  intros Hdt. unfold verify_document_title, document_title_verified.
  rewrite Hdt.
  set (proposal := default [] (SearchField.search_text dt)).
  set (page := default 1 (SearchField.page dt)).
  destruct (nonempty proposal) eqn:Hne.
  - apply nonempty_true in Hne. rewrite bool_decide_eq_true_2 by done.
    destruct (search_total proposal page pages) as [r Hr].
    rewrite Hr. cbn [bind]. rewrite (truthy_search _ _ _ _ Hr).
    destruct r as [v|]; eexists; (split; [reflexivity|]); repeat split; reflexivity.
  - apply nonempty_false in Hne.
    rewrite bool_decide_eq_false_2 by (intros H; by apply H).
    eexists; (split; [reflexivity|]); repeat split; reflexivity.
Qed.

Lemma verify_document_title_total pages ci :
  ∃ ci', verify_document_title ci pages = Ok ci'.
Proof.
  destruct (CaptionInfo.document_title ci) as [[dt|s]|] eqn:Hdt.
  - destruct (verify_document_title_spec pages ci dt Hdt) as (ci' & H & _).
    eauto.
  - unfold verify_document_title. rewrite Hdt. eauto.
  - unfold verify_document_title. rewrite Hdt.
    cbn [default SearchField.search_text nonempty]. eauto.
Qed.

Lemma mapM_verify_coa_title pages coas :
  ∃ coas', mapM (verify_coa_title pages) coas = Ok coas'
           ∧ Forall2 (λ coa coa', verify_coa_title pages coa = Ok coa')
                     coas coas'.
Proof.
  induction coas as [|coa coas (coas' & Hm & Hall)].
  - exists []. by split.
  - destruct (verify_coa_title_spec pages coa) as (coa' & Hc & _).
    exists (coa' :: coas'). cbn [mapM]. rewrite Hc, Hm. cbn [bind].
    split; [done|]. by constructor.
Qed.

(** C7, as amended. Field verification never fails and processes every
    field on its own. A field on which the search is run (the document
    title when its proposal is not empty; a cause-of-action title when its
    proposal is not empty and its page is positive) gets, on success, the
    verbatim source text as its value and the mark verified; on failure it
    keeps the proposed value, unchanged, and is marked unverified. A field
    on which the search is not run keeps its proposal as value and gets no
    mark. The outcome of a cause of action is the one of
    [verify_coa_title] on that cause of action alone, whatever happens to
    the other fields; the output lists as many causes of action, in the
    same order. *)
Theorem verify_search_fields_spec result_ pages :
  ∃ out,
    verify_search_fields result_ pages = Ok out
    ∧ (∀ dt,
         CaptionInfo.document_title (Result.caption_info result_)
           = Some (Object dt) →
         document_title_verified pages dt
           (Result.caption_info result_) (Result.caption_info out))
    ∧ (∀ coas,
         Result.causes_of_action result_ = Some coas →
         ∃ coas',
           Result.causes_of_action out = Some coas'
           ∧ length coas' = length coas
           ∧ ∀ i coa,
               coas !! i = Some coa →
               ∃ coa',
                 coas' !! i = Some coa'
                 ∧ verify_coa_title pages coa = Ok coa'
                 ∧ coa_title_verified pages coa coa').
Proof.
  unfold verify_search_fields.
  destruct (verify_document_title_total pages (Result.caption_info result_))
    as [ci' Hci]. rewrite Hci. cbn [bind].
  assert (∀ dt,
            CaptionInfo.document_title (Result.caption_info result_)
              = Some (Object dt) →
            document_title_verified pages dt (Result.caption_info result_) ci')
    as Htitle.
  { intros dt Hdt.
    destruct (verify_document_title_spec pages _ dt Hdt) as (ci2 & H2 & Hspec).
    congruence. }
  destruct (Result.causes_of_action result_) as [coas|] eqn:Hcoas.
  - destruct (mapM_verify_coa_title pages coas) as (coas' & Hm & Hall).
    rewrite Hm. cbn [bind]. eexists. split; [reflexivity|].
    split; [exact Htitle|].
    intros ? [= <-]. exists coas'. split; [done|].
    split; [symmetry; by eapply Forall2_length|].
    intros i coa Hi.
    destruct (Forall2_lookup_l _ _ _ _ _ Hall Hi) as (coa' & Hi' & Hv).
    exists coa'. split; [done|]. split; [done|].
    destruct (verify_coa_title_spec pages coa) as (coa2 & H2 & Hspec & _).
    congruence.
  - eexists. split; [reflexivity|]. split; [exact Htitle|]. done.
Qed.

Lemma verify_search_fields_spec_witness :
  ∃ coa',
    verify_coa_title
      [ {| Page.number := 4;
           Page.text := lit "FIRST CAUSE OF ACTION" ++ [LF]
                        ++ lit "(Breach of   Contract)" |} ]
      {| Coa.number := Some 1;
         Coa.search_text := Some (lit "Breach of Contract");
         Coa.page := Some 4;
         Coa.paragraph_range := None;
         Coa.title := None; Coa.title_verified := None;
         Coa.title_proposed_value := None;
         Coa.paragraph_range_verified := None;
         Coa.missing_paragraphs := None |} = Ok coa'
    ∧ Coa.title coa' = Some (lit "Breach of   Contract")
    ∧ Coa.title_verified coa' = Some true.
Proof.
  pose (pages := [ {| Page.number := 4;
           Page.text := lit "FIRST CAUSE OF ACTION" ++ [LF]
                        ++ lit "(Breach of   Contract)" |} ]).
  pose (coa := {| Coa.number := Some 1;
         Coa.search_text := Some (lit "Breach of Contract");
         Coa.page := Some 4;
         Coa.paragraph_range := None;
         Coa.title := None; Coa.title_verified := None;
         Coa.title_proposed_value := None;
         Coa.paragraph_range_verified := None;
         Coa.missing_paragraphs := None |}).
  destruct (verify_search_fields_spec
              {| Result.caption_info :=
                   {| CaptionInfo.document_title := None;
                      CaptionInfo.document_title_verified := None;
                      CaptionInfo.document_title_proposed_value := None |};
                 Result.causes_of_action := Some [coa];
                 Result.pages := None |} pages)
    as (out & _ & _ & Hcoas).
  destruct (Hcoas [coa] eq_refl) as (coas' & _ & _ & Hi).
  destruct (Hi 0%nat coa eq_refl) as (coa' & _ & Hv & Hspec).
  exists coa'. split; [exact Hv|].
  vm_compute in Hspec. exact Hspec.
Defined.

(** C7 as stated fails: a cause of action proposed for page 0 is not
    searched for. The search would not find it, yet the output does not
    mark it unverified: it carries no mark at all. *)
Lemma verify_search_fields_counterexample :
  search_source_text (lit "Fraud") 0
    [ {| Page.number := 1; Page.text := lit "FIRST CAUSE OF ACTION: Fraud" |} ]
  = Ok None
  ∧ verify_search_fields
      {| Result.caption_info :=
           {| CaptionInfo.document_title := None;
              CaptionInfo.document_title_verified := None;
              CaptionInfo.document_title_proposed_value := None |};
         Result.causes_of_action :=
           Some [ {| Coa.number := Some 1;
                     Coa.search_text := Some (lit "Fraud");
                     Coa.page := Some 0;
                     Coa.paragraph_range := None;
                     Coa.title := None; Coa.title_verified := None;
                     Coa.title_proposed_value := None;
                     Coa.paragraph_range_verified := None;
                     Coa.missing_paragraphs := None |} ];
         Result.pages := None |}
      [ {| Page.number := 1; Page.text := lit "FIRST CAUSE OF ACTION: Fraud" |} ]
    = Ok {| Result.caption_info :=
              {| CaptionInfo.document_title := Some (Text []);
                 CaptionInfo.document_title_verified := None;
                 CaptionInfo.document_title_proposed_value := None |};
            Result.causes_of_action :=
              Some [ {| Coa.number := Some 1;
                        Coa.search_text := None;
                        Coa.page := Some 0;
                        Coa.paragraph_range := None;
                        Coa.title := Some (lit "Fraud");
                        Coa.title_verified := None;
                        Coa.title_proposed_value := None;
                        Coa.paragraph_range_verified := None;
                        Coa.missing_paragraphs := None |} ];
            Result.pages := None |}
  ∧ (None : option bool) ≠ Some false.
Proof. split; [vm_compute; reflexivity|]. split; [vm_compute; reflexivity|done]. Qed.


(** ** [generate_footnote_index] *)

Lemma insert_row_perm x l : insert_row x l ≡ₚ x :: l.
Proof.
  induction l as [|y l IH]; simpl; [done|].
  case_bool_decide; [done|]. rewrite IH. apply Permutation_swap.
Qed.

Lemma sort_rows_perm l : sort_rows l ≡ₚ l.
Proof.
  induction l as [|x l IH]; simpl; [done|].
  by rewrite insert_row_perm, IH.
Qed.

Lemma insert_row_sorted x l :
  StronglySorted Z.le (IndexRow.fn_number <$> l) →
  StronglySorted Z.le (IndexRow.fn_number <$> insert_row x l).
Proof.
  induction l as [|y l IH]; intros Hs; simpl.
  - repeat constructor.
  - apply StronglySorted_inv in Hs as [Hl Hy].
    case_bool_decide as Hxy.
    + cbn [fmap list_fmap]. constructor; [by constructor|].
      constructor; [done|]. eapply Forall_impl; [exact Hy|].
      intros z Hz. simpl in Hz. lia.
    + cbn [fmap list_fmap]. constructor; [by apply IH|].
      assert (Forall (Z.le (IndexRow.fn_number y))
                (IndexRow.fn_number <$> (x :: l))) as Hall.
      { cbn [fmap list_fmap]. constructor; [lia|done]. }
      rewrite <- insert_row_perm in Hall. exact Hall.
Qed.

Lemma sort_rows_sorted l :
  StronglySorted Z.le (IndexRow.fn_number <$> sort_rows l).
Proof.
  induction l as [|x l IH]; simpl; [constructor|].
  by apply insert_row_sorted.
Qed.

Lemma missing_numbers_app r1 r2 :
  missing_numbers (r1 ++ r2) = missing_numbers r1 ++ missing_numbers r2.
Proof. apply omap_app. Qed.

Lemma duplicate_numbers_app r1 r2 :
  duplicate_numbers (r1 ++ r2) = duplicate_numbers r1 ++ duplicate_numbers r2.
Proof. apply omap_app. Qed.

Lemma missing_numbers_MISSING num page ms :
  missing_numbers ((λ m, MISSING m num page) <$> ms) = ms.
Proof.
  unfold missing_numbers. induction ms as [|m ms IH]; [done|].
  simpl. by f_equal.
Qed.

Lemma duplicate_numbers_MISSING num page ms :
  duplicate_numbers ((λ m, MISSING m num page) <$> ms) = [].
Proof.
  unfold duplicate_numbers. induction ms as [|m ms IH]; [done|].
  simpl. done.
Qed.

Lemma validate_step_missing st x :
  missing_numbers (issues (validate_step st x))
  = missing_numbers (issues st)
    ++ (if bool_decide (IndexRow.fn_number x > expected_num st)
        then seqZ (expected_num st) (IndexRow.fn_number x - expected_num st)
        else []).
Proof.
  unfold validate_step. cbn [issues].
  rewrite !missing_numbers_app. f_equal.
  set (num := IndexRow.fn_number x). set (e := expected_num st).
  assert (missing_numbers
            (if bool_decide (num ∈ seen_numbers st)
             then [DUPLICATE num (IndexRow.page x)] else []) = []) as ->
    by by case_bool_decide.
  rewrite app_nil_r.
  case_bool_decide as Hne.
  - case_bool_decide.
    + by rewrite missing_numbers_MISSING.
    + done.
  - by rewrite bool_decide_eq_false_2 by lia.
Qed.

Lemma validate_step_duplicate st x :
  duplicate_numbers (issues (validate_step st x))
  = duplicate_numbers (issues st)
    ++ (if bool_decide (IndexRow.fn_number x ∈ seen_numbers st)
        then [IndexRow.fn_number x] else []).
Proof.
  unfold validate_step. cbn [issues].
  rewrite !duplicate_numbers_app. f_equal.
  set (num := IndexRow.fn_number x). set (e := expected_num st).
  assert (duplicate_numbers
            (if bool_decide (num ≠ e)
             then if bool_decide (num > e)
                  then (λ missing, MISSING missing num (IndexRow.page x))
                         <$> seqZ e (num - e)
                  else [OUT_OF_ORDER num (IndexRow.page x) e]
             else []) = []) as ->.
  { case_bool_decide; [|done]. case_bool_decide; [|done].
    by rewrite duplicate_numbers_MISSING. }
  by case_bool_decide.
Qed.

(** The report of the loop, read off the numbers alone. *)
Lemma validate_foldl l st :
  missing_numbers (issues (foldl validate_step st l))
    = missing_numbers (issues st)
      ++ gaps (expected_num st) (IndexRow.fn_number <$> l)
  ∧ duplicate_numbers (issues (foldl validate_step st l))
    = duplicate_numbers (issues st)
      ++ repeats (seen_numbers st) (IndexRow.fn_number <$> l).
Proof.
  revert st. induction l as [|x l IH]; intros st.
  - simpl. by rewrite !app_nil_r.
  - cbn [foldl fmap list_fmap gaps repeats].
    destruct (IH (validate_step st x)) as [IH1 IH2].
    rewrite IH1, IH2, validate_step_missing, validate_step_duplicate.
    by rewrite <- !app_assoc.
Qed.

(** The elements of [gaps e l] lie above [e] or above an element of [l]. *)
Lemma gaps_lower e l m :
  m ∈ gaps e l → e ≤ m ∨ ∃ a, a ∈ l ∧ a < m.
Proof.
  revert e. induction l as [|x l IH]; intros e; simpl.
  { by intros ?%elem_of_nil. }
  intros [Hm|Hm]%elem_of_app.
  - case_bool_decide; [|by apply elem_of_nil in Hm].
    apply elem_of_seqZ in Hm. left. lia.
  - destruct (IH _ Hm) as [?|(a & Ha & ?)].
    + right. exists x. split; [constructor|lia].
    + right. exists a. split; [by constructor|done].
Qed.

Lemma gaps_spec e l m :
  StronglySorted Z.le l →
  m ∈ gaps e l ↔
    (m ∉ l) ∧ (∃ b, b ∈ l ∧ m < b) ∧ (e ≤ m ∨ ∃ a, a ∈ l ∧ a < m).
Proof.
  revert e. induction l as [|x l IH]; intros e Hs.
  - simpl. split; [by intros ?%elem_of_nil|].
    intros (_ & (b & ?%elem_of_nil & _) & _). done.
  - apply StronglySorted_inv in Hs as [Hl Hx].
    rewrite Forall_forall in Hx.
    cbn [gaps]. rewrite elem_of_app, (IH _ Hl). split.
    + intros [Hm|(Hnot & (b & Hb & Hmb) & Hlow)].
      * case_bool_decide; [|by apply elem_of_nil in Hm].
        apply elem_of_seqZ in Hm. split; [|split].
        -- intros [->|Hin]%elem_of_cons; [lia|]. apply Hx in Hin. lia.
        -- exists x. split; [constructor|lia].
        -- left. lia.
      * assert (x < m) as Hxm.
        { destruct Hlow as [?|(a & Ha & ?)]; [lia|]. apply Hx in Ha. lia. }
        split; [|split].
        -- intros [->|Hin]%elem_of_cons; [lia|done].
        -- exists b. split; [by constructor|done].
        -- right. exists x. split; [constructor|done].
    + intros (Hnot & (b & Hb & Hmb) & Hlow).
      rewrite not_elem_of_cons in Hnot. destruct Hnot as [Hne Hnot].
      destruct (decide (m < x)) as [Hlt|Hge].
      * left. assert (e ≤ m) as He.
        { destruct Hlow as [?|(a & [->|Ha]%elem_of_cons & ?)]; [done|lia|].
          apply Hx in Ha. lia. }
        rewrite bool_decide_eq_true_2 by lia. apply elem_of_seqZ. lia.
      * right. split; [done|]. split.
        -- apply elem_of_cons in Hb as [->|Hb]; [lia|]. by exists b.
        -- left. lia.
Qed.

Lemma seq_sorted s n : StronglySorted lt (seq s n).
Proof.
  revert s. induction n as [|n IH]; intros s; simpl; constructor.
  - apply IH.
  - apply Forall_forall. intros i Hi%elem_of_seq. lia.
Qed.

Lemma seqZ_sorted e len : StronglySorted Z.lt (seqZ e len).
Proof.
  unfold seqZ. eapply StronglySorted_fmap; [|apply seq_sorted].
  intros x y Hxy. simpl. lia.
Qed.

Lemma gaps_sorted e l :
  StronglySorted Z.le l → StronglySorted Z.lt (gaps e l).
Proof.
  revert e. induction l as [|x l IH]; intros e Hs; simpl; [constructor|].
  apply StronglySorted_inv in Hs as [Hl Hx]. rewrite Forall_forall in Hx.
  assert (∀ m, m ∈ gaps (x + 1) l → x < m) as Hrest.
  { intros m [?|(a & Ha & ?)]%gaps_lower; [lia|]. apply Hx in Ha. lia. }
  case_bool_decide; [|by apply IH].
  apply StronglySorted_app_2; [|apply seqZ_sorted|by apply IH].
  intros a b Ha%elem_of_seqZ Hb%Hrest. lia.
Qed.

Lemma occurrences_cons n x l :
  occurrences n (x :: l)
  = ((if bool_decide (x = n) then 1 else 0) + occurrences n l)%nat.
Proof.
  unfold occurrences. rewrite filter_cons.
  destruct (decide (x = n)).
  - by rewrite bool_decide_eq_true_2.
  - by rewrite bool_decide_eq_false_2.
Qed.

Lemma occurrences_app n l1 l2 :
  occurrences n (l1 ++ l2) = (occurrences n l1 + occurrences n l2)%nat.
Proof. unfold occurrences. by rewrite filter_app, length_app. Qed.

Lemma occurrences_perm n l1 l2 :
  l1 ≡ₚ l2 → occurrences n l1 = occurrences n l2.
Proof. intros H. unfold occurrences. by rewrite H. Qed.

(** Every occurrence of a number after its first one is a repetition. *)
Lemma repeats_count seen l n :
  occurrences n (repeats seen l)
  = (occurrences n l
     - (if bool_decide (n ∈ seen) then 0 else 1))%nat.
Proof.
  revert seen. induction l as [|x l IH]; intros seen.
  - simpl. unfold occurrences. simpl. lia.
  - cbn [repeats]. rewrite occurrences_app, IH, (occurrences_cons n x l).
    destruct (decide (x = n)) as [->|Hne].
    + rewrite (bool_decide_eq_true_2 (n = n)) by done.
      rewrite (bool_decide_eq_true_2 (n ∈ {[n]} ∪ seen)) by set_solver.
      case_bool_decide.
      * rewrite occurrences_cons, bool_decide_eq_true_2 by done.
        unfold occurrences. simpl. lia.
      * unfold occurrences at 1. simpl. lia.
    + rewrite (bool_decide_eq_false_2 (x = n)) by done.
      assert (occurrences n (if bool_decide (x ∈ seen) then [x] else []) = 0%nat)
        as ->.
      { case_bool_decide; [|done].
        rewrite occurrences_cons, bool_decide_eq_false_2 by done. done. }
      destruct (decide (n ∈ seen)).
      * rewrite (bool_decide_eq_true_2 (n ∈ seen)) by done.
        rewrite (bool_decide_eq_true_2 (n ∈ {[x]} ∪ seen))
          by (apply elem_of_union; by right).
        lia.
      * rewrite (bool_decide_eq_false_2 (n ∈ seen)) by done.
        rewrite (bool_decide_eq_false_2 (n ∈ {[x]} ∪ seen))
          by (intros [?%elem_of_singleton|?]%elem_of_union; done).
        lia.
Qed.

(** C4, as amended. The report is read off the footnote numbers sorted
    ascending. The numbers reported missing come in ascending order and
    are exactly the integers skipped in the walk: those that are not a
    footnote number, lie below some footnote number, and are at least 1
    (the first number expected) or above some footnote number. A number
    that occurs [k] times is reported duplicate [k - 1] times, once for
    each record after the first: exactly once when it occurs twice. *)
Theorem footnote_issues_spec result_ :
  StronglySorted Z.lt (missing_numbers (footnote_issues result_))
  ∧ (∀ m,
       m ∈ missing_numbers (footnote_issues result_) ↔
         (m ∉ resolved_numbers result_)
         ∧ (∃ b, b ∈ resolved_numbers result_ ∧ m < b)
         ∧ (1 ≤ m ∨ ∃ a, a ∈ resolved_numbers result_ ∧ a < m))
  ∧ (∀ n,
       occurrences n (duplicate_numbers (footnote_issues result_))
       = (occurrences n (resolved_numbers result_) - 1)%nat).
Proof.
  unfold footnote_issues, resolved_numbers.
  set (rows := collect_footnotes (default [] (Result.pages result_))).
  assert (missing_numbers (validate (sort_rows rows))
            = gaps 1 (IndexRow.fn_number <$> sort_rows rows)
          ∧ duplicate_numbers (validate (sort_rows rows))
            = repeats ∅ (IndexRow.fn_number <$> sort_rows rows))
    as [Hmiss Hdup].
  { unfold validate.
    destruct (validate_foldl (sort_rows rows)
                {| issues := []; seen_numbers := ∅; expected_num := 1 |})
      as [H1 H2].
    by rewrite H1, H2. }
  assert ((IndexRow.fn_number <$> sort_rows rows)
            ≡ₚ (IndexRow.fn_number <$> rows)) as Hperm
    by by rewrite sort_rows_perm.
  pose proof (sort_rows_sorted rows) as Hsorted.
  assert (match rows with [] => [] | _ :: _ => validate (sort_rows rows) end
          = validate (sort_rows rows)) as ->.
  { by destruct rows. }
  rewrite Hmiss, Hdup. split; [|split].
  - by apply gaps_sorted.
  - intros m. rewrite gaps_spec by done.
    by setoid_rewrite Hperm.
  - intros n. rewrite repeats_count.
    rewrite bool_decide_eq_false_2 by set_solver.
    by rewrite (occurrences_perm _ _ _ Hperm).
Qed.

Lemma footnote_issues_spec_witness :
  3 ∈ missing_numbers
        (footnote_issues
           (Sample.classified
              [ (1, [Sample.footnote 1 "a"; Sample.footnote 2 "b"]);
                (2, [Sample.footnote 6 "f"; Sample.footnote 4 "d"]) ])).
Proof.
  apply (footnote_issues_spec
           (Sample.classified
              [ (1, [Sample.footnote 1 "a"; Sample.footnote 2 "b"]);
                (2, [Sample.footnote 6 "f"; Sample.footnote 4 "d"]) ])).
  replace (resolved_numbers _) with [1; 2; 6; 4] by (vm_compute; reflexivity).
  split; [|split].
  - intros Hin. repeat (apply elem_of_cons in Hin as [?|Hin]; [done|]).
    by apply elem_of_nil in Hin.
  - exists 4. split; [|done]. do 3 apply list_elem_of_further. constructor.
  - by left.
Defined.

(** The numbers 1, 2, 4, 6 of the specification: 3 and 5 are reported
    missing, in this order, and nothing else is reported. *)
Example footnote_issues_gaps :
  footnote_issues
    (Sample.classified
       [ (1, [Sample.footnote 1 "a"; Sample.footnote 2 "b"]);
         (2, [Sample.footnote 6 "f"; Sample.footnote 4 "d"]) ])
  = [ MISSING 3 4 2; MISSING 5 6 2 ].
Proof. vm_compute. reflexivity. Qed.

(** Two records with the number 7: one duplicate is reported, after the
    missing numbers 1 to 6 and an out-of-order notice. *)
Example footnote_issues_two_sevens :
  footnote_issues
    (Sample.classified
       [ (1, [Sample.footnote 7 "a"]); (2, [Sample.footnote 7 "b"]) ])
  = [ MISSING 1 7 1; MISSING 2 7 1; MISSING 3 7 1; MISSING 4 7 1;
      MISSING 5 7 1; MISSING 6 7 1; OUT_OF_ORDER 7 2 8; DUPLICATE 7 2 ].
Proof. vm_compute. reflexivity. Qed.

(** The rendering of the issues in the report. *)
Example generate_footnote_index_text :
  generate_footnote_index
    (Sample.classified
       [ (1, [Sample.footnote 1 "a"]); (2, [Sample.footnote 3 "c"]);
         (3, [Sample.footnote 3 "c"]) ])
  = [ lit "MISSING footnote 2 (gap before fn 3 on page 2)";
      lit "OUT OF ORDER: footnote 3 on page 3 (expected 4)";
      lit "DUPLICATE: footnote 3 on page 3" ].
Proof. vm_compute. reflexivity. Qed.

(** C4 as stated fails: a number resolved three times is reported
    duplicate twice, not once. *)
Lemma footnote_issues_counterexample :
  footnote_issues
    (Sample.classified
       [ (1, [Sample.footnote 1 "a"; Sample.footnote 1 "a"]);
         (2, [Sample.footnote 1 "a"]) ])
  = [ OUT_OF_ORDER 1 1 2; DUPLICATE 1 1; OUT_OF_ORDER 1 2 2; DUPLICATE 1 2 ]
  ∧ length (duplicate_numbers
              [ OUT_OF_ORDER 1 1 2; DUPLICATE 1 1;
                OUT_OF_ORDER 1 2 2; DUPLICATE 1 2 ]) ≠ 1%nat.
Proof. split; [vm_compute; reflexivity|]. vm_compute. lia. Qed.


(** ** [verify_causes_of_action] *)

Lemma elem_of_range_set start end_ k :
  k ∈ range_set start end_ ↔ start ≤ k ≤ end_.
Proof.
  unfold range_set. rewrite elem_of_list_to_set, elem_of_seqZ. lia.
Qed.

Lemma verify_range_spec observed coa :
  range_verified observed coa (verify_range observed coa).
Proof.
  unfold range_verified, verify_range.
  set (start := default 0 _). set (end_ := default 0 _).
  destruct (bool_decide (start > 0)) eqn:Hs;
    destruct (bool_decide (end_ > 0)) eqn:He; cbn [andb];
    try apply bool_decide_eq_true in Hs; try apply bool_decide_eq_true in He;
    try apply bool_decide_eq_false in Hs; try apply bool_decide_eq_false in He.
  2-4: by rewrite bool_decide_eq_false_2 by (intros [? ?]; done).
  rewrite bool_decide_eq_true_2 by done.
  set (missing := range_set start end_ ∖ observed).
  cbn [Coa.missing_paragraphs Coa.paragraph_range_verified].
  destruct (decide (missing = ∅)) as [Hm|Hm].
  - exists []. rewrite bool_decide_eq_false_2 by (intros H; by apply H).
    split; [done|]. split; [constructor|]. split.
    + intros k. split; [by intros ?%elem_of_nil|].
      intros [Hk Hnot]. exfalso.
      assert (k ∈ missing) as Hin.
      { apply elem_of_difference. by rewrite elem_of_range_set. }
      rewrite Hm in Hin. by apply elem_of_empty in Hin.
    + rewrite Hm, size_empty. by rewrite !bool_decide_eq_true_2.
  - exists (sorted missing). rewrite bool_decide_eq_true_2 by done.
    split; [done|]. split; [apply sorted_ascending|]. split.
    + intros k. rewrite sorted_elem_of. unfold missing.
      by rewrite elem_of_difference, elem_of_range_set.
    + f_equal. rewrite bool_decide_eq_false_2.
      * rewrite bool_decide_eq_false_2; [done|]. by rewrite sorted_nil_iff.
      * intros Hsz. apply size_empty_inv in Hsz. apply Hm.
        by apply leibniz_equiv.
Qed.

Lemma page_paragraphs_as_inserts pages :
  page_paragraphs pages
  = foldl (λ m e, <[e.1 := e.2]> m) ∅ (omap paragraphs_write pages).
Proof.
  unfold page_paragraphs. rewrite <- foldl_insert_omap.
  apply foldl_ext_eq. intros m pg. unfold paragraphs_write.
  by case_bool_decide.
Qed.

Lemma NoDup_fmap_inj {A B} (f : A → B) (l : list A) x y :
  NoDup (f <$> l) → x ∈ l → y ∈ l → f x = f y → x = y.
Proof.
  induction l as [|a l IH]; intros Hnd Hx Hy Hf.
  { by apply elem_of_nil in Hx. }
  rewrite fmap_cons in Hnd. apply NoDup_cons in Hnd as [Hnotin Hnd].
  apply elem_of_cons in Hx as [->|Hx]; apply elem_of_cons in Hy as [->|Hy].
  - done.
  - exfalso. apply Hnotin. rewrite Hf. apply list_elem_of_fmap. eauto.
  - exfalso. apply Hnotin. rewrite <- Hf. apply list_elem_of_fmap. eauto.
  - by apply IH.
Qed.

(** With page numbers that are all different, the pooled set holds the
    paragraph numbers of all pages. *)
Lemma all_paragraphs_spec pages k :
  NoDup (Page.number <$> pages) →
  k ∈ all_paragraphs pages
  ↔ ∃ pg, pg ∈ pages ∧ k ∈ paragraph_nums (Page.text pg).
Proof.
  intros Hnd. unfold all_paragraphs. rewrite elem_of_union_list. split.
  - intros (s & Hs & Hk).
    apply list_elem_of_fmap in Hs as ([p s'] & -> & Hin). cbn [snd] in Hk.
    apply elem_of_map_to_list in Hin.
    rewrite page_paragraphs_as_inserts, foldl_insert_lookup in Hin.
    destruct (last (filter _ _)) as [e|] eqn:Hlast; [|done].
    injection Hin as <-.
    apply last_Some_elem_of, list_elem_of_filter in Hlast as [_ He].
    apply list_elem_of_omap in He as (pg & Hpg & Hw).
    unfold paragraphs_write in Hw. case_bool_decide; [|done].
    injection Hw as <-. cbn [snd] in Hk. eauto.
  - intros (pg & Hpg & Hk).
    exists (paragraph_nums (Page.text pg)). split; [|done].
    apply list_elem_of_fmap.
    exists (Page.number pg, paragraph_nums (Page.text pg)). split; [done|].
    apply elem_of_map_to_list.
    rewrite page_paragraphs_as_inserts, foldl_insert_lookup.
    assert (paragraphs_write pg
            = Some (Page.number pg, paragraph_nums (Page.text pg))) as Hw.
    { unfold paragraphs_write. rewrite bool_decide_eq_true_2; [done|].
      intros Hempty. rewrite Hempty in Hk. by apply elem_of_empty in Hk. }
    destruct (last (filter _ _)) as [e|] eqn:Hlast.
    + apply last_Some_elem_of, list_elem_of_filter in Hlast as [He1 He].
      apply list_elem_of_omap in He as (pg' & Hpg' & Hw').
      assert (Page.number pg' = Page.number pg) as Hnum.
      { unfold paragraphs_write in Hw'. case_bool_decide; [|done].
        by injection Hw' as <-. }
      assert (pg' = pg) as -> by by eapply NoDup_fmap_inj.
      rewrite Hw in Hw'. by injection Hw' as <-.
    + exfalso. apply last_None in Hlast.
      assert ((Page.number pg, paragraph_nums (Page.text pg))
                ∈ filter (λ e : Z * gset Z, e.1 = Page.number pg)
                    (omap paragraphs_write pages)) as Hin.
      { apply list_elem_of_filter. split; [done|].
        apply list_elem_of_omap. eauto. }
      rewrite Hlast in Hin. by apply elem_of_nil in Hin.
Qed.

(** C6. Every cause of action of the input gets its verdict, in the same
    order. With [start > 0] and [end > 0] the missing paragraphs are the
    integers of the inclusive range from [start] to [end] that are not in
    the pooled set of paragraph numbers, in ascending order, and the
    range is verified exactly when none is missing; with a bound that is
    not positive the range is unverified and the list of missing
    paragraphs is empty. The pooled set holds the paragraph numbers
    scanned from all pages (of a store whose page numbers are all
    different, as the data model has it). *)
Theorem verify_causes_of_action_spec coa_list pages i coa :
  coa_list !! i = Some coa →
  ∃ coa',
    verify_causes_of_action coa_list pages !! i = Some coa'
    ∧ range_verified (all_paragraphs pages) coa coa'
    ∧ (NoDup (Page.number <$> pages) →
       ∀ k, k ∈ all_paragraphs pages
            ↔ ∃ pg, pg ∈ pages ∧ k ∈ paragraph_nums (Page.text pg)).
Proof.
  intros Hi. exists (verify_range (all_paragraphs pages) coa).
  split; [|split].
  - unfold verify_causes_of_action. destruct coa_list as [|c0 rest]; [done|].
    by rewrite list_lookup_fmap, Hi.
  - apply verify_range_spec.
  - intros Hnd k. by apply all_paragraphs_spec.
Qed.

Lemma verify_causes_of_action_spec_witness :
  ∃ coa',
    verify_causes_of_action [Sample.coa_with_range 10 13]
      Sample.complaint_pages !! 0%nat = Some coa'
    ∧ range_verified (all_paragraphs Sample.complaint_pages)
        (Sample.coa_with_range 10 13) coa'
    ∧ ∀ k, k ∈ all_paragraphs Sample.complaint_pages
           ↔ ∃ pg, pg ∈ Sample.complaint_pages
                   ∧ k ∈ paragraph_nums (Page.text pg).
Proof.
  destruct (verify_causes_of_action_spec [Sample.coa_with_range 10 13]
              Sample.complaint_pages 0 (Sample.coa_with_range 10 13))
    as (coa' & Hlook & Hrange & Hpool); [reflexivity|].
  exists coa'. split; [exact Hlook|]. split; [exact Hrange|].
  apply Hpool. cbn. repeat constructor.
  - intros [?|?%elem_of_nil]%elem_of_cons; done.
  - by intros ?%elem_of_nil.
Defined.

(** The example of the specification: paragraphs 1 to 10, 12 and 13 are
    in the text; the range from 10 to 13 is not verified, 11 is missing. *)
Example verify_range_10_13 :
  sorted (all_paragraphs Sample.complaint_pages)
  = [1; 2; 3; 4; 5; 6; 7; 8; 9; 10; 12; 13]
  ∧ (λ coa', (Coa.paragraph_range_verified coa', Coa.missing_paragraphs coa'))
      <$> verify_causes_of_action [Sample.coa_with_range 10 13]
            Sample.complaint_pages
    = [ (Some false, Some [11]) ].
Proof. split; vm_compute; reflexivity. Qed.

(** The sentinel range from 0 to 0 is unverified, nothing is compared. *)
Example verify_range_sentinel :
  (λ coa', (Coa.paragraph_range_verified coa', Coa.missing_paragraphs coa'))
    <$> verify_causes_of_action [Sample.coa_with_range 0 0]
          Sample.complaint_pages
  = [ (Some false, Some []) ].
Proof. vm_compute. reflexivity. Qed.


(** ** [_extract_fn_inventory] *)

Lemma inventory_as_inserts pages :
  _extract_fn_inventory pages
  = foldl (λ m e, <[e.1 := e.2]> m) ∅
      (omap inventory_write (inventory_entries pages)).
Proof.
  unfold _extract_fn_inventory. rewrite <- foldl_insert_omap.
  apply foldl_ext_eq. intros m [pg fn]. unfold inventory_write. cbn.
  by case_bool_decide.
Qed.

Lemma omap_cons_Some {A B} (f : A → option B) x y l :
  f x = Some y → omap f (x :: l) = y :: omap f l.
Proof. intros H. csimpl. by rewrite H. Qed.

Lemma omap_cons_None {A B} (f : A → option B) x l :
  f x = None → omap f (x :: l) = omap f l.
Proof. intros H. csimpl. by rewrite H. Qed.

Lemma filter_omap_positive n (l : list (Z * Footnote.t)) :
  n > 0 →
  filter (λ e : Z * FnRecord.t, e.1 = n) (omap inventory_write l)
  = (λ e, (n, record_of e.1 e.2))
      <$> filter (λ e, default 0 (Footnote.fn_number e.2) = n) l.
Proof.
  intros Hn. induction l as [|e l IH]; [done|].
  rewrite (filter_cons _ e l).
  destruct (decide (default 0 (Footnote.fn_number e.2) = n)) as [He|He].
  - rewrite (omap_cons_Some _ e (n, record_of e.1 e.2)).
    2:{ unfold inventory_write. rewrite bool_decide_eq_true_2 by lia.
        by rewrite He. }
    rewrite filter_cons. cbn [fst]. rewrite decide_True by done.
    rewrite fmap_cons. by rewrite IH.
  - destruct (inventory_write e) as [[k v]|] eqn:Hw.
    + rewrite (omap_cons_Some _ e (k, v)) by done.
      rewrite filter_cons. cbn [fst].
      unfold inventory_write in Hw. case_bool_decide; [|done].
      injection Hw as <- _. by rewrite decide_False by done.
    + by rewrite omap_cons_None.
Qed.

Lemma filter_omap_nonpositive n (l : list (Z * Footnote.t)) :
  ¬ n > 0 →
  filter (λ e : Z * FnRecord.t, e.1 = n) (omap inventory_write l) = [].
Proof.
  intros Hn. induction l as [|e l IH]; [done|].
  destruct (inventory_write e) as [[k v]|] eqn:Hw.
  - rewrite (omap_cons_Some _ e (k, v)) by done.
    rewrite filter_cons. cbn [fst].
    unfold inventory_write in Hw. case_bool_decide; [|done].
    injection Hw as <- _. by rewrite decide_False by lia.
  - by rewrite omap_cons_None.
Qed.

Lemma last_fmap {A B} (f : A → B) (l : list A) :
  last (f <$> l) = f <$> last l.
Proof.
  induction l as [|x l IH]; [done|].
  cbn [fmap list_fmap]. rewrite !last_cons, IH.
  by destruct (last l).
Qed.

(** C10. The inventory maps a footnote number [n] to the record of the
    last entry listed with this number, when [n] is positive, and to
    nothing otherwise: entries with a number that is not positive are
    dropped, a later entry with the same number overwrites the earlier
    one. What reaches the merge step is therefore one record for each
    number: the numbers of the inventory, listed, show no repetition. *)
Theorem extract_fn_inventory_spec pages n :
  _extract_fn_inventory pages !! n
  = (if bool_decide (n > 0)
     then (λ e, record_of e.1 e.2) <$> last (entries_numbered n pages)
     else None)
  ∧ NoDup (map_to_list (_extract_fn_inventory pages)).*1.
Proof.
  split; [|apply NoDup_fst_map_to_list].
  rewrite inventory_as_inserts, foldl_insert_lookup.
  unfold entries_numbered. case_bool_decide as Hn.
  - rewrite filter_omap_positive by done. rewrite last_fmap.
    by destruct (last (filter _ _)).
  - by rewrite filter_omap_nonpositive.
Qed.

Lemma extract_fn_inventory_spec_witness :
  _extract_fn_inventory
    (default [] (Result.pages
       (Sample.classified
          [ (3, [Sample.footnote 7 "early"; Sample.footnote 0 "none"]);
            (5, [Sample.footnote 7 "late"]) ]))) !! 7
  = Some {| FnRecord.page := 5;
            FnRecord.merge_status := lit "merged";
            FnRecord.merge_location := [];
            FnRecord._llm_text := lit "late";
            FnRecord._original_page := None |}.
Proof.
  destruct (extract_fn_inventory_spec
              (default [] (Result.pages
                 (Sample.classified
                    [ (3, [Sample.footnote 7 "early"; Sample.footnote 0 "none"]);
                      (5, [Sample.footnote 7 "late"]) ]))) 7) as [Hlook _].
  rewrite Hlook. vm_compute. reflexivity.
Defined.

(** Two pages list footnote 7 and one entry has the number 0: the
    inventory holds one record, the one of the later page. *)
Example extract_fn_inventory_two_pages :
  map_to_list
    (_extract_fn_inventory
       (default [] (Result.pages
          (Sample.classified
             [ (3, [Sample.footnote 7 "early"; Sample.footnote 0 "none"]);
               (5, [Sample.footnote 7 "late"]) ]))))
  = [ (7, {| FnRecord.page := 5;
             FnRecord.merge_status := lit "merged";
             FnRecord.merge_location := [];
             FnRecord._llm_text := lit "late";
             FnRecord._original_page := None |}) ].
Proof. vm_compute. reflexivity. Qed.


(** ** The marker survey and the page correction *)

Lemma marker_pages_sites blocks :
  marker_pages blocks
  = foldl (λ acc site, add_marker site.1 acc site.2) ∅ (marker_sites blocks).
Proof.
  unfold marker_pages, marker_sites.
  generalize (∅ : gmap Z (gset Z)). induction blocks as [|b blocks IH]; intros acc.
  { done. }
  rewrite bind_cons, foldl_app. cbn [foldl]. rewrite IH. f_equal.
  clear IH. revert acc.
  induction (Block.lines b) as [|line lines IH]; intros acc; [done|].
  rewrite !bind_cons, !foldl_app, IH. f_equal.
  clear IH. revert acc.
  induction (markers line) as [|n ns IH]; intros acc; [done|].
  rewrite bind_cons. cbn [foldl app]. by rewrite IH.
Qed.

Lemma add_marker_lookup p acc n m q :
  q ∈ default ∅ (add_marker p acc n !! m)
  ↔ q ∈ default ∅ (acc !! m) ∨ (q = p ∧ m = n).
Proof.
  unfold add_marker. destruct (decide (n = m)) as [->|Hne].
  - rewrite lookup_insert_eq. simpl.
    rewrite elem_of_union, elem_of_singleton.
    split; [intros [?|?]; auto | intros [?|[? _]]; auto].
  - rewrite lookup_insert_ne by done.
    split; [auto | intros [?|[_ ?]]; [done|congruence]].
Qed.

Lemma foldl_add_marker_lookup sites acc m q :
  q ∈ default ∅ (foldl (λ acc site, add_marker site.1 acc site.2)
                   acc sites !! m)
  ↔ q ∈ default ∅ (acc !! m) ∨ (q, m) ∈ sites.
Proof.
  revert acc. induction sites as [|[p n] sites IH]; intros acc.
  - simpl. rewrite elem_of_nil. split; [auto | intros [?|[]]; done].
  - cbn [foldl]. rewrite IH, add_marker_lookup, elem_of_cons. cbn [fst snd].
    split.
    + intros [[?|[-> ->]]|?]; auto.
    + intros [?|[[= -> ->]|?]]; auto.
Qed.

Lemma foldl_add_marker_nonempty sites acc :
  (∀ m s, acc !! m = Some s → s ≠ ∅) →
  ∀ m s, foldl (λ acc site, add_marker site.1 acc site.2) acc sites !! m
         = Some s → s ≠ ∅.
Proof.
  revert acc. induction sites as [|[p n] sites IH]; intros acc Hacc; [done|].
  cbn [foldl]. apply IH. intros m s. unfold add_marker. cbn [fst snd].
  destruct (decide (n = m)) as [->|Hne].
  - rewrite lookup_insert_eq. intros [= <-].
    intros Hempty. assert (p ∈ (∅ : gset Z)) as Hin; [|by apply elem_of_empty in Hin].
    rewrite <- Hempty. apply elem_of_union. left. by apply elem_of_singleton.
  - rewrite lookup_insert_ne by done. apply Hacc.
Qed.

Lemma elem_of_marker_sites blocks p n :
  (p, n) ∈ marker_sites blocks ↔ marker_on_page blocks n p.
Proof.
  unfold marker_sites, marker_on_page. rewrite list_elem_of_bind. split.
  - intros (b & Hin & Hb). apply list_elem_of_bind in Hin as (line & Hin & Hl).
    apply list_elem_of_bind in Hin as (k & Hin & Hk).
    apply list_elem_of_singleton in Hin. injection Hin as -> ->.
    by exists b, line.
  - intros (b & line & Hb & <- & Hl & Hn). exists b. split; [|done].
    apply list_elem_of_bind. exists line. split; [|done].
    apply list_elem_of_bind. exists n. split; [|done].
    by apply list_elem_of_singleton.
Qed.

(** The survey set of a number is the set of the pages with a marker of
    it, and it is never empty. *)
Lemma marker_pages_spec blocks n p :
  p ∈ default ∅ (marker_pages blocks !! n) ↔ marker_on_page blocks n p.
Proof.
  rewrite marker_pages_sites, foldl_add_marker_lookup, lookup_empty.
  rewrite elem_of_marker_sites. cbn [default].
  rewrite elem_of_empty. split; [intros [[]|?]; done | auto].
Qed.

Lemma marker_pages_nonempty blocks n s :
  marker_pages blocks !! n = Some s → s ≠ ∅.
Proof.
  rewrite marker_pages_sites. apply foldl_add_marker_nonempty.
  intros m s'. by rewrite lookup_empty.
Qed.

(** C3, as amended. The survey set of a footnote number is the set of the
    pages where its marker token occurs, as an inline reference or at the
    head of a trailing text block. Every location record of a (non-empty)
    inventory keeps its place in the corrected inventory. When the survey
    set of its number is empty, the record is left as it is. When the
    survey set is not empty and the claimed page is absent from it, the
    page of the record becomes the least page of the survey set, and the
    claimed page is kept in the audit field; the other fields are not
    touched. (A record whose claimed page is in the survey set is left as
    it is.) *)
Theorem correct_attribution_spec blocks fns n data :
  fns !! n = Some data →
  ∃ data',
    correct_attribution (marker_pages blocks) fns !! n = Some data'
    ∧ ((∀ p, ¬ marker_on_page blocks n p) → data' = data)
    ∧ (marker_on_page blocks n (FnRecord.page data) → data' = data)
    ∧ (¬ marker_on_page blocks n (FnRecord.page data) →
       (∃ p, marker_on_page blocks n p) →
       marker_on_page blocks n (FnRecord.page data')
       ∧ (∀ q, marker_on_page blocks n q → FnRecord.page data' ≤ q)
       ∧ FnRecord._original_page data' = Some (FnRecord.page data)
       ∧ FnRecord.merge_status data' = FnRecord.merge_status data
       ∧ FnRecord.merge_location data' = FnRecord.merge_location data
       ∧ FnRecord._llm_text data' = FnRecord._llm_text data).
Proof.
  intros Hn. exists (correct_page (marker_pages blocks) n data).
  split.
  { unfold correct_attribution. by rewrite map_lookup_imap, Hn. }
  unfold correct_page.
  pose proof (marker_pages_spec blocks n) as Hspec.
  pose proof (marker_pages_nonempty blocks n) as Hne.
  destruct (marker_pages blocks !! n) as [survey|]; cbn [default] in Hspec.
  - specialize (Hne survey eq_refl).
    destruct (set_min_spec survey Hne) as [Hmin Hleast].
    case_bool_decide as Hclaimed.
    + split; [|split].
      * intros Hnone. exfalso. by apply (Hnone (set_min survey)), Hspec.
      * intros Hon. by apply Hspec in Hon.
      * intros _ _. cbn. split; [by apply Hspec|].
        split; [|done]. intros q Hq. by apply Hleast, Hspec.
    + split; [done|]. split; [done|].
      intros Hnot. exfalso. by apply Hnot, Hspec.
  - split; [done|]. split; [done|].
    intros _ [p Hp]. apply Hspec in Hp. by apply elem_of_empty in Hp.
Qed.

Lemma correct_attribution_spec_witness :
  ∃ data',
    correct_attribution (marker_pages (split_into_pages Sample.brief).2)
      {[ 7 := Sample.record_on_page_5 ]} !! 7 = Some data'
    ∧ FnRecord.page data' = 8
    ∧ FnRecord._original_page data' = Some 5.
Proof.
  assert (∀ p, marker_on_page (split_into_pages Sample.brief).2 7 p
               ↔ p ∈ [8; 9]) as Hsurvey.
  { intros p. rewrite <- marker_pages_spec, <- sorted_elem_of.
    replace (sorted (default ∅
               (marker_pages (split_into_pages Sample.brief).2 !! 7)))
      with [8; 9] by (vm_compute; reflexivity).
    done. }
  destruct (correct_attribution_spec (split_into_pages Sample.brief).2
              {[ 7 := Sample.record_on_page_5 ]} 7 Sample.record_on_page_5)
    as (data' & Hlook & _ & _ & Hfix).
  { apply lookup_singleton_eq. }
  exists data'. split; [exact Hlook|].
  destruct Hfix as (Hon & Hleast & Horig & _).
  - intros H5%Hsurvey. cbn in H5.
    apply elem_of_cons in H5 as [?|H5]; [done|].
    apply elem_of_cons in H5 as [?|H5]; [done|].
    by apply elem_of_nil in H5.
  - exists 8. apply Hsurvey. constructor.
  - split; [|exact Horig].
    assert (FnRecord.page data' ≤ 8) as Hle.
    { apply Hleast, Hsurvey. constructor. }
    apply Hsurvey in Hon.
    apply elem_of_cons in Hon as [?|Hon]; [done|].
    apply elem_of_cons in Hon as [?|Hon]; [lia|].
    by apply elem_of_nil in Hon.
Defined.

(** The example of the specification, evaluated: the record that claims
    page 5 for footnote 7, cited only on pages 8 and 9, moves to page 8
    and keeps 5 in its audit field. *)
Example correct_attribution_7 :
  sorted (default ∅ (marker_pages (split_into_pages Sample.brief).2 !! 7))
  = [8; 9]
  ∧ (λ data', (FnRecord.page data', FnRecord._original_page data'))
      <$> (correct_attribution (marker_pages (split_into_pages Sample.brief).2)
             {[ 7 := Sample.record_on_page_5 ]} !! 7)
    = Some (8, Some 5).
Proof. split; vm_compute; reflexivity. Qed.

(** C3 as stated fails: with the text of footnote 7 printed on page 5, the
    inline references still occur only on pages 8 and 9, yet the record
    that claims page 5 is not corrected: the token at the head of the
    text block puts page 5 in the survey set. *)
Lemma correct_attribution_counterexample :
  sorted (inline_marker_pages
            (split_into_pages Sample.brief_printed_on_5).2 7) = [8; 9]
  ∧ sorted (default ∅
              (marker_pages (split_into_pages Sample.brief_printed_on_5).2
               !! 7)) = [5; 8; 9]
  ∧ (λ data', (FnRecord.page data', FnRecord._original_page data'))
      <$> (correct_attribution
             (marker_pages (split_into_pages Sample.brief_printed_on_5).2)
             {[ 7 := Sample.record_on_page_5 ]} !! 7)
    = Some (5, None)
  ∧ (5, None : option Z) ≠ (8, Some 5).
Proof. repeat split; try (vm_compute; reflexivity). done. Qed.


(** ** Footnote text extraction *)

Lemma extract_as_inserts lines :
  extract_ocr_footnotes lines
  = foldl (λ m e, <[e.1 := e.2]> m) ∅ (text_blocks_of lines).
Proof.
  unfold extract_ocr_footnotes, text_blocks_of.
  rewrite <- foldl_insert_omap. apply foldl_ext_eq.
  intros m line. unfold extract_step, text_block_of.
  by destruct (match_text_block line) as [[n g]|].
Qed.

(** On one page, the last text block of a number gives its text. *)
Lemma extract_ocr_footnotes_lookup lines n :
  extract_ocr_footnotes lines !! n
  = snd <$> last (filter (λ e, e.1 = n) (text_blocks_of lines)).
Proof.
  rewrite extract_as_inserts, foldl_insert_lookup.
  by destruct (last (filter _ _)).
Qed.

Lemma ocr_texts_foldl blocks acc n :
  foldl (λ acc block, extract_ocr_footnotes (Block.lines block) ∪ acc)
        acc blocks !! n
  = match last (filter (λ e, e.1 = n) (text_blocks blocks)) with
    | Some e => Some e.2
    | None => acc !! n
    end.
Proof.
  revert acc. induction blocks as [|b blocks IH]; intros acc; [done|].
  cbn [foldl]. rewrite IH. unfold text_blocks. rewrite bind_cons.
  fold (text_blocks blocks). rewrite filter_app, last_app.
  destruct (last (filter _ (text_blocks blocks))); [done|].
  rewrite lookup_union, extract_ocr_footnotes_lookup.
  destruct (last (filter _ (text_blocks_of _))); simpl;
    by destruct (acc !! n).
Qed.

Lemma ocr_texts_lookup blocks n : ocr_texts blocks !! n = last_text n blocks.
Proof.
  unfold ocr_texts, last_text. rewrite ocr_texts_foldl.
  by destruct (last (filter _ _)).
Qed.


(** ** [remove_fn_text_blocks] *)

Lemma expect_Some p s r : expect p s = Some r → s = p ++ r.
Proof.
  revert s. induction p as [|a p IH]; intros s; simpl.
  - destruct s; by intros [= ->].
  - destruct s as [|b s]; [done|]. case_bool_decide as Hab; [|done].
    intros Hr%IH. by subst.
Qed.

(** A trailing text block is not a blank line. *)
Lemma text_block_not_blank line n group2 :
  match_text_block line = Some (n, group2) → is_blank line = false.
Proof.
  unfold match_text_block, match_marker. intros H.
  destruct (expect [DOLLAR] (lstrip line)) as [s1|] eqn:E1; [|done].
  apply expect_Some in E1.
  unfold is_blank. apply negb_false_iff, nonempty_true.
  intros Hs. apply strip_nil_all in Hs.
  apply lstrip_all in Hs. by rewrite Hs in E1.
Qed.

Lemma fn_line_indices_spec lines nums i :
  i ∈ fn_line_indices lines nums ↔ block_line lines nums i.
Proof.
  unfold fn_line_indices, block_line.
  rewrite elem_of_list_to_set, list_elem_of_omap. split.
  - intros ([k line] & Hin & Hf).
    apply elem_of_lookup_imap in Hin as (k' & line' & [= -> ->] & Hl).
    destruct (match_text_block line') as [[n g]|] eqn:Hm; [|done].
    case_bool_decide; [|done]. injection Hf as ->. eauto 10.
  - intros (line & n & g & Hl & Hm & Hn). exists (i, line). split.
    + apply elem_of_lookup_imap. eauto.
    + by rewrite Hm, bool_decide_eq_true_2.
Qed.

Lemma next_content_spec lines i j :
  next_content lines i = Some j ↔
    (i < j)%nat
    ∧ (∃ l, lines !! j = Some l ∧ is_blank l = false)
    ∧ ∀ k, (i < k < j)%nat → blank_line lines k.
Proof.
  unfold next_content. rewrite fmap_Some. split.
  - intros ([k l] & Hfind & ->). apply list_find_Some in Hfind as (Hl & HP & Hfirst).
    rewrite lookup_drop in Hl. cbn [fst].
    split; [lia|]. split.
    + exists l. split; [|done]. rewrite <- Hl. f_equal. lia.
    + intros k' Hk'.
      destruct (lookup_lt_is_Some_2 lines k') as [y Hy].
      { apply lookup_lt_Some in Hl. lia. }
      exists y. split; [done|].
      destruct (is_blank y) eqn:Hb; [done|]. exfalso.
      apply (Hfirst (k' - S i)%nat y); [|lia|done].
      rewrite lookup_drop, <- Hy. f_equal. lia.
  - intros (Hij & (l & Hl & Hb) & Hbetween).
    exists ((j - S i)%nat, l). split; [|cbn [fst]; lia].
    apply list_find_Some. split; [|split; [done|]].
    + rewrite lookup_drop, <- Hl. f_equal. lia.
    + intros m y Hy Hm Hnb. rewrite lookup_drop in Hy.
      destruct (Hbetween (S i + m)%nat) as (y' & Hy' & Hb'); [lia|].
      congruence.
Qed.

Lemma prev_content_spec lines i j :
  (i < length lines)%nat →
  prev_content lines i = Some j ↔
    (j < i)%nat
    ∧ (∃ l, lines !! j = Some l ∧ is_blank l = false)
    ∧ ∀ k, (j < k < i)%nat → blank_line lines k.
Proof.
  intros Hi. unfold prev_content. rewrite fmap_Some.
  assert (length (take i lines) = i) as Hlen by (rewrite length_take; lia).
  assert (∀ k, (k < i)%nat →
               reverse (take i lines) !! k = lines !! (i - S k)%nat) as Hrev.
  { intros k Hk. rewrite reverse_lookup by lia.
    rewrite Hlen. apply lookup_take_lt. lia. }
  split.
  - intros ([k l] & Hfind & ->).
    apply list_find_Some in Hfind as (Hl & HP & Hfirst).
    assert (k < i)%nat as Hk.
    { apply lookup_lt_Some in Hl. rewrite length_reverse in Hl. lia. }
    rewrite Hrev in Hl by done. cbn [fst].
    split; [lia|]. split.
    + exists l. split; [|done]. rewrite <- Hl. f_equal. lia.
    + intros k' Hk'.
      destruct (lookup_lt_is_Some_2 lines k') as [y Hy]; [lia|].
      exists y. split; [done|].
      destruct (is_blank y) eqn:Hb; [done|]. exfalso.
      apply (Hfirst (i - S k')%nat y); [|lia|done].
      rewrite Hrev by lia. rewrite <- Hy. f_equal. lia.
  - intros (Hji & (l & Hl & Hb) & Hbetween).
    exists ((i - S j)%nat, l). split; [|cbn [fst]; lia].
    apply list_find_Some. split; [|split; [done|]].
    + rewrite Hrev by lia. rewrite <- Hl. f_equal. lia.
    + intros m y Hy Hm Hnb. rewrite Hrev in Hy by lia.
      destruct (Hbetween (i - S m)%nat) as (y' & Hy' & Hb'); [lia|].
      congruence.
Qed.

Lemma opt_in_true x s : opt_in x s = true ↔ ∃ j, x = Some j ∧ j ∈ s.
Proof.
  destruct x as [j|]; simpl.
  - rewrite bool_decide_eq_true. split; [eauto|]. by intros (? & [= <-] & ?).
  - split; [done|]. by intros (? & ? & ?).
Qed.

(** The second loop skips exactly the lines to delete. *)
Lemma skipped_spec lines nums i line :
  lines !! i = Some line →
  skipped lines (fn_line_indices lines nums) i line = true
  ↔ deleted lines nums i.
Proof.
  intros Hl. pose proof (lookup_lt_Some _ _ _ Hl) as Hi.
  unfold skipped, deleted. split.
  - case_bool_decide as Hidx.
    { intros _. left. by apply fn_line_indices_spec. }
    destruct (is_blank line) eqn:Hb; [|done].
    destruct (opt_in (next_content lines i) _) eqn:Hnext.
    + intros _. right. split; [by exists line|].
      apply opt_in_true in Hnext as (j & Hj & Hin).
      apply next_content_spec in Hj as (Hij & _ & Hbetween).
      exists j. split; [by apply fn_line_indices_spec|].
      intros k [Hk|Hk]; [by apply Hbetween|lia].
    + destruct (opt_in (prev_content lines i) _) eqn:Hprev; [|done].
      intros _. right. split; [by exists line|].
      apply opt_in_true in Hprev as (j & Hj & Hin).
      apply prev_content_spec in Hj as (Hij & _ & Hbetween); [|done].
      exists j. split; [by apply fn_line_indices_spec|].
      intros k [Hk|Hk]; [lia|by apply Hbetween].
  - intros [Hblock|((line' & Hl' & Hb) & j & Hblock & Hbetween)].
    { apply fn_line_indices_spec in Hblock.
      by rewrite bool_decide_eq_true_2. }
    assert (line' = line) as -> by congruence.
    case_bool_decide; [done|]. rewrite Hb.
    pose proof Hblock as (lj & nj & gj & Hlj & Hmj & _).
    pose proof (text_block_not_blank _ _ _ Hmj) as Hnb.
    apply fn_line_indices_spec in Hblock.
    assert (j ≠ i) as Hne by (intros ->; congruence).
    destruct (decide (i < j)%nat) as [Hlt|Hge].
    + assert (next_content lines i = Some j) as ->.
      { apply next_content_spec. split; [done|]. split; [eauto|].
        intros k Hk. apply Hbetween. by left. }
      simpl. by rewrite bool_decide_eq_true_2.
    + assert (prev_content lines i = Some j) as ->.
      { apply prev_content_spec; [done|]. split; [lia|]. split; [eauto|].
        intros k Hk. apply Hbetween. by right. }
      destruct (opt_in (next_content lines i) _); [done|].
      simpl. by rewrite bool_decide_eq_true_2.
Qed.

Lemma snd_imap_pair {A} (f : nat → nat) (l : list A) :
  (imap (λ i x, (f i, x)) l).*2 = l.
Proof.
  revert f. induction l as [|x l IH]; intros f; [done|].
  rewrite imap_cons, fmap_cons. cbn [snd]. f_equal. apply (IH (f ∘ S)).
Qed.

Lemma elem_of_imap_pair {A} (l : list A) i x :
  (i, x) ∈ imap pair l ↔ l !! i = Some x.
Proof.
  rewrite elem_of_lookup_imap. split.
  - by intros (i' & y & [= -> ->] & Hl).
  - intros Hl. by exists i, x.
Qed.

(** C5, as amended. The lines that stay are the lines that are not
    deleted, in their order; a line is deleted exactly when it is a
    trailing text block of an applicable number, or a blank line that
    only blank lines separate from such a block: the whole run of blank
    lines before and after each removed block goes with it. *)
Theorem remove_fn_text_blocks_spec lines nums :
  ∃ kept : list (nat * str),
    remove_fn_text_blocks lines nums = kept.*2
    ∧ kept `sublist_of` imap pair lines
    ∧ ∀ i line,
        (i, line) ∈ kept ↔ lines !! i = Some line ∧ ¬ deleted lines nums i.
Proof.
  unfold remove_fn_text_blocks. case_bool_decide as Hempty.
  - exists (imap pair lines). split; [|split].
    + symmetry. apply (snd_imap_pair id).
    + done.
    + intros i line. rewrite elem_of_imap_pair.
      split; [|by intros [? _]]. intros Hl. split; [done|].
      assert (∀ j, ¬ block_line lines nums j) as Hnone.
      { intros j Hj%fn_line_indices_spec. rewrite Hempty in Hj.
        by apply elem_of_empty in Hj. }
      intros [Hb|(_ & j & Hb & _)]; by eapply Hnone.
  - eexists. split; [reflexivity|]. split; [apply sublist_filter|].
    intros i line. rewrite list_elem_of_filter, elem_of_imap_pair. cbn [fst snd].
    split.
    + intros [Hskip Hl]. split; [done|].
      intros Hdel%(skipped_spec _ _ _ _ Hl). congruence.
    + intros [Hl Hnot]. split; [|done].
      destruct (skipped lines _ i line) eqn:Hs; [|done].
      exfalso. by apply Hnot, (skipped_spec _ _ _ _ Hl).
Qed.

Lemma remove_fn_text_blocks_spec_witness :
  ∃ kept : list (nat * str),
    remove_fn_text_blocks
      [ lit "Body text."; []; lit "$ ^{1} $ Footnote text." ] {[ 1 ]}
    = kept.*2
    ∧ (0%nat, lit "Body text.") ∈ kept.
Proof.
  destruct (remove_fn_text_blocks_spec
              [ lit "Body text."; []; lit "$ ^{1} $ Footnote text." ] {[ 1 ]})
    as (kept & Heq & _ & Hkept).
  exists kept. split; [exact Heq|].
  apply Hkept. split; [reflexivity|].
  intros [(line & n & g & Hl & Hm & _)|((line & Hl & Hb) & _)];
    change (Some (lit "Body text.") = Some line) in Hl; injection Hl as <-.
  - vm_compute in Hm. discriminate.
  - vm_compute in Hb. discriminate.
Defined.

(** C5 as stated fails: both blank lines before the block are deleted,
    not at most one, and with them the blank lines that kept the
    paragraphs before and after the block apart. *)
Lemma remove_fn_text_blocks_counterexample :
  remove_fn_text_blocks
    [ lit "Body text."; []; lit "  ";
      lit "$ ^{1} $ Footnote text."; [];
      lit "Next paragraph." ]
    {[ 1 ]}
  = [ lit "Body text."; lit "Next paragraph." ]
  ∧ (length [ lit "Body text."; lit "Next paragraph." ] < 6 - 3)%nat.
Proof. split; [vm_compute; reflexivity|simpl; lia]. Qed.

(** A blank line between two paragraphs that are kept stays, and so does
    the block of a number that is not applicable. *)
Example remove_fn_text_blocks_keeps :
  remove_fn_text_blocks
    [ lit "First paragraph."; []; lit "Second paragraph."; [];
      lit "$ ^{1} $ Footnote one."; lit "$ ^{2} $ Footnote two." ]
    {[ 1 ]}
  = [ lit "First paragraph."; []; lit "Second paragraph.";
      lit "$ ^{2} $ Footnote two." ].
Proof. vm_compute. reflexivity. Qed.


(** ** [process_document] without location records *)

Lemma process_block_output fns texts blocks st :
  output_parts (foldl (process_block fns texts) st blocks)
  = output_parts st
    ++ (b ← blocks;
        [ Block.start_delim b;
          join_lines (merged_lines (Block.lines b) (page_fns_of fns texts b));
          Block.end_delim b ]).
Proof.
  revert st. induction blocks as [|b blocks IH]; intros st.
  - simpl. by rewrite app_nil_r.
  - cbn [foldl]. rewrite IH, bind_cons. cbn [process_block output_parts].
    by rewrite <- app_assoc.
Qed.

Lemma process_block_stats fns texts blocks st b n :
  b ∈ blocks → n ∈ dom (page_fns_of fns texts b) →
  ∃ ps, ps ∈ page_stats (foldl (process_block fns texts) st blocks)
        ∧ PageStat.page ps = Block.page_number b
        ∧ n ∈ PageStat.fn_numbers ps.
Proof.
  intros Hb Hn.
  assert (∀ blocks st ps,
            ps ∈ page_stats st →
            ps ∈ page_stats (foldl (process_block fns texts) st blocks))
    as Hkeep.
  { clear. intros blocks. induction blocks as [|b blocks IH]; intros st ps Hps.
    - done.
    - cbn [foldl]. apply IH. cbn [process_block page_stats].
      apply elem_of_app. by left. }
  revert st. induction blocks as [|b' blocks IH]; intros st.
  { by apply elem_of_nil in Hb. }
  apply elem_of_cons in Hb as [->|Hb]; [|by apply IH].
  cbn [foldl].
  eexists. split.
  - apply Hkeep. cbn [process_block page_stats]. apply elem_of_app. right.
    rewrite bool_decide_eq_false_2.
    + cbn [negb]. apply list_elem_of_singleton. reflexivity.
    + intros Hempty. rewrite Hempty, dom_empty_L in Hn.
      by apply elem_of_empty in Hn.
  - cbn. split; [done|]. by apply sorted_elem_of.
Qed.

Lemma elem_of_block_numbers lines n :
  n ∈ block_numbers lines
  ↔ ∃ line group2, line ∈ lines ∧ match_text_block line = Some (n, group2).
Proof.
  unfold block_numbers. rewrite elem_of_dom, extract_ocr_footnotes_lookup.
  rewrite fmap_is_Some, last_is_Some. split.
  - intros Hne. destruct (filter _ _) as [|[k t] rest] eqn:Hf; [done|].
    assert ((k, t) ∈ filter (λ e : Z * str, e.1 = n) (text_blocks_of lines))
      as Hin by (rewrite Hf; constructor).
    apply list_elem_of_filter in Hin as [Hk Hin]. cbn in Hk. subst k.
    apply list_elem_of_omap in Hin as (line & Hl & Ht).
    unfold text_block_of in Ht.
    destruct (match_text_block line) as [[n' g]|] eqn:Hm; [|done].
    injection Ht as -> _. eauto.
  - intros (line & g & Hl & Hm) Hnil.
    assert ((n, strip g) ∈ filter (λ e : Z * str, e.1 = n)
              (text_blocks_of lines)) as Hin.
    { apply list_elem_of_filter. split; [done|].
      apply list_elem_of_omap. exists line. split; [done|].
      unfold text_block_of. by rewrite Hm. }
    rewrite Hnil in Hin. by apply elem_of_nil in Hin.
Qed.

(** Without location records every trailing text block of a page is
    applicable, so none is left on the page. *)
Lemma fallback_removes_blocks lines line :
  line ∈ remove_fn_text_blocks lines (block_numbers lines) →
  match_text_block line = None.
Proof.
  assert (∀ i l n g,
            lines !! i = Some l → match_text_block l = Some (n, g) →
            i ∈ fn_line_indices lines (block_numbers lines)) as Hblock.
  { intros i l n g Hl Hm. apply fn_line_indices_spec.
    exists l, n, g. split; [done|]. split; [done|].
    apply elem_of_block_numbers. exists l, g. split; [|done].
    by eapply list_elem_of_lookup_2. }
  unfold remove_fn_text_blocks. case_bool_decide as Hempty.
  - intros (i & Hl)%list_elem_of_lookup_1.
    destruct (match_text_block line) as [[n g]|] eqn:Hm; [|done].
    pose proof (Hblock i line n g Hl Hm) as Hin.
    rewrite Hempty in Hin. by apply elem_of_empty in Hin.
  - intros ([i l] & -> & Hin)%list_elem_of_fmap. cbn [snd].
    apply list_elem_of_filter in Hin as [Hskip Hin]. cbn [fst snd] in Hskip.
    apply elem_of_imap_pair in Hin.
    destruct (match_text_block l) as [[n g]|] eqn:Hm; [|done].
    pose proof (Hblock i l n g Hin Hm) as Hidx.
    unfold skipped in Hskip. by rewrite bool_decide_eq_true_2 in Hskip.
Qed.

Lemma remove_sublist lines nums :
  remove_fn_text_blocks lines nums `sublist_of` lines.
Proof.
  unfold remove_fn_text_blocks. case_bool_decide; [done|].
  pose proof (sublist_filter
                (λ p : nat * str,
                   skipped lines (fn_line_indices lines nums) p.1 p.2 = false)
                (imap pair lines)) as Hsub.
  apply (fmap_sublist snd) in Hsub.
  replace ((imap pair lines).*2) with lines in Hsub; [done|].
  symmetry. apply (snd_imap_pair id).
Qed.

(** C2, as amended. Without location records the document written is the
    preamble followed by each page between its delimiters, and a page is
    resolved from its own trailing text blocks alone. A page without a
    trailing text block is written unchanged: an inline reference marker
    on it stays a marker, also when the text block of its number sits on
    a later page. On a page with trailing text blocks, all of them are
    removed (with lines of the page only, in their order, left), the
    markers of the lines left are replaced from the texts of this page,
    and each number printed on the page is listed in the diagnostics of
    this page. *)
Theorem fallback_resolution content :
  (process_document content None).1
  = document_of (split_into_pages content).1 (split_into_pages content).2
      (λ b, merged_lines (Block.lines b)
              (page_fns_ocr (Block.lines b) (Block.page_number b)))
  ∧ ∀ b,
      b ∈ (split_into_pages content).2 →
      (block_numbers (Block.lines b) = ∅ →
       merged_lines (Block.lines b)
         (page_fns_ocr (Block.lines b) (Block.page_number b))
       = Block.lines b)
      ∧ (block_numbers (Block.lines b) ≠ ∅ →
         ∃ cleaned,
           cleaned `sublist_of` Block.lines b
           ∧ (∀ line, line ∈ cleaned → match_text_block line = None)
           ∧ merged_lines (Block.lines b)
               (page_fns_ocr (Block.lines b) (Block.page_number b))
             = merge_refs_inline cleaned
                 (page_fns_ocr (Block.lines b) (Block.page_number b)))
      ∧ (∀ n, n ∈ block_numbers (Block.lines b) →
           ∃ ps, ps ∈ Stats.page_details (process_document content None).2
                 ∧ PageStat.page ps = Block.page_number b
                 ∧ n ∈ PageStat.fn_numbers ps).
Proof.
  unfold process_document.
  destruct (split_into_pages content) as [preamble blocks] eqn:Hsplit.
  cbn [fst snd truthy_dict fmap option_fmap option_map].
  split.
  - rewrite process_block_output. cbn [output_parts]. reflexivity.
  - intros b Hb.
    assert (dom (page_fns_ocr (Block.lines b) (Block.page_number b))
            = block_numbers (Block.lines b)) as Hdom.
    { unfold page_fns_ocr, block_numbers. by rewrite dom_fmap_L. }
    split; [|split].
    + intros Hnone. unfold merged_lines.
      rewrite bool_decide_eq_true_2; [done|].
      apply dom_empty_iff_L. by rewrite Hdom.
    + intros Hsome. unfold merged_lines.
      rewrite bool_decide_eq_false_2.
      2:{ intros Hempty. apply Hsome. rewrite <- Hdom, Hempty.
          apply dom_empty_L. }
      rewrite Hdom.
      exists (remove_fn_text_blocks (Block.lines b)
                (block_numbers (Block.lines b))).
      split; [apply remove_sublist|]. split; [|done].
      intros line. apply fallback_removes_blocks.
    + intros n Hn. cbn [Stats.page_details].
      apply (process_block_stats None); [done|].
      cbn [page_fns_of]. by rewrite Hdom.
Qed.

Lemma fallback_resolution_witness :
  (process_document Sample.cited_then_printed None).1
  = join_lines
      (Sample.page_text 1 [ lit "The court agreed.$ ^{1} $ See below." ]
       ++ Sample.page_text 2 [ lit "The discussion continues." ])
  ∧ ∃ ps, ps ∈ Stats.page_details
                 (process_document Sample.cited_then_printed None).2
          ∧ PageStat.page ps = 2 ∧ 1 ∈ PageStat.fn_numbers ps.
Proof.
  destruct (fallback_resolution Sample.cited_then_printed) as [Hout Hpages].
  split.
  - rewrite Hout. vm_compute. reflexivity.
  - destruct (Hpages
                {| Block.page_number := 2;
                   Block.start_delim := lit "---[Start PDF page 2]---";
                   Block.lines :=
                     [ lit "The discussion continues."; [];
                       lit "$ ^{1} $ Smith v. Jones, 1 Cal. 2 (1990)." ];
                   Block.end_delim := lit "---[End PDF page 2]---" |})
      as (_ & _ & Hstat).
    + vm_compute. apply list_elem_of_further, list_elem_of_here.
    + apply (Hstat 1). apply elem_of_block_numbers.
      exists (lit "$ ^{1} $ Smith v. Jones, 1 Cal. 2 (1990)."),
             (lit "Smith v. Jones, 1 Cal. 2 (1990).").
      split; [|vm_compute; reflexivity].
      apply list_elem_of_further, list_elem_of_further, list_elem_of_here.
Defined.

(** C2 as stated fails: footnote 1 is cited on page 1 and printed on page
    2; the text block is removed from page 2, but page 1 is written as it
    was: the marker is not replaced with an annotation. The diagnostics
    list the footnote on page 2, merged there with the token at the head
    of its own text block. *)
Lemma fallback_resolution_counterexample :
  process_document Sample.cited_then_printed None
  = (join_lines
       (Sample.page_text 1 [ lit "The court agreed.$ ^{1} $ See below." ]
        ++ Sample.page_text 2 [ lit "The discussion continues." ]),
     {| Stats.source := lit "ocr_only";
        Stats.total_found := 1;
        Stats.total_merged := 1;
        Stats.total_unmatched := 0;
        Stats.total_no_ocr_text := 0;
        Stats.pages_with_footnotes := 1;
        Stats.page_details :=
          [ {| PageStat.page := 2;
               PageStat.fn_numbers := [1];
               PageStat.merged_refs := [1];
               PageStat.unmatched := [];
               PageStat.no_ocr_text := [] |} ] |})
  ∧ lit "The court agreed.$ ^{1} $ See below."
    ≠ lit "The court agreed."
      ++ annotation 1 (lit "Smith v. Jones, 1 Cal. 2 (1990).")
      ++ lit " See below.".
Proof. split; [vm_compute; reflexivity|]. vm_compute. discriminate. Qed.


(** ** The text that replaces a marker *)

(** The text blocks of a document of one page are those of the page. *)
Lemma last_text_page b n :
  extract_ocr_footnotes (Block.lines b) !! n = last_text n [b].
Proof.
  rewrite extract_ocr_footnotes_lookup. unfold last_text, text_blocks.
  rewrite bind_cons. change (@nil Block.t ≫= _) with (@nil (Z * str)).
  by rewrite app_nil_r.
Qed.

Lemma page_fns_classified_lookup fns texts pg n :
  page_fns_classified fns texts pg !! n
  = data ← fns !! n;
    if bool_decide (FnRecord.page data = pg)
    then Some {| PageFn.fn_text := default [] (texts !! n);
                 PageFn.page := pg;
                 PageFn._llm_text := Some (FnRecord._llm_text data);
                 PageFn._text_source :=
                   if nonempty (default [] (texts !! n)) then lit "ocr"
                   else lit "none" |}
    else None.
Proof. unfold page_fns_classified. by rewrite map_lookup_imap. Qed.

Lemma page_fns_ocr_lookup lines pg n :
  PageFn.fn_text <$> page_fns_ocr lines pg !! n
  = extract_ocr_footnotes lines !! n.
Proof.
  unfold page_fns_ocr. rewrite lookup_fmap.
  by destruct (extract_ocr_footnotes lines !! n).
Qed.

Lemma replace_ref_text page_fns n group0 :
  replace_ref page_fns n group0
  = match PageFn.fn_text <$> page_fns !! n with
    | Some text => if nonempty text then annotation n text else group0
    | None => group0
    end.
Proof. unfold replace_ref. by destruct (page_fns !! n). Qed.

(** C9, as amended. The text kept for a footnote number in the map of
    the whole document is the text of its last trailing text block in
    document order: a block on a later page overwrites the blocks of the
    pages before it. With location records, [process_document] writes
    each page from the table of the records located on it (after the
    correction of their pages), and the text of a number in this table,
    on whatever page, is the text kept in the map of the whole document:
    it is the text of every annotation that replaces a marker of the
    number (a marker is left as it is when the text is empty). Without
    location records, [process_document] writes each page from the table
    of the page's own trailing text blocks: the text of a number is the
    text of the last block of the number on this page, whatever later
    pages print. *)
Theorem ocr_texts_last_write_wins content pre blocks :
  split_into_pages content = (pre, blocks) →
  (∀ n, ocr_texts blocks !! n = last_text n blocks)
  ∧ (∀ fns, fns ≠ ∅ →
       (process_document content (Some fns)).1
       = document_of pre blocks
           (λ b, merged_lines (Block.lines b)
                   (page_fns_of
                      (Some (correct_attribution (marker_pages blocks) fns))
                      (ocr_texts blocks) b))
       ∧ ∀ b n,
           PageFn.fn_text
             <$> page_fns_of
                   (Some (correct_attribution (marker_pages blocks) fns))
                   (ocr_texts blocks) b !! n
           = (data ← correct_attribution (marker_pages blocks) fns !! n;
              if bool_decide (FnRecord.page data = Block.page_number b)
              then Some (default [] (last_text n blocks)) else None)
           ∧ ∀ group0,
               replace_ref
                 (page_fns_of
                    (Some (correct_attribution (marker_pages blocks) fns))
                    (ocr_texts blocks) b) n group0
               = match correct_attribution (marker_pages blocks) fns !! n with
                 | Some data =>
                     if bool_decide (FnRecord.page data = Block.page_number b)
                        && nonempty (default [] (last_text n blocks))
                     then annotation n (default [] (last_text n blocks))
                     else group0
                 | None => group0
                 end)
  ∧ (process_document content None).1
    = document_of pre blocks
        (λ b, merged_lines (Block.lines b)
                (page_fns_of None (ocr_texts blocks) b))
  ∧ (∀ b n,
       PageFn.fn_text <$> page_fns_of None (ocr_texts blocks) b !! n
       = last_text n [b]
       ∧ ∀ group0,
           replace_ref (page_fns_of None (ocr_texts blocks) b) n group0
           = match last_text n [b] with
             | Some text => if nonempty text then annotation n text
                            else group0
             | None => group0
             end).
Proof.
  intros Hsplit. split; [|split; [|split]].
  - intros n. apply ocr_texts_lookup.
  - intros fns Hfns.
    assert (∀ b n,
              PageFn.fn_text
                <$> page_fns_of
                      (Some (correct_attribution (marker_pages blocks) fns))
                      (ocr_texts blocks) b !! n
              = (data ← correct_attribution (marker_pages blocks) fns !! n;
                 if bool_decide (FnRecord.page data = Block.page_number b)
                 then Some (default [] (last_text n blocks)) else None))
      as Htext.
    { intros b n. cbn [page_fns_of].
      rewrite page_fns_classified_lookup, ocr_texts_lookup.
      destruct (correct_attribution (marker_pages blocks) fns !! n)
        as [data|]; [|done].
      cbn. by case_bool_decide. }
    split.
    + unfold process_document. rewrite Hsplit. unfold truthy_dict.
      rewrite (bool_decide_eq_false_2 _ Hfns).
      cbn [fst fmap option_fmap option_map].
      rewrite process_block_output. cbn [output_parts]. reflexivity.
    + intros b n. split; [apply Htext|]. intros group0.
      rewrite replace_ref_text, Htext.
      destruct (correct_attribution (marker_pages blocks) fns !! n)
        as [data|]; [|done].
      cbn. by case_bool_decide.
  - unfold process_document. rewrite Hsplit.
    cbn [fst truthy_dict fmap option_fmap option_map].
    rewrite process_block_output. cbn [output_parts]. reflexivity.
  - intros b n. cbn [page_fns_of].
    assert (PageFn.fn_text
              <$> page_fns_ocr (Block.lines b) (Block.page_number b) !! n
            = last_text n [b]) as Htext
      by (by rewrite page_fns_ocr_lookup, last_text_page).
    split; [done|]. intros group0. by rewrite replace_ref_text, Htext.
Qed.

(** Footnote 1 is printed on both pages and located on page 1: with the
    location record, the marker of page 1 is replaced with the text of
    page 2, the last one of the document; page 2, with no record located
    on it, is written as it is. Without location records, each marker is
    replaced with the text of its own page. *)
Lemma ocr_texts_last_write_wins_witness :
  ocr_texts (split_into_pages Sample.twice_printed).2 !! 1
  = Some (lit "Second version.")
  ∧ (process_document Sample.twice_printed
       (Some {[ 1 := {| FnRecord.page := 1; FnRecord.merge_status := [];
                        FnRecord.merge_location := [];
                        FnRecord._llm_text := [];
                        FnRecord._original_page := None |} ]})).1
    = join_lines
        (Sample.page_text 1
           [ lit "The court held [FN1: Second version.] otherwise." ]
         ++ Sample.page_text 2
              [ lit "It later$ ^{1} $ agreed.";
                lit "$ ^{1} $ Second version." ])
  ∧ (process_document Sample.twice_printed None).1
    = join_lines
        (Sample.page_text 1
           [ lit "The court held [FN1: First version.] otherwise." ]
         ++ Sample.page_text 2
              [ lit "It later [FN1: Second version.] agreed." ]).
Proof.
  destruct (ocr_texts_last_write_wins Sample.twice_printed
              (split_into_pages Sample.twice_printed).1
              (split_into_pages Sample.twice_printed).2)
    as (Hlast & Hlocated & Hfallback & _).
  { vm_compute. reflexivity. }
  split; [|split].
  - rewrite Hlast. vm_compute. reflexivity.
  - edestruct Hlocated as [-> _]; [|vm_compute; reflexivity].
    apply (bool_decide_unpack _). vm_compute. exact I.
  - rewrite Hfallback. vm_compute. reflexivity.
Defined.

(** C9 as stated fails in the fallback path: footnote 1 is printed on
    both pages, the text kept for the document is the one of page 2, and
    the marker of page 1 is replaced with the text of page 1. *)
Lemma ocr_texts_counterexample :
  ocr_texts (split_into_pages Sample.twice_printed).2 !! 1
  = Some (lit "Second version.")
  ∧ (process_document Sample.twice_printed None).1
    = join_lines
        (Sample.page_text 1
           [ lit "The court held [FN1: First version.] otherwise." ]
         ++ Sample.page_text 2
              [ lit "It later [FN1: Second version.] agreed." ])
  ∧ lit "First version." ≠ lit "Second version.".
Proof. split; [|split]; try (vm_compute; reflexivity). done. Qed.

(** * Further properties of the code *)

(** ** [search_source_text]: what a found text is *)

Lemma lstrip_head_nonspace s : lstrip s ≠ [] → head_nonspace (lstrip s) = true.
Proof.
  induction s as [|c s IH]; simpl; [done|].
  destruct (isspace c) eqn:E; [done|]. intros _. simpl. by rewrite E.
Qed.

Lemma rstrip_last_nonspace s : rstrip s ≠ [] → last_nonspace (rstrip s) = true.
Proof.
  unfold rstrip, last_nonspace. rewrite reverse_involutive. intros H.
  apply lstrip_head_nonspace. intros E. apply H. by rewrite E.
Qed.

Lemma normalize_last_nonspace s :
  normalize s ≠ [] → last_nonspace (normalize s) = true.
Proof. unfold normalize, strip. apply rstrip_last_nonspace. Qed.

Lemma normalize_head_nonspace s :
  normalize s ≠ [] → head_nonspace (normalize s) = true.
Proof.
  unfold normalize, strip. intros H.
  set (x := lstrip (collapse isspace s)) in *.
  assert (x ≠ []) as Hx. { intros E. apply H. by rewrite E. }
  pose proof (lstrip_head_nonspace _ Hx) as Hh. fold x in Hh.
  destruct (rstrip_prefix x) as [k Hk].
  destruct (rstrip x) as [|c r] eqn:E; [done|].
  rewrite Hk in Hh. exact Hh.
Qed.

(** X1. A text that [search_source_text] returns is never empty, and it is
    a contiguous piece of the text of the page that was searched (the
    first page of the store with the number asked for): the function
    never returns text that is not on the page. *)
Theorem search_result_verbatim cand p pages v :
  search_source_text cand p pages = Ok (Some v) →
  v ≠ []
  ∧ ∃ pg a b, find_page pages p = Some pg ∧ Page.text pg = a ++ v ++ b.
Proof.
  intros H.
  destruct (decide (normalize cand = [])) as [Hn|Hn].
  { rewrite search_blank in H by done. done. }
  destruct (find_page pages p) as [pg|] eqn:Hpg.
  2:{ rewrite search_no_page in H by done. done. }
  destruct (find (normalize (Page.text pg)) (normalize cand))
    as [idx|] eqn:Hf.
  2:{ erewrite search_find_none in H by done. done. }
  destruct (search_found _ _ _ _ _ Hpg Hn Hf)
    as (a & r & b & Hsplit & _ & _ & Hr & H').
  rewrite H' in H. injection H as <-.
  split; [exact Hr|]. by exists pg, a, b.
Qed.

Lemma search_result_verbatim_witness :
  lit "Breach of   Contract" ≠ []
  ∧ ∃ pg a b,
      find_page
        [ {| Page.number := 4;
             Page.text := lit "(Breach of   Contract)" |} ] 4 = Some pg
      ∧ Page.text pg = a ++ lit "Breach of   Contract" ++ b.
Proof.
  apply (search_result_verbatim (lit "Breach of Contract")).
  vm_compute. reflexivity.
Defined.

(** X2. The answer of [search_source_text] depends on the candidate only
    through its normal form: two candidates that differ in whitespace
    alone (runs of whitespace of other lengths or kinds, leading or
    trailing whitespace) get the same answer on every page store. *)
Theorem search_candidate_normal_form c1 c2 p pages :
  normalize c1 = normalize c2 →
  search_source_text c1 p pages = search_source_text c2 p pages.
Proof.
  intros Heq.
  destruct (decide (normalize c1 = [])) as [Hn|Hn].
  { rewrite !search_blank; [done| |done]. by rewrite <- Heq. }
  assert (normalize c2 ≠ []) as Hn2 by by rewrite <- Heq.
  pose proof (normalize_nonempty_strip _ Hn) as Hs1.
  pose proof (normalize_nonempty_arg _ Hn) as Ha1.
  pose proof (normalize_nonempty_strip _ Hn2) as Hs2.
  pose proof (normalize_nonempty_arg _ Hn2) as Ha2.
  apply nonempty_true in Hs1, Ha1, Hs2, Ha2.
  unfold search_source_text.
  rewrite Hs1, Ha1, Hs2, Ha2, Heq. reflexivity.
Qed.

Lemma search_candidate_normal_form_witness :
  search_source_text (lit "  hello   world ") 1
    [ {| Page.number := 1; Page.text := lit "hello" ++ [LF] ++ lit "world" |} ]
  = search_source_text (lit "hello" ++ [TAB; LF] ++ lit "world") 1
      [ {| Page.number := 1; Page.text := lit "hello" ++ [LF] ++ lit "world" |} ].
Proof.
  apply search_candidate_normal_form. vm_compute. reflexivity.
Defined.

(** X3. On a page whose only whitespace characters are space, tab, newline
    and carriage return, a text that [search_source_text] returns has the
    normal form of the candidate: it is the candidate up to the lengths
    and kinds of its runs of whitespace. *)
Theorem search_result_normal_form cand p pages pg v :
  find_page pages p = Some pg →
  plain_ws (Page.text pg) →
  search_source_text cand p pages = Ok (Some v) →
  normalize v = normalize cand.
Proof.
  intros Hpg Hplain H.
  destruct (decide (normalize cand = [])) as [Hn|Hn].
  { rewrite search_blank in H by done. done. }
  destruct (find (normalize (Page.text pg)) (normalize cand))
    as [idx|] eqn:Hf.
  2:{ erewrite search_find_none in H by done. done. }
  destruct (search_found _ _ _ _ _ Hpg Hn Hf)
    as (a & r & b & Hsplit & Hadv & Hcons & Hr & H').
  rewrite H' in H. injection H as <-.
  pose proof (search_found_image _ _ _ _ _ Hplain Hn Hf Hadv Hcons) as Himg.
  assert (plain_ws r) as Hpr.
  { rewrite Hsplit in Hplain.
    apply plain_ws_app in Hplain as [? [? ?]%plain_ws_app]. done. }
  assert (head_nonspace r = true) as Hrh.
  { destruct (head_nonspace_inv _ (normalize_head_nonspace _ Hn))
      as (c & s' & Hs' & Hc).
    rewrite Hs' in Himg.
    destruct r as [|r0 r']; [done|].
    destruct (is_ws4 r0) eqn:Hr0.
    - rewrite collapse_ws4_run in Himg by done.
      injection Himg as <- _. by rewrite isspace_SP in Hc.
    - rewrite collapse_nonws in Himg by done.
      injection Himg as -> _. simpl. by rewrite Hc. }
  rewrite normalize_plain_head by done. rewrite Himg.
  apply rstrip_nonspace. by apply normalize_last_nonspace.
Qed.

Lemma search_result_normal_form_witness :
  normalize (lit "Breach of   Contract") = normalize (lit "Breach of Contract").
Proof.
  apply (search_result_normal_form (lit "Breach of Contract") 4
           [ {| Page.number := 4;
                Page.text := lit "(Breach of   Contract)" |} ]
           {| Page.number := 4; Page.text := lit "(Breach of   Contract)" |}).
  - reflexivity.
  - unfold plain_ws. apply Forall_forall. intros c Hc.
    vm_compute in Hc. 
    repeat (apply elem_of_cons in Hc as [->|Hc]; [vm_compute; done|]).
    by apply elem_of_nil in Hc.
  - vm_compute. reflexivity.
Defined.

(** ** [generate_footnote_index]: when the report is empty, and what is
       reported out of order *)

Lemma validate_issues_prefix l st :
  issues st `prefix_of` issues (foldl validate_step st l).
Proof.
  revert st. induction l as [|x l IH]; intros st; [done|].
  simpl. etrans; [|apply IH]. simpl. by apply prefix_app_r.
Qed.

Lemma seqZ_S_cons e (n : nat) :
  seqZ e (Z.of_nat (S n)) = e :: seqZ (e + 1) (Z.of_nat n).
Proof.
  rewrite seqZ_cons by lia. do 2 f_equal; lia.
Qed.

(** From a state whose seen numbers are all below the expected one, the
    walk adds no issue exactly on the numbers [e, e + 1, ...]. *)
Lemma validate_clean l st :
  (∀ s, s ∈ seen_numbers st → s < expected_num st) →
  issues (foldl validate_step st l) = [] ↔
    issues st = []
    ∧ IndexRow.fn_number <$> l
      = seqZ (expected_num st) (Z.of_nat (length l)).
Proof.
  revert st. induction l as [|x l IH]; intros st Hseen.
  { simpl. split; [by intros ->|by intros [-> _]]. }
  cbn [foldl length fmap list_fmap]. rewrite seqZ_S_cons.
  destruct (decide (IndexRow.fn_number x = expected_num st)) as [Hx|Hx].
  - assert (issues (validate_step st x) = issues st) as Hiss.
    { unfold validate_step. cbn [issues].
      rewrite bool_decide_eq_false_2 by (intros H; by apply H).
      rewrite bool_decide_eq_false_2.
      - by rewrite !app_nil_r.
      - intros Hin. apply Hseen in Hin. lia. }
    rewrite IH.
    + rewrite Hiss. cbn [validate_step expected_num]. rewrite Hx.
      split.
      * intros [-> ->]. done.
      * intros [-> [= ->]]. done.
    + cbn [validate_step seen_numbers expected_num].
      intros s [->%elem_of_singleton|Hs]%elem_of_union; [lia|].
      apply Hseen in Hs. lia.
  - split.
    + intros Hnil. exfalso.
      pose proof (validate_issues_prefix l (validate_step st x)) as [k Hk].
      rewrite Hnil in Hk. symmetry in Hk. apply app_eq_nil in Hk as [Hk _].
      unfold validate_step in Hk. cbn [issues] in Hk.
      apply app_eq_nil in Hk as [_ Hk]. apply app_eq_nil in Hk as [Hk _].
      rewrite bool_decide_eq_true_2 in Hk by done.
      case_bool_decide as Hgt; [|done].
      apply (f_equal length) in Hk. rewrite length_fmap, length_seqZ in Hk.
      simpl in Hk. lia.
    + intros [_ [= Hhead _]]. done.
Qed.

Lemma seqZ_sorted_le e len : StronglySorted Z.le (seqZ e len).
Proof.
  induction (seqZ_sorted e len) as [|x l _ IH Hx]; constructor; [done|].
  eapply Forall_impl; [exact Hx|]. intros y Hy. simpl in Hy. lia.
Qed.

Lemma sorted_perm_eq (l1 l2 : list Z) :
  StronglySorted Z.le l1 → StronglySorted Z.le l2 → l1 ≡ₚ l2 → l1 = l2.
Proof.
  intros H1 H2 Hp. by apply (StronglySorted_unique Z.le).
Qed.

(** X4. [generate_footnote_index] reports nothing exactly when the
    footnote numbers of the classification output are, up to their order,
    the numbers 1, 2, ..., n, each once (n being the number of footnote
    records; no record at all counts as n = 0). *)
Theorem footnote_index_clean_iff result_ :
  generate_footnote_index result_ = [] ↔
    resolved_numbers result_
    ≡ₚ seqZ 1 (Z.of_nat (length (resolved_numbers result_))).
Proof.
  unfold generate_footnote_index.
  assert (issue_text <$> footnote_issues result_ = []
          ↔ footnote_issues result_ = []) as ->.
  { split; [apply fmap_nil_inv | by intros ->]. }
  unfold resolved_numbers, footnote_issues.
  set (rows := collect_footnotes (default [] (Result.pages result_))).
  clearbody rows.
  destruct rows as [|r rows'] eqn:Erows; [done|].
  rewrite <- Erows. clear Erows.
  unfold validate. rewrite validate_clean by set_solver.
  cbn [issues expected_num].
  pose proof (sort_rows_perm rows) as Hperm.
  pose proof (sort_rows_sorted rows) as Hsorted.
  assert (length (sort_rows rows) = length (IndexRow.fn_number <$> rows))
    as Hlen.
  { rewrite length_fmap. by apply Permutation_length. }
  rewrite Hlen. split.
  - intros [_ Heq]. rewrite <- Heq. by rewrite Hperm.
  - intros Hp. split; [done|].
    apply sorted_perm_eq.
    + exact Hsorted.
    + apply seqZ_sorted_le.
    + by rewrite Hperm.
Qed.

Lemma omap_MISSING_out_of_order num page ms :
  out_of_order_records ((λ m, MISSING m num page) <$> ms) = [].
Proof. induction ms as [|m ms IH]; [done|]. simpl. exact IH. Qed.

Lemma omap_MISSING_duplicate num page ms :
  duplicate_records ((λ m, MISSING m num page) <$> ms) = [].
Proof. induction ms as [|m ms IH]; [done|]. simpl. exact IH. Qed.

Lemma Forall_MISSING_expects num page ms :
  Forall expects_successor ((λ m, MISSING m num page) <$> ms).
Proof. apply Forall_fmap, Forall_forall. by intros. Qed.

(** On ascending numbers, from a state that has seen only numbers below
    the expected one and either has seen its predecessor or meets no
    number below it, every step reports a record out of order exactly
    when it reports it duplicate. *)
Lemma validate_out_of_order l st :
  StronglySorted Z.le (IndexRow.fn_number <$> l) →
  (∀ s, s ∈ seen_numbers st → s < expected_num st) →
  (∀ x, x ∈ l → expected_num st - 1 ≤ IndexRow.fn_number x) →
  (expected_num st - 1 ∈ seen_numbers st
   ∨ ∀ x, x ∈ l → expected_num st ≤ IndexRow.fn_number x) →
  out_of_order_records (issues st) = duplicate_records (issues st) →
  Forall expects_successor (issues st) →
  out_of_order_records (issues (foldl validate_step st l))
  = duplicate_records (issues (foldl validate_step st l))
  ∧ Forall expects_successor (issues (foldl validate_step st l)).
Proof.
  revert st. induction l as [|x l IH]; intros st Hsorted H1 H2 H3 H4 H5;
    [done|].
  cbn [foldl]. cbn [fmap list_fmap] in Hsorted.
  apply StronglySorted_inv in Hsorted as [Hsorted Hx].
  rewrite Forall_fmap, Forall_forall in Hx.
  set (num := IndexRow.fn_number x) in *.
  assert (expected_num st - 1 ≤ num) as Hlow by (apply H2; by left).
  assert (num < expected_num st ↔ num ∈ seen_numbers st) as Hiff.
  { split.
    - intros Hlt. destruct H3 as [H3|H3].
      + by replace num with (expected_num st - 1) by lia.
      + specialize (H3 x ltac:(by left)). fold num in H3. lia.
    - apply H1. }
  assert (out_of_order_records (issues (validate_step st x))
          = duplicate_records (issues (validate_step st x))
          ∧ Forall expects_successor (issues (validate_step st x)))
    as [Hstep Hexp].
  { unfold validate_step. cbn [issues]. fold num.
    unfold out_of_order_records, duplicate_records. rewrite !omap_app.
    fold (out_of_order_records (issues st)).
    fold (duplicate_records (issues st)).
    rewrite H4, !Forall_app.
    destruct (decide (num < expected_num st)) as [Hlt|Hge].
    - pose proof (proj1 Hiff Hlt) as Hin.
      rewrite (bool_decide_eq_true_2 (num ≠ expected_num st)) by lia.
      rewrite (bool_decide_eq_false_2 (num > expected_num st)) by lia.
      rewrite (bool_decide_eq_true_2 (num ∈ seen_numbers st)) by done.
      split; [done|]. split; [done|].
      split; (constructor; [|done]); simpl; [lia|done].
    - assert (num ∉ seen_numbers st) as Hnin.
      { intros Hin. apply Hiff in Hin. lia. }
      rewrite (bool_decide_eq_false_2 (num ∈ seen_numbers st)) by done.
      case_bool_decide as Hne.
      + rewrite (bool_decide_eq_true_2 (num > expected_num st)) by lia.
        fold (out_of_order_records
                ((λ m, MISSING m num (IndexRow.page x))
                   <$> seqZ (expected_num st) (num - expected_num st))).
        fold (duplicate_records
                ((λ m, MISSING m num (IndexRow.page x))
                   <$> seqZ (expected_num st) (num - expected_num st))).
        rewrite omap_MISSING_out_of_order, omap_MISSING_duplicate.
        split; [done|]. split; [done|]. split; [|done].
        apply Forall_MISSING_expects.
      + split; [done|]. split; [done|]. split; done. }
  apply IH; try done.
  - cbn [validate_step seen_numbers expected_num]. fold num.
    intros s [->%elem_of_singleton|Hs]%elem_of_union; [lia|].
    apply H1 in Hs. lia.
  - cbn [validate_step expected_num]. fold num. intros y Hy.
    specialize (Hx y Hy). simpl in Hx. lia.
  - left. cbn [validate_step seen_numbers expected_num]. fold num.
    replace (num + 1 - 1) with num by lia.
    apply elem_of_union. left. by apply elem_of_singleton.
Qed.

(** X5. When every footnote number of the classification output is at
    least 1, [generate_footnote_index] reports a record out of order
    exactly when it reports it duplicate: the two lists of (number, page)
    agree, each out-of-order issue expects the successor of the number it
    reports (the record before it carried the same number), so a repeated
    number is reported twice and nothing else is ever out of order. *)
Theorem out_of_order_iff_duplicate result_ :
  (∀ n, n ∈ resolved_numbers result_ → 1 ≤ n) →
  out_of_order_records (footnote_issues result_)
  = duplicate_records (footnote_issues result_)
  ∧ Forall expects_successor (footnote_issues result_).
Proof.
  intros Hpos. unfold footnote_issues, resolved_numbers in *.
  set (rows := collect_footnotes (default [] (Result.pages result_))) in *.
  clearbody rows.
  destruct rows as [|r rows'] eqn:Erows; [done|].
  rewrite <- Erows in *. clear Erows.
  unfold validate. apply validate_out_of_order; cbn [issues seen_numbers
    expected_num]; try done.
  - apply sort_rows_sorted.
  - intros x Hx. rewrite sort_rows_perm in Hx.
    assert (1 ≤ IndexRow.fn_number x); [|lia].
    apply Hpos, list_elem_of_fmap. eauto.
  - right. intros x Hx. rewrite sort_rows_perm in Hx.
    apply Hpos, list_elem_of_fmap. eauto.
Qed.

Lemma out_of_order_iff_duplicate_witness :
  out_of_order_records
    (footnote_issues
       (Sample.classified
          [ (1, [Sample.footnote 1 "a"]); (2, [Sample.footnote 3 "c"]);
            (3, [Sample.footnote 3 "c"]) ]))
  = duplicate_records
      (footnote_issues
         (Sample.classified
            [ (1, [Sample.footnote 1 "a"]); (2, [Sample.footnote 3 "c"]);
              (3, [Sample.footnote 3 "c"]) ]))
  ∧ Forall expects_successor
      (footnote_issues
         (Sample.classified
            [ (1, [Sample.footnote 1 "a"]); (2, [Sample.footnote 3 "c"]);
              (3, [Sample.footnote 3 "c"]) ])).
Proof.
  apply out_of_order_iff_duplicate.
  intros n Hn. vm_compute in Hn.
  repeat (apply elem_of_cons in Hn as [->|Hn]; [lia|]).
  by apply elem_of_nil in Hn.
Defined.

Example out_of_order_below_one :
  footnote_issues (Sample.classified [ (1, [Sample.footnote 0 "a"]) ])
  = [ OUT_OF_ORDER 0 1 1 ].
Proof. vm_compute. reflexivity. Qed.

(** ** [verify_causes_of_action]: inverted ranges, pages of one number *)

(** X6. A paragraph range whose bounds are both positive but inverted
    (the end below the start) is reported verified, with no missing
    paragraph, whatever the pages show: the range of integers compared is
    empty. *)
Theorem inverted_range_verified coa_list pages i coa rng s e :
  coa_list !! i = Some coa →
  Coa.paragraph_range coa = Some rng →
  ParagraphRange.start rng = Some s →
  ParagraphRange.end_ rng = Some e →
  0 < e < s →
  ∃ coa',
    verify_causes_of_action coa_list pages !! i = Some coa'
    ∧ Coa.paragraph_range_verified coa' = Some true
    ∧ Coa.missing_paragraphs coa' = Some [].
Proof.
  intros Hi Hrng Hs He Hinv.
  exists (verify_range (all_paragraphs pages) coa). split.
  { unfold verify_causes_of_action. destruct coa_list as [|c0 rest]; [done|].
    by rewrite list_lookup_fmap, Hi. }
  pose proof (verify_range_spec (all_paragraphs pages) coa) as Hspec.
  unfold range_verified in Hspec. rewrite Hrng in Hspec.
  cbn [from_option id] in Hspec. rewrite Hs, He in Hspec.
  cbn [from_option id] in Hspec.
  rewrite bool_decide_eq_true_2 in Hspec by lia.
  destruct Hspec as (missing & Hm & _ & Hin & Hv).
  assert (missing = []) as ->.
  { destruct missing as [|k rest]; [done|]. exfalso.
    assert (s ≤ k ≤ e); [|lia].
    apply Hin. by left. }
  split; [|done]. by rewrite Hv.
Qed.

Lemma inverted_range_verified_witness :
  ∃ coa',
    verify_causes_of_action [Sample.coa_with_range 13 10]
      Sample.complaint_pages !! 0%nat = Some coa'
    ∧ Coa.paragraph_range_verified coa' = Some true
    ∧ Coa.missing_paragraphs coa' = Some [].
Proof.
  apply (inverted_range_verified [Sample.coa_with_range 13 10]
           Sample.complaint_pages 0 (Sample.coa_with_range 13 10)
           {| ParagraphRange.start := Some 13;
              ParagraphRange.end_ := Some 10 |} 13 10);
    [reflexivity..|lia].
Defined.

Lemma page_paragraphs_snoc pages pg :
  page_paragraphs (pages ++ [pg])
  = if bool_decide (paragraph_nums (Page.text pg) ≠ ∅)
    then <[Page.number pg := paragraph_nums (Page.text pg)]>
           (page_paragraphs pages)
    else page_paragraphs pages.
Proof. unfold page_paragraphs. by rewrite foldl_snoc. Qed.

Lemma page_paragraphs_lookup pages n s :
  page_paragraphs pages !! n = Some s
  ↔ ∃ i pg, counts_in_pool pages i pg
            ∧ Page.number pg = n ∧ paragraph_nums (Page.text pg) = s.
Proof.
  revert n s. induction pages as [|pg pages IH] using rev_ind; intros n s.
  { split; [done|]. by intros (i & pg & [Hi _] & _). }
  rewrite page_paragraphs_snoc.
  assert (∀ i pg', counts_in_pool (pages ++ [pg]) i pg' →
            (i < length pages)%nat →
            counts_in_pool pages i pg'
            ∧ (Page.number pg = Page.number pg' →
               paragraph_nums (Page.text pg) = ∅)) as Hold.
  { intros i pg' (Hi & Hne & Hlater) Hlt.
    rewrite lookup_app_l in Hi by done. split.
    - split; [done|]. split; [done|]. intros j pg'' Hj Hjl Hnum.
      apply (Hlater j pg''); [done| |done].
      rewrite lookup_app_l; [done|]. by eapply lookup_lt_Some.
    - intros Hnum. apply (Hlater (length pages) pg); [done| |done].
      by rewrite list_lookup_middle. }
  assert (∀ i pg', counts_in_pool pages i pg' →
            (Page.number pg = Page.number pg' →
             paragraph_nums (Page.text pg) = ∅) →
            counts_in_pool (pages ++ [pg]) i pg') as Hnew.
  { intros i pg' (Hi & Hne & Hlater) Hlast.
    pose proof (lookup_lt_Some _ _ _ Hi) as Hlt.
    split; [by rewrite lookup_app_l|]. split; [done|].
    intros j pg'' Hj Hjl Hnum.
    destruct (decide (j < length pages)%nat) as [Hjlt|Hjge].
    - rewrite lookup_app_l in Hjl by done. by eapply Hlater.
    - apply lookup_lt_Some in Hjl as Hjlt. rewrite length_app in Hjlt.
      simpl in Hjlt. assert (j = length pages) as -> by lia.
      rewrite list_lookup_middle in Hjl by done. injection Hjl as <-.
      by apply Hlast. }
  assert (∀ i pg', counts_in_pool (pages ++ [pg]) i pg' →
            (i < length pages)%nat ∨ (i = length pages ∧ pg' = pg)) as Hpos.
  { intros i pg' (Hi & _). apply lookup_lt_Some in Hi as Hlt.
    rewrite length_app in Hlt. simpl in Hlt.
    destruct (decide (i < length pages)%nat); [by left|right].
    assert (i = length pages) as -> by lia.
    rewrite list_lookup_middle in Hi by done. by injection Hi as <-. }
  case_bool_decide as Hne.
  - destruct (decide (n = Page.number pg)) as [->|Hn].
    + rewrite lookup_insert_eq. split.
      * intros [= <-]. exists (length pages), pg. split; [|done].
        split; [by rewrite list_lookup_middle|]. split; [done|].
        intros j pg' Hj Hjl _. apply lookup_lt_Some in Hjl.
        rewrite length_app in Hjl. simpl in Hjl. lia.
      * intros (i & pg' & Hc & Hnum & <-).
        destruct (Hpos _ _ Hc) as [Hlt|[-> ->]]; [|done].
        destruct (Hold _ _ Hc Hlt) as [_ Hcontra].
        by rewrite Hcontra in Hne.
    + rewrite lookup_insert_ne by done. rewrite IH. split.
      * intros (i & pg' & Hc & Hnum & <-). exists i, pg'.
        split; [|done]. apply Hnew; [done|]. intros Heq. congruence.
      * intros (i & pg' & Hc & Hnum & <-).
        destruct (Hpos _ _ Hc) as [Hlt|[-> ->]]; [|done].
        exists i, pg'. split; [|done]. by apply Hold.
  - rewrite IH. split.
    + intros (i & pg' & Hc & Hnum & <-). exists i, pg'.
      split; [|done]. by apply Hnew.
    + intros (i & pg' & Hc & Hnum & <-).
      destruct (Hpos _ _ Hc) as [Hlt|[-> ->]].
      * exists i, pg'. split; [|done]. by apply Hold.
      * by destruct Hc as (_ & Hc & _).
Qed.

(** X7. The paragraph numbers that range verification compares with are
    those of the pages that count: a page that shows paragraph numbers,
    unless a later page of the store carries the same page number and
    shows some too. Of several pages with one number, only the last that
    shows paragraph numbers is pooled (its entry in [page_paragraphs]
    replaces the earlier one); a page without paragraph numbers replaces
    nothing. *)
Theorem all_paragraphs_counted pages k :
  k ∈ all_paragraphs pages
  ↔ ∃ i pg, counts_in_pool pages i pg ∧ k ∈ paragraph_nums (Page.text pg).
Proof.
  unfold all_paragraphs. rewrite elem_of_union_list. split.
  - intros (s & Hs & Hk).
    apply list_elem_of_fmap in Hs as ([n s'] & -> & Hin). cbn [snd] in Hk.
    apply elem_of_map_to_list, page_paragraphs_lookup in Hin
      as (i & pg & Hc & _ & <-).
    by exists i, pg.
  - intros (i & pg & Hc & Hk).
    exists (paragraph_nums (Page.text pg)). split; [|done].
    apply list_elem_of_fmap.
    exists (Page.number pg, paragraph_nums (Page.text pg)). split; [done|].
    apply elem_of_map_to_list, page_paragraphs_lookup. by exists i, pg.
Qed.

(** Two pages numbered 1: the paragraphs of the first are not pooled. *)
Example all_paragraphs_same_number :
  sorted (all_paragraphs
            [ {| Page.number := 1; Page.text := lit "1. First paragraph." |};
              {| Page.number := 1; Page.text := lit "2. Second paragraph." |};
              {| Page.number := 1; Page.text := lit "No paragraph here." |} ])
  = [2].
Proof. vm_compute. reflexivity. Qed.

(** ** [split_into_pages] and the document written back *)

(** *** Splitting and joining lines *)

Lemma split_go_line cur l : LF ∉ l → split_go cur l = [cur ++ l].
Proof.
  revert cur. induction l as [|c l IH]; intros cur Hl.
  { simpl. by rewrite app_nil_r. }
  apply not_elem_of_cons in Hl as [Hc Hl].
  cbn [split_go]. rewrite bool_decide_eq_false_2 by done.
  rewrite IH by done. by rewrite <- app_assoc.
Qed.

Lemma split_go_app cur l s :
  LF ∉ l → split_go cur (l ++ LF :: s) = (cur ++ l) :: split_go [] s.
Proof.
  revert cur. induction l as [|c l IH]; intros cur Hl.
  { cbn [app split_go]. rewrite bool_decide_eq_true_2 by done.
    by rewrite app_nil_r. }
  apply not_elem_of_cons in Hl as [Hc Hl].
  cbn [app split_go]. rewrite bool_decide_eq_false_2 by done.
  rewrite IH by done. by rewrite <- app_assoc.
Qed.

Lemma join_lines_cons x l :
  l ≠ [] → join_lines (x :: l) = x ++ LF :: join_lines l.
Proof. by destruct l. Qed.

Lemma join_lines_app l1 l2 :
  l1 ≠ [] → l2 ≠ [] →
  join_lines (l1 ++ l2) = join_lines l1 ++ LF :: join_lines l2.
Proof.
  intros H1 H2. induction l1 as [|x l1 IH]; [done|].
  destruct l1 as [|y l1].
  - simpl. by destruct l2.
  - change ((x :: y :: l1) ++ l2) with (x :: (y :: l1) ++ l2).
    rewrite !join_lines_cons by done. rewrite IH by done.
    by rewrite <- app_assoc.
Qed.

Lemma split_lines_join ls :
  ls ≠ [] → Forall (λ l, LF ∉ l) ls → split_lines (join_lines ls) = ls.
Proof.
  intros Hne Hall. unfold split_lines.
  induction Hall as [|l ls Hl Hls IH]; [done|].
  destruct ls as [|l' ls].
  - simpl. by rewrite split_go_line.
  - rewrite join_lines_cons by done. rewrite split_go_app by done.
    by rewrite IH.
Qed.

(** *** The two delimiter patterns *)

Lemma start_not_end line n : PAGE_START_RE line = Some n → PAGE_END_RE line = None.
Proof.
  unfold PAGE_START_RE, PAGE_END_RE, match_page_delim. intros H.
  destruct (expect (lit "---[Start PDF page ") line) as [s1|] eqn:E; [|done].
  apply expect_Some in E. subst line. vm_compute. reflexivity.
Qed.

Lemma is_delimiter_false line :
  is_delimiter line = false
  ↔ PAGE_START_RE line = None ∧ PAGE_END_RE line = None.
Proof.
  unfold is_delimiter. rewrite orb_false_iff, !bool_decide_eq_false.
  rewrite <- !eq_None_not_Some. done.
Qed.

(** *** The steps of the splitter *)

Lemma split_step_lines st p ls :
  current_page st = Some p →
  Forall (λ l, is_delimiter l = false) ls →
  foldl split_step st ls
  = {| blocks := blocks st; preamble := preamble st;
       current_page := Some p;
       current_lines := current_lines st ++ ls;
       current_start := current_start st |}.
Proof.
  intros Hp Hls. revert st Hp.
  induction Hls as [|l ls Hl _ IH]; intros st Hp.
  { simpl. rewrite app_nil_r. destruct st. simpl in Hp. by subst. }
  apply is_delimiter_false in Hl as [Hs He].
  cbn [foldl]. rewrite IH.
  - unfold split_step. rewrite Hs, He, Hp. cbn.
    by rewrite <- app_assoc.
  - unfold split_step. by rewrite Hs, He, Hp.
Qed.

Lemma split_step_preamble st ls :
  current_page st = None →
  Forall (λ l, is_delimiter l = false) ls →
  foldl split_step st ls
  = {| blocks := blocks st; preamble := preamble st ++ ls;
       current_page := None;
       current_lines := current_lines st;
       current_start := current_start st |}.
Proof.
  intros Hp Hls. revert st Hp.
  induction Hls as [|l ls Hl _ IH]; intros st Hp.
  { simpl. rewrite app_nil_r. destruct st. simpl in Hp. by subst. }
  apply is_delimiter_false in Hl as [Hs He].
  cbn [foldl]. rewrite IH.
  - unfold split_step. rewrite Hs, He, Hp. cbn.
    by rewrite <- app_assoc.
  - unfold split_step. by rewrite Hs, He, Hp.
Qed.

Lemma split_step_page st b :
  well_formed_block b →
  foldl split_step st (page_lines b)
  = {| blocks := blocks st ++ [b]; preamble := preamble st;
       current_page := None; current_lines := [];
       current_start := Block.start_delim b |}.
Proof.
  intros (Hstart & [m Hend] & Hlines). unfold page_lines.
  cbn [foldl]. rewrite foldl_app.
  assert (split_step st (Block.start_delim b)
          = {| blocks := blocks st; preamble := preamble st;
               current_page := Some (Block.page_number b);
               current_lines := [];
               current_start := Block.start_delim b |}) as ->.
  { unfold split_step. by rewrite Hstart. }
  rewrite (split_step_lines _ (Block.page_number b) (Block.lines b))
    by done.
  cbn [foldl blocks preamble current_lines current_start app].
  unfold split_step.
  destruct (PAGE_START_RE (Block.end_delim b)) as [n|] eqn:Hs.
  { apply start_not_end in Hs. congruence. }
  rewrite Hend. cbn. by destruct b.
Qed.

Lemma split_step_pages st bs :
  Forall well_formed_block bs →
  bs ≠ [] →
  ∃ start,
    foldl split_step st (b ← bs; page_lines b)
    = {| blocks := blocks st ++ bs; preamble := preamble st;
         current_page := None; current_lines := [];
         current_start := start |}.
Proof.
  intros Hbs. revert st. induction Hbs as [|b bs Hb Hbs IH]; intros st Hne;
    [done|].
  change (b0 ← b :: bs; page_lines b0)
    with (page_lines b ++ (b0 ← bs; page_lines b0)).
  rewrite foldl_app, split_step_page by done.
  destruct bs as [|b' bs'].
  - exists (Block.start_delim b). done.
  - destruct (IH {| blocks := blocks st ++ [b]; preamble := preamble st;
                    current_page := None; current_lines := [];
                    current_start := Block.start_delim b |})
      as [start ->]; [done|].
    exists start. cbn. by rewrite <- app_assoc.
Qed.

Lemma split_document_lines pre bs :
  Forall well_formed_block bs →
  Forall (λ l, is_delimiter l = false) pre →
  let st := foldl split_step
              {| blocks := []; preamble := [];
                 current_page := None; current_lines := [];
                 current_start := [] |}
              (document_lines pre bs) in
  preamble st = pre ∧ blocks st = bs.
Proof.
  intros Hbs Hpre. unfold document_lines. rewrite foldl_app.
  rewrite (split_step_preamble _ pre) by done.
  cbn [blocks preamble current_lines current_start app].
  destruct bs as [|b bs]; [done|].
  destruct (split_step_pages
              {| blocks := []; preamble := pre;
                 current_page := None; current_lines := [];
                 current_start := [] |} (b :: bs) Hbs)
    as [start ->]; done.
Qed.

(** X8. Splitting a document that is written as a preamble followed by
    pages gives back that preamble and those pages: each page block with
    the number of its start delimiter, its two delimiter lines and the
    lines between them. (The lines are those of a text split at newlines:
    none holds a newline, and there is at least one.) *)
Theorem split_into_pages_document preamble blocks :
  Forall well_formed_block blocks →
  Forall (λ l, is_delimiter l = false) preamble →
  Forall (λ l, LF ∉ l) (document_lines preamble blocks) →
  document_lines preamble blocks ≠ [] →
  split_into_pages (join_lines (document_lines preamble blocks))
  = (preamble, blocks).
Proof.
  intros Hbs Hpre Hlf Hne. unfold split_into_pages.
  rewrite split_lines_join by done.
  destruct (split_document_lines preamble blocks Hbs Hpre) as [-> ->].
  reflexivity.
Qed.

Lemma split_into_pages_document_witness :
  split_into_pages
    (join_lines
       (document_lines [ lit "Title" ]
          [ {| Block.page_number := 1;
               Block.start_delim := lit "---[Start PDF page 1]---";
               Block.lines := [ lit "Body text."; [] ];
               Block.end_delim := lit "---[End PDF page 1]---" |} ]))
  = ([ lit "Title" ],
     [ {| Block.page_number := 1;
          Block.start_delim := lit "---[Start PDF page 1]---";
          Block.lines := [ lit "Body text."; [] ];
          Block.end_delim := lit "---[End PDF page 1]---" |} ]).
Proof.
  apply split_into_pages_document.
  - repeat constructor; vm_compute; eauto.
  - repeat constructor.
  - repeat constructor; vm_compute;
      intros H; repeat (apply elem_of_cons in H as [H|H]; [done|]);
      by apply elem_of_nil in H.
  - done.
Defined.

(** *** What the splitter returns on any text *)

Lemma foldl_invariant {A B} (P : A → Prop) (f : A → B → A) a l :
  P a → (∀ a b, P a → P (f a b)) → P (foldl f a l).
Proof.
  intros Ha Hstep. revert a Ha. induction l as [|b l IH]; intros a Ha;
    [done|]. simpl. by apply IH, Hstep.
Qed.

(** X9. On any text, every page block that [split_into_pages] returns is
    well formed: its start delimiter is a line that the start pattern
    matches with the block's page number, its end delimiter a line that
    the end pattern matches, and none of its lines is a delimiter; no
    line of the preamble is a delimiter either. *)
Theorem split_into_pages_well_formed content :
  Forall well_formed_block (split_into_pages content).2
  ∧ Forall (λ l, is_delimiter l = false) (split_into_pages content).1.
Proof.
  unfold split_into_pages. cbn [fst snd].
  set (Inv := λ st : SplitState,
         Forall well_formed_block (blocks st)
         ∧ Forall (λ l, is_delimiter l = false) (preamble st)
         ∧ Forall (λ l, is_delimiter l = false) (current_lines st)
         ∧ ∀ p, current_page st = Some p →
                PAGE_START_RE (current_start st) = Some p).
  assert (Inv (foldl split_step
                 {| blocks := []; preamble := []; current_page := None;
                    current_lines := []; current_start := [] |}
                 (split_lines content))) as (Hb & Hp & _).
  { apply foldl_invariant.
    { repeat split; try constructor. done. }
    intros st line (Hb & Hp & Hl & Hs). unfold split_step.
    destruct (PAGE_START_RE line) as [n|] eqn:Hstart.
    { repeat split; try done. cbn. by intros p [= <-]. }
    destruct (PAGE_END_RE line) as [m|] eqn:Hend.
    { repeat split; try done. cbn.
      destruct (current_page st) as [p|] eqn:Hcur; [|done].
      apply Forall_app. split; [done|]. constructor; [|done].
      repeat split; cbn; [by apply Hs|by eexists|done]. }
    assert (is_delimiter line = false) as Hline.
    { by apply is_delimiter_false. }
    destruct (current_page st) as [p|] eqn:Hcur.
    - repeat split; try done. cbn. apply Forall_app. by split; [|constructor].
    - repeat split; try done. cbn. apply Forall_app. by split; [|constructor]. }
  by split.
Qed.

(** *** The document written back *)

Lemma join_page s L e :
  L ≠ [] → join_lines [ s; join_lines L; e ] = join_lines (s :: L ++ [e]).
Proof.
  intros HL. rewrite (join_lines_cons s (L ++ [e])) by by destruct L.
  rewrite join_lines_app by done. reflexivity.
Qed.

Lemma join_pages (bs : list Block.t) :
  Forall (λ b, Block.lines b ≠ []) bs →
  join_lines (b ← bs;
              [ Block.start_delim b; join_lines (Block.lines b);
                Block.end_delim b ])
  = join_lines (b ← bs; page_lines b).
Proof.
  induction 1 as [|b bs Hb Hbs IH]; [done|].
  change (join_lines ([ Block.start_delim b; join_lines (Block.lines b);
                        Block.end_delim b ]
                      ++ (b0 ← bs;
                          [ Block.start_delim b0; join_lines (Block.lines b0);
                            Block.end_delim b0 ]))
          = join_lines (page_lines b ++ (b0 ← bs; page_lines b0))).
  destruct bs as [|b' bs'].
  { cbn [mbind list_bind]. rewrite !app_nil_r. by apply join_page. }
  rewrite !join_lines_app; try done.
  rewrite IH. f_equal. by apply join_page.
Qed.

Lemma join_document pre (bs : list Block.t) :
  Forall (λ b, Block.lines b ≠ []) bs →
  document_of pre bs Block.lines = join_lines (document_lines pre bs).
Proof.
  intros Hbs. unfold document_of, document_lines.
  destruct pre as [|p pre']; [by apply join_pages|].
  destruct bs as [|b bs'].
  { cbn [mbind list_bind]. by rewrite !app_nil_r. }
  rewrite !join_lines_app; try done.
  by rewrite join_pages.
Qed.

Lemma extract_nothing lines :
  Forall (λ l, match_text_block l = None) lines →
  extract_ocr_footnotes lines = ∅.
Proof.
  intros Hall. unfold extract_ocr_footnotes.
  induction Hall as [|l ls Hl _ IH]; [done|].
  cbn [foldl].
  assert (extract_step ∅ l = ∅) as ->; [|exact IH].
  unfold extract_step. by rewrite Hl.
Qed.

Lemma bind_ext_Forall {A B} (f g : A → list B) (l : list A) :
  Forall (λ x, f x = g x) l → (x ← l; f x) = (x ← l; g x).
Proof.
  induction 1 as [|x l Hx _ IH]; [done|].
  cbn [mbind list_bind]. by rewrite Hx, IH.
Qed.

(** X10. Without location records, a document written as a preamble
    followed by pages, none of which has a trailing text block or is
    empty, is written back unchanged: [process_document] returns the text
    it was given. *)
Theorem process_document_unchanged pre bs :
  Forall well_formed_block bs →
  Forall (λ l, is_delimiter l = false) pre →
  Forall (λ l, LF ∉ l) (document_lines pre bs) →
  document_lines pre bs ≠ [] →
  Forall (λ b, Block.lines b ≠ []
               ∧ Forall (λ l, match_text_block l = None) (Block.lines b))
         bs →
  (process_document (join_lines (document_lines pre bs)) None).1
  = join_lines (document_lines pre bs).
Proof.
  intros Hbs Hpre Hlf Hne Hpages.
  unfold process_document, split_into_pages.
  rewrite split_lines_join by done.
  destruct (split_document_lines pre bs Hbs Hpre) as [-> ->].
  cbn [fst snd truthy_dict fmap option_fmap option_map].
  rewrite process_block_output. cbn [output_parts].
  rewrite <- join_document.
  2:{ eapply Forall_impl; [exact Hpages|]. by intros b [? _]. }
  unfold document_of. do 2 f_equal.
  apply bind_ext_Forall.
  eapply Forall_impl; [exact Hpages|]. intros b [_ Hnone].
  cbn [page_fns_of]. unfold merged_lines, page_fns_ocr.
  rewrite extract_nothing by done.
  by rewrite fmap_empty, bool_decide_eq_true_2.
Qed.

Lemma process_document_unchanged_witness :
  (process_document
     (join_lines
        (document_lines [ lit "Title" ]
           [ {| Block.page_number := 1;
                Block.start_delim := lit "---[Start PDF page 1]---";
                Block.lines :=
                  [ lit "The court agreed.$ ^{1} $ See below."; [] ];
                Block.end_delim := lit "---[End PDF page 1]---" |} ]))
     None).1
  = join_lines
      (document_lines [ lit "Title" ]
         [ {| Block.page_number := 1;
              Block.start_delim := lit "---[Start PDF page 1]---";
              Block.lines :=
                [ lit "The court agreed.$ ^{1} $ See below."; [] ];
              Block.end_delim := lit "---[End PDF page 1]---" |} ]).
Proof.
  apply process_document_unchanged.
  - repeat constructor; vm_compute; eauto.
  - repeat constructor.
  - repeat constructor; vm_compute;
      intros H; repeat (apply elem_of_cons in H as [H|H]; [done|]);
      by apply elem_of_nil in H.
  - done.
  - repeat constructor; done.
Defined.

(** A page without lines gains an empty line, and the lines outside the
    pages are all written in front of the first page. *)
Example process_document_empty_page :
  (process_document
     (join_lines [ lit "---[Start PDF page 1]---";
                   lit "---[End PDF page 1]---";
                   lit "Between the pages.";
                   lit "---[Start PDF page 2]---"; lit "Text.";
                   lit "---[End PDF page 2]---" ])
     None).1
  = join_lines [ lit "Between the pages.";
                 lit "---[Start PDF page 1]---"; [];
                 lit "---[End PDF page 1]---";
                 lit "---[Start PDF page 2]---"; lit "Text.";
                 lit "---[End PDF page 2]---" ].
Proof. vm_compute. reflexivity. Qed.

(** ** [merge_refs_inline] and [remove_fn_text_blocks]: what is left alone *)

(** *** The text that a marker match covers *)

Lemma span_digits_app s ds r : span_digits s = (ds, r) → s = ds ++ r.
Proof.
  revert ds r. induction s as [|c s IH]; intros ds r; simpl.
  { by intros [= <- <-]. }
  destruct (isdecimal c).
  - destruct (span_digits s) as [ds' r'] eqn:E. intros [= <- <-].
    simpl. f_equal. by apply IH.
  - by intros [= <- <-].
Qed.

Lemma expect_suffix p s r : expect p s = Some r → r `suffix_of` s.
Proof. intros ->%expect_Some. by apply suffix_app_r. Qed.

Lemma expect_shorter c s r :
  expect [c] s = Some r → (length r < length s)%nat.
Proof. intros ->%expect_Some. simpl. lia. Qed.

(** A match of the marker pattern at the head of [s] covers a prefix of
    [s] that is not empty. *)
Lemma match_marker_split s n rest :
  match_marker s = Some (n, rest) →
  rest `suffix_of` s ∧ (length rest < length s)%nat.
Proof.
  unfold match_marker. intros H.
  destruct (expect [DOLLAR] (lstrip s)) as [s1|] eqn:E1; [|done].
  cbn [mbind option_bind] in H.
  destruct (expect [CARET; LBRACE] (lstrip s1)) as [s2|] eqn:E2; [|done].
  cbn [mbind option_bind] in H.
  destruct (span_digits s2) as [ds s3] eqn:E3.
  destruct (nonempty ds); [|done].
  destruct (expect [RBRACE] s3) as [s4|] eqn:E4; [|done].
  cbn [mbind option_bind] in H.
  destruct (expect [DOLLAR] (lstrip s4)) as [s5|] eqn:E5; [|done].
  cbn [mbind option_bind] in H. injection H as _ <-.
  assert (s5 `suffix_of` s1) as Hsuf.
  { apply span_digits_app in E3.
    transitivity (lstrip s4); [by eapply expect_suffix|].
    transitivity s4; [apply lstrip_suffix|].
    transitivity s3; [by eapply expect_suffix|].
    transitivity s2; [rewrite E3; by apply suffix_app_r|].
    transitivity (lstrip s1); [by eapply expect_suffix|].
    apply lstrip_suffix. }
  pose proof (expect_suffix _ _ _ E1) as Hs1.
  pose proof (expect_shorter _ _ _ E1) as Hl1.
  pose proof (lstrip_suffix s) as Hs0.
  split.
  - etrans; [exact Hsuf|]. by etrans.
  - apply suffix_length in Hsuf, Hs0. lia.
Qed.

(** Replacing every marker of a text by itself gives the text back. *)
Lemma sub_markers_go_id repl skip s :
  (∀ n g, n ∈ markers_go skip s → repl n g = g) →
  (skip ≤ length s)%nat →
  sub_markers_go repl skip s = drop skip s.
Proof.
  revert skip. induction s as [|c r IH]; intros skip Hrepl Hskip.
  { by destruct skip. }
  destruct skip as [|k].
  - cbn [sub_markers_go markers_go] in *.
    destruct (match_marker (c :: r)) as [[n rest]|] eqn:Hm.
    + destruct (match_marker_split _ _ _ Hm) as [[pre Hpre] Hlen].
      rewrite Hrepl by by left.
      rewrite IH.
      * set (len := (length (c :: r) - length rest)%nat).
        assert (len = S (len - 1)) as Hlen' by (unfold len; lia).
        rewrite Hlen' at 1. cbn [take drop].
        rewrite <- app_comm_cons. f_equal. apply take_drop.
      * intros m g Hin. apply Hrepl. by right.
      * simpl in *. lia.
    + cbn [drop]. f_equal. rewrite IH; [done| |lia].
      intros m g Hin. by apply Hrepl.
  - cbn [sub_markers_go markers_go drop] in *.
    apply IH; [done|]. simpl in Hskip. lia.
Qed.

(** X11. [merge_refs_inline] changes a line only at a marker of a
    footnote number that has a text: when every marker on the lines is of
    a number without an entry, or with an entry whose text is empty, the
    lines are returned as they are (the markers stay in place). *)
Theorem merge_refs_inline_unchanged lines fn_data :
  (∀ line n entry,
     line ∈ lines → n ∈ markers line → fn_data !! n = Some entry →
     PageFn.fn_text entry = []) →
  merge_refs_inline lines fn_data = lines.
Proof.
  intros Hno. unfold merge_refs_inline.
  rewrite <- (list_fmap_id lines) at 2.
  apply list_fmap_ext. intros i line Hline.
  apply list_elem_of_lookup_2 in Hline.
  unfold sub_markers. rewrite sub_markers_go_id; [done| |simpl; lia].
  intros n g Hn. unfold replace_ref.
  destruct (fn_data !! n) as [entry|] eqn:Hentry; [|done].
  by rewrite (Hno line n entry).
Qed.

Lemma merge_refs_inline_unchanged_witness :
  merge_refs_inline
    [ lit "The court agreed.$ ^{1} $ See below."; lit "No marker here." ]
    {[ 2 := {| PageFn.fn_text := lit "Smith v. Jones.";
               PageFn.page := 1;
               PageFn._llm_text := None;
               PageFn._text_source := lit "ocr" |};
       1 := {| PageFn.fn_text := [];
               PageFn.page := 1;
               PageFn._llm_text := Some (lit "An invented text.");
               PageFn._text_source := lit "none" |} ]}
  = [ lit "The court agreed.$ ^{1} $ See below."; lit "No marker here." ].
Proof.
  apply merge_refs_inline_unchanged.
  intros line n entry Hline Hn Hentry.
  assert (n = 1) as ->.
  { repeat (apply elem_of_cons in Hline as [->|Hline];
            [vm_compute in Hn;
             repeat (apply elem_of_cons in Hn as [->|Hn]; [done|]);
             by apply elem_of_nil in Hn|]).
    by apply elem_of_nil in Hline. }
  rewrite lookup_insert_ne in Hentry by done.
  rewrite lookup_singleton_eq in Hentry. by injection Hentry as <-.
Defined.

(** *** [remove_fn_text_blocks] *)

Lemma remove_identity_if lines nums :
  (∀ i, ¬ block_line lines nums i) → remove_fn_text_blocks lines nums = lines.
Proof.
  intros Hno. unfold remove_fn_text_blocks.
  rewrite bool_decide_eq_true_2; [done|].
  apply set_eq. intros i. rewrite fn_line_indices_spec.
  split; [by intros ?%Hno|by intros ?%elem_of_empty].
Qed.

(** No line that is left is a text block of a number to remove. *)
Lemma remove_no_block lines nums line n group2 :
  line ∈ remove_fn_text_blocks lines nums →
  match_text_block line = Some (n, group2) → n ∉ nums.
Proof.
  intros Hin Hm Hn.
  assert (∀ i, lines !! i = Some line →
               i ∈ fn_line_indices lines nums) as Hblock.
  { intros i Hl. apply fn_line_indices_spec. by exists line, n, group2. }
  unfold remove_fn_text_blocks in Hin. case_bool_decide as Hempty.
  - apply list_elem_of_lookup_1 in Hin as [i Hl].
    apply Hblock in Hl. rewrite Hempty in Hl. by apply elem_of_empty in Hl.
  - apply list_elem_of_fmap in Hin as ([i l] & -> & Hin). cbn [snd] in *.
    apply list_elem_of_filter in Hin as [Hskip Hin]. cbn [fst snd] in Hskip.
    apply elem_of_imap_pair, Hblock in Hin.
    unfold skipped in Hskip. by rewrite bool_decide_eq_true_2 in Hskip.
Qed.

(** X12. [remove_fn_text_blocks] returns the lines of the page unchanged
    exactly when none of them is a trailing text block of a number to
    remove; in particular with no number to remove. *)
Theorem remove_fn_text_blocks_identity lines nums :
  remove_fn_text_blocks lines nums = lines ↔ ∀ i, ¬ block_line lines nums i.
Proof.
  split; [|apply remove_identity_if].
  intros Heq i Hblock.
  pose proof Hblock as (line & n & g & Hl & Hm & Hn).
  apply fn_line_indices_spec in Hblock.
  unfold remove_fn_text_blocks in Heq.
  rewrite bool_decide_eq_false_2 in Heq.
  2:{ intros Hempty. rewrite Hempty in Hblock.
      by apply elem_of_empty in Hblock. }
  apply (f_equal length) in Heq. rewrite length_fmap in Heq.
  assert (length (imap pair lines) = length lines) as Hlen
    by apply length_imap.
  pose proof (length_filter_lt
                (λ p : nat * str,
                   skipped lines (fn_line_indices lines nums) p.1 p.2 = false)
                (imap pair lines) (i, line)) as Hlt.
  assert (length (filter
                    (λ p : nat * str,
                       skipped lines (fn_line_indices lines nums) p.1 p.2
                       = false)
                    (imap pair lines)) < length (imap pair lines))%nat;
    [|lia].
  apply Hlt.
  - by apply elem_of_imap_pair.
  - cbn [fst snd]. unfold skipped. by rewrite bool_decide_eq_true_2.
Qed.

(** X13. [remove_fn_text_blocks] is idempotent: removing the text blocks
    of the same numbers from its result removes nothing more. *)
Theorem remove_fn_text_blocks_idempotent lines nums :
  remove_fn_text_blocks (remove_fn_text_blocks lines nums) nums
  = remove_fn_text_blocks lines nums.
Proof.
  apply remove_identity_if.
  intros i (line & n & g & Hl & Hm & Hn).
  apply list_elem_of_lookup_2 in Hl.
  by eapply remove_no_block.
Qed.

(** *** The marker that is replaced *)

Lemma match_marker_other s c r :
  lstrip s = c :: r → c ≠ DOLLAR → match_marker s = None.
Proof.
  intros Hs Hc. unfold match_marker. rewrite Hs. cbn [expect].
  by rewrite bool_decide_eq_false_2 by (intros ?; by apply Hc).
Qed.

Lemma last_nonspace_cons c s :
  s ≠ [] → last_nonspace (c :: s) = last_nonspace s.
Proof.
  unfold last_nonspace. intros Hs. rewrite reverse_cons.
  destruct (reverse s) eqn:E; [|done].
  apply (f_equal reverse) in E. rewrite reverse_involutive in E. done.
Qed.

Lemma last_nonspace_lstrip s : last_nonspace s = true → lstrip s ≠ [].
Proof.
  intros Hl Hs. apply lstrip_nil_all in Hs.
  destruct (last_nonspace_inv _ Hl) as (r & c & -> & Hc).
  apply Forall_app in Hs as [_ Hs]. apply Forall_inv in Hs. congruence.
Qed.

(** No match starts in a text without dollar sign that does not end in
    whitespace: the text is copied. *)
Lemma sub_markers_go_prefix repl pre rest :
  DOLLAR ∉ pre → pre = [] ∨ last_nonspace pre = true →
  sub_markers_go repl 0 (pre ++ rest) = pre ++ sub_markers_go repl 0 rest.
Proof.
  induction pre as [|c pre IH]; intros Hd Hl; [done|].
  destruct Hl as [?|Hl]; [done|].
  apply not_elem_of_cons in Hd as [Hc Hd].
  rewrite <- !app_comm_cons. cbn [sub_markers_go].
  assert (match_marker (c :: pre ++ rest) = None) as ->.
  { pose proof (last_nonspace_lstrip _ Hl) as Hne.
    rewrite app_comm_cons.
    destruct (lstrip (c :: pre)) as [|x xs] eqn:Hx; [done|].
    apply (match_marker_other _ x (xs ++ rest)).
    - rewrite lstrip_app_nonspace by by rewrite Hx. by rewrite Hx.
    - intros ->. destruct (lstrip_suffix (c :: pre)) as [k Hk].
      rewrite Hx in Hk.
      assert (DOLLAR ∈ c :: pre) as Hin.
      { rewrite Hk. apply elem_of_app. right. by left. }
      apply elem_of_cons in Hin as [Heq|Hin]; [by apply Hc|by apply Hd]. }
  f_equal. apply IH; [done|].
  destruct pre as [|c' pre']; [by left|right].
  by rewrite last_nonspace_cons in Hl.
Qed.

Lemma sub_markers_go_skip repl x y :
  sub_markers_go repl (length x) (x ++ y) = sub_markers_go repl 0 y.
Proof. induction x as [|c x IH]; [done|]. exact IH. Qed.

(** X25. [merge_refs_inline] replaces a marker in place: in a line made
    of a text without dollar sign that does not end in whitespace, then a
    match of the marker pattern (with the whitespace before its dollar
    sign) for a footnote number that has a text which is not empty, then
    the rest, the text before is kept, the match becomes the annotation
    [ [FNn: text]], and the rest is treated in the same way. *)
Theorem merge_refs_inline_annotated pre group0 post n fn_data entry :
  DOLLAR ∉ pre → pre = [] ∨ last_nonspace pre = true →
  match_marker (group0 ++ post) = Some (n, post) →
  fn_data !! n = Some entry → PageFn.fn_text entry ≠ [] →
  merge_refs_inline [ pre ++ group0 ++ post ] fn_data
  = [ pre ++ annotation n (PageFn.fn_text entry)
      ++ sub_markers (replace_ref fn_data) post ].
Proof.
  intros Hd Hl Hm Hentry Htext.
  unfold merge_refs_inline, sub_markers. cbn [fmap list_fmap]. f_equal.
  rewrite sub_markers_go_prefix by done. f_equal.
  destruct (match_marker_split _ _ _ Hm) as [_ Hlen].
  destruct group0 as [|c g]; [simpl in Hlen; lia|].
  rewrite <- app_comm_cons. cbn [sub_markers_go].
  rewrite app_comm_cons, Hm.
  replace (length ((c :: g) ++ post) - length post)%nat
    with (length (c :: g)) by (rewrite length_app; lia).
  rewrite take_app_length. cbn [length].
  replace (S (length g) - 1)%nat with (length g) by lia.
  rewrite sub_markers_go_skip. f_equal.
  unfold replace_ref, annotation. rewrite Hentry.
  apply nonempty_true in Htext. by rewrite Htext.
Qed.

Lemma merge_refs_inline_annotated_witness :
  merge_refs_inline
    [ lit "The court agreed." ++ lit "  $ ^{1} $" ++ lit " See below." ]
    {[ 1 := {| PageFn.fn_text := lit "Smith v. Jones.";
               PageFn.page := 1;
               PageFn._llm_text := None;
               PageFn._text_source := lit "ocr" |} ]}
  = [ lit "The court agreed."
      ++ annotation 1 (lit "Smith v. Jones.")
      ++ sub_markers
           (replace_ref
              {[ 1 := {| PageFn.fn_text := lit "Smith v. Jones.";
                         PageFn.page := 1;
                         PageFn._llm_text := None;
                         PageFn._text_source := lit "ocr" |} ]})
           (lit " See below.") ].
Proof.
  apply (merge_refs_inline_annotated (lit "The court agreed.")
           (lit "  $ ^{1} $") (lit " See below.") 1 _
           {| PageFn.fn_text := lit "Smith v. Jones.";
              PageFn.page := 1;
              PageFn._llm_text := None;
              PageFn._text_source := lit "ocr" |}).
  - vm_compute. intros H.
    repeat (apply elem_of_cons in H as [H|H]; [done|]).
    by apply elem_of_nil in H.
  - right. vm_compute. reflexivity.
  - vm_compute. reflexivity.
  - apply lookup_singleton_eq.
  - done.
Defined.

Example merge_refs_inline_sample :
  merge_refs_inline
    [ lit "The court agreed.  $ ^{1} $ See below.$^{2}$" ]
    {[ 1 := {| PageFn.fn_text := lit "Smith v. Jones.";
               PageFn.page := 1;
               PageFn._llm_text := None;
               PageFn._text_source := lit "ocr" |} ]}
  = [ lit "The court agreed. [FN1: Smith v. Jones.] See below.$^{2}$" ].
Proof. vm_compute. reflexivity. Qed.

(** ** [process_document]: the diagnostics, and what the result depends on *)

Lemma sorted_length (s : gset Z) : length (sorted s) = size s.
Proof.
  unfold sorted. rewrite merge_sort_Permutation. reflexivity.
Qed.

Lemma refs_on_page_subseteq lines (page_fns : gmap Z PageFn.t) :
  refs_on_page lines page_fns ⊆ dom page_fns.
Proof.
  intros n. unfold refs_on_page.
  rewrite elem_of_list_to_set, list_elem_of_filter. by intros [? _].
Qed.

Lemma no_text_subseteq (page_fns : gmap Z PageFn.t) :
  no_text page_fns ⊆ dom page_fns.
Proof. unfold no_text. apply dom_filter_subseteq. Qed.

Lemma size_refs_unmatched (d refs : gset Z) :
  refs ⊆ d →
  Z.of_nat (size d) = Z.of_nat (size refs) + Z.of_nat (size (d ∖ refs)).
Proof.
  intros Hsub.
  rewrite (union_difference_L refs d Hsub) at 1.
  rewrite size_union; [lia|].
  intros x Hx [_ Hnx]%elem_of_difference. done.
Qed.

(** The invariant of the loop over the pages. *)
Lemma process_block_partition fns texts blocks st :
  total_found st = total_merged st + total_unmatched st →
  total_found st = listed_numbers (page_stats st) →
  Forall page_stat_partition (page_stats st) →
  let st' := foldl (process_block fns texts) st blocks in
  total_found st' = total_merged st' + total_unmatched st'
  ∧ total_found st' = listed_numbers (page_stats st')
  ∧ Forall page_stat_partition (page_stats st').
Proof.
  revert st. induction blocks as [|b blocks IH]; intros st H1 H2 H3; [done|].
  cbn [foldl]. apply IH; clear IH.
  - unfold process_block. cbn [total_found total_merged total_unmatched].
    set (pf := page_fns_of fns texts b).
    pose proof (size_refs_unmatched (dom pf) _
                  (refs_on_page_subseteq (Block.lines b) pf)) as Hsz.
    rewrite size_dom in Hsz.
    case_bool_decide as Hempty; cbn [negb].
    + rewrite Hempty, map_size_empty. lia.
    + lia.
  - unfold process_block. cbn [total_found page_stats].
    set (pf := page_fns_of fns texts b).
    unfold listed_numbers in *. rewrite sum_list_with_app.
    case_bool_decide as Hempty; cbn [negb].
    + rewrite Hempty, map_size_empty. simpl. lia.
    + cbn. rewrite sorted_length, size_dom. lia.
  - unfold process_block. cbn [page_stats].
    set (pf := page_fns_of fns texts b).
    apply Forall_app. split; [done|].
    case_bool_decide as Hempty; cbn [negb]; [done|].
    constructor; [|done].
    unfold page_stat_partition.
    cbn [PageStat.fn_numbers PageStat.merged_refs PageStat.unmatched
         PageStat.no_ocr_text].
    pose proof (refs_on_page_subseteq (Block.lines b) pf) as Hsub.
    pose proof (no_text_subseteq pf) as Hno.
    repeat split.
    + rewrite sorted_nil_iff. intros Hd. apply Hempty.
      by apply dom_empty_iff_L.
    + rewrite !sorted_elem_of. intros Hn.
      destruct (decide (n ∈ refs_on_page (Block.lines b) pf)); [by left|].
      right. by apply elem_of_difference.
    + rewrite !sorted_elem_of.
      intros [Hn|Hn%elem_of_difference]; [by apply Hsub|by destruct Hn].
    + intros n. rewrite !sorted_elem_of.
      intros Hn Hd%elem_of_difference. by destruct Hd.
    + intros n. rewrite !sorted_elem_of. apply Hno.
Qed.

(** X14. In the diagnostics of [process_document], with or without
    location records, the total of footnotes found is the total merged
    plus the total without a marker on their page, and it is the number
    of footnote numbers listed in the page entries; every page entry
    lists at least one number, its numbers are those with a marker on
    the page together with those without one, which have no number in
    common, and the numbers it reports without text are among them. *)
Theorem process_document_stats_partition content fns :
  Stats.total_found (process_document content fns).2
  = Stats.total_merged (process_document content fns).2
    + Stats.total_unmatched (process_document content fns).2
  ∧ Stats.total_found (process_document content fns).2
    = listed_numbers (Stats.page_details (process_document content fns).2)
  ∧ Forall page_stat_partition
      (Stats.page_details (process_document content fns).2).
Proof.
  unfold process_document.
  destruct (split_into_pages content) as [pre blocks].
  cbn [snd Stats.total_found Stats.total_merged Stats.total_unmatched
       Stats.page_details].
  apply process_block_partition; done.
Qed.

(** *** Without location records *)

(** The number of a trailing text block is the first marker of its line. *)
Lemma text_block_marker line n group2 :
  match_text_block line = Some (n, group2) → n ∈ markers line.
Proof.
  unfold match_text_block. intros H.
  destruct (match_marker line) as [[n' after]|] eqn:Hm; [|done].
  cbn [mbind option_bind] in H.
  assert (n' = n) as ->.
  { destruct (lstrip (chomp after)) as [|x0 x].
    - destruct (reverse (chomp after)) as [|c [|c' r]]; try done.
      case_bool_decide; [|done]. by injection H as ->.
    - destruct (_ && _); [|done]. by injection H as ->. }
  destruct (match_marker_split _ _ _ Hm) as [_ Hlen].
  destruct line as [|c r]; [simpl in Hlen; lia|].
  unfold markers. cbn [markers_go]. rewrite Hm. by left.
Qed.

Lemma refs_on_page_ocr lines pg :
  refs_on_page lines (page_fns_ocr lines pg) = dom (page_fns_ocr lines pg).
Proof.
  apply set_eq. intros n. split; [apply refs_on_page_subseteq|].
  intros Hn. unfold refs_on_page.
  rewrite elem_of_list_to_set, list_elem_of_filter. split; [done|].
  unfold page_fns_ocr in Hn. rewrite dom_fmap_L in Hn.
  apply elem_of_block_numbers in Hn as (line & g & Hline & Hm).
  apply list_elem_of_bind. exists line. split; [|done].
  by eapply text_block_marker.
Qed.

Lemma process_block_ocr texts blocks st :
  total_unmatched st = 0 →
  total_no_ocr_text st = 0 →
  Forall (λ ps, PageStat.unmatched ps = []
                ∧ PageStat.merged_refs ps = PageStat.fn_numbers ps)
         (page_stats st) →
  let st' := foldl (process_block None texts) st blocks in
  total_unmatched st' = 0
  ∧ total_no_ocr_text st' = 0
  ∧ Forall (λ ps, PageStat.unmatched ps = []
                  ∧ PageStat.merged_refs ps = PageStat.fn_numbers ps)
           (page_stats st').
Proof.
  revert st. induction blocks as [|b blocks IH]; intros st H1 H2 H3; [done|].
  cbn [foldl]. apply IH; clear IH.
  - unfold process_block. cbn [total_unmatched page_fns_of].
    rewrite refs_on_page_ocr, difference_diag_L, size_empty.
    destruct (negb _); lia.
  - unfold process_block. cbn [total_no_ocr_text]. lia.
  - unfold process_block. cbn [page_stats page_fns_of].
    apply Forall_app. split; [done|].
    destruct (negb _); [|done]. constructor; [|done].
    cbn [PageStat.unmatched PageStat.merged_refs PageStat.fn_numbers].
    rewrite refs_on_page_ocr, difference_diag_L. split; [|done].
    by apply sorted_nil_iff.
Qed.

(** X15. Without location records no footnote is ever reported without a
    marker on its page, and none without text in the totals: the marker
    at the head of a trailing text block counts as a reference to it, so
    on every page the numbers merged are all the numbers found, the total
    merged is the total found, and the totals of footnotes without marker
    and without text are both 0. *)
Theorem process_document_ocr_stats content :
  Stats.total_unmatched (process_document content None).2 = 0
  ∧ Stats.total_no_ocr_text (process_document content None).2 = 0
  ∧ Stats.total_merged (process_document content None).2
    = Stats.total_found (process_document content None).2
  ∧ Forall (λ ps, PageStat.unmatched ps = []
                  ∧ PageStat.merged_refs ps = PageStat.fn_numbers ps)
      (Stats.page_details (process_document content None).2).
Proof.
  unfold process_document.
  destruct (split_into_pages content) as [pre blocks].
  cbn [snd truthy_dict fmap option_fmap option_map Stats.total_found
       Stats.total_merged Stats.total_unmatched Stats.total_no_ocr_text
       Stats.page_details].
  set (st0 := {| total_found := 0; total_merged := 0; total_unmatched := 0;
                 total_no_ocr_text := 0; page_stats := [];
                 output_parts := _ |}).
  destruct (process_block_ocr (ocr_texts blocks) blocks st0)
    as (Hu & Hn & Hps); [done..|].
  destruct (process_block_partition None (ocr_texts blocks) blocks st0)
    as (Hsum & _); [done..|].
  repeat split; [done|done| |done].
  rewrite Hsum, Hu. lia.
Qed.

(** A text block that is only whitespace after its marker: the footnote
    is found with an empty text, listed without text on its page, and
    the total without text stays 0. *)
Example process_document_ocr_empty_text :
  (process_document
     (join_lines (Sample.page_text 1 [ lit "Body." ; lit "$ ^{1} $  " ]))
     None).2
  = {| Stats.source := lit "ocr_only";
       Stats.total_found := 1;
       Stats.total_merged := 1;
       Stats.total_unmatched := 0;
       Stats.total_no_ocr_text := 0;
       Stats.pages_with_footnotes := 1;
       Stats.page_details :=
         [ {| PageStat.page := 1;
              PageStat.fn_numbers := [1];
              PageStat.merged_refs := [1];
              PageStat.unmatched := [];
              PageStat.no_ocr_text := [1] |} ] |}.
Proof. vm_compute. reflexivity. Qed.

(** *** Page correction *)

Lemma correct_page_idempotent blocks n data :
  correct_page (marker_pages blocks) n
    (correct_page (marker_pages blocks) n data)
  = correct_page (marker_pages blocks) n data.
Proof.
  unfold correct_page.
  destruct (marker_pages blocks !! n) as [s|] eqn:Hs; [|done].
  destruct (decide (FnRecord.page data ∈ s)) as [Hin|Hin].
  - assert (¬ (FnRecord.page data ∉ s)) as Hnn
      by (intros Hnot; by apply Hnot).
    by rewrite !(bool_decide_eq_false_2 _ Hnn).
  - rewrite !(bool_decide_eq_true_2 (FnRecord.page data ∉ s)) by done.
    cbn [FnRecord.page].
    rewrite (bool_decide_eq_false_2 (set_min s ∉ s)); [done|].
    intros Hnot. apply Hnot, set_min_spec. by eapply marker_pages_nonempty.
Qed.

(** X16. The page correction is idempotent: correcting an inventory that
    was already corrected against the same document changes no record;
    in particular the audit field keeps the page first claimed. *)
Theorem correct_attribution_idempotent blocks fns :
  correct_attribution (marker_pages blocks)
    (correct_attribution (marker_pages blocks) fns)
  = correct_attribution (marker_pages blocks) fns.
Proof.
  apply map_eq. intros n. unfold correct_attribution.
  rewrite !map_lookup_imap.
  destruct (fns !! n) as [data|]; [|done].
  cbn [mbind option_bind]. f_equal. apply correct_page_idempotent.
Qed.

(** *** What the merge reads of the location records *)

Lemma sub_markers_go_ext repl1 repl2 skip s :
  (∀ n g, repl1 n g = repl2 n g) →
  sub_markers_go repl1 skip s = sub_markers_go repl2 skip s.
Proof.
  intros Hext. revert skip. induction s as [|c r IH]; intros skip; [done|].
  cbn [sub_markers_go]. destruct skip as [|k]; [|apply IH].
  destruct (match_marker (c :: r)) as [[n rest]|]; by rewrite ?Hext, IH.
Qed.

(** Two tables of page footnotes with the same numbers and texts. *)
Lemma page_fns_same_texts (pf1 pf2 : gmap Z PageFn.t) lines :
  (∀ n, PageFn.fn_text <$> pf1 !! n = PageFn.fn_text <$> pf2 !! n) →
  dom pf1 = dom pf2
  ∧ no_text pf1 = no_text pf2
  ∧ merged_lines lines pf1 = merged_lines lines pf2.
Proof.
  intros Hsame.
  assert (dom pf1 = dom pf2) as Hdom.
  { apply set_eq. intros n. rewrite !elem_of_dom, <- !(fmap_is_Some PageFn.fn_text).
    by rewrite Hsame. }
  split; [done|]. split.
  - apply set_eq. intros n. unfold no_text.
    rewrite !elem_of_dom. unfold is_Some.
    setoid_rewrite map_lookup_filter_Some. cbn [snd].
    specialize (Hsame n). split.
    + intros (e & He & Hne). rewrite He in Hsame.
      destruct (pf2 !! n) as [e'|]; [|done]. injection Hsame as Heq.
      exists e'. by rewrite <- Heq.
    + intros (e & He & Hne). rewrite He in Hsame.
      destruct (pf1 !! n) as [e'|]; [|done]. injection Hsame as Heq.
      exists e'. by rewrite Heq.
  - unfold merged_lines.
    assert (bool_decide (pf1 = ∅) = bool_decide (pf2 = ∅)) as ->.
    { apply bool_decide_ext. by rewrite <- !dom_empty_iff_L, Hdom. }
    destruct (bool_decide (pf2 = ∅)); [done|]. rewrite Hdom.
    unfold merge_refs_inline. apply list_fmap_ext. intros i line _.
    apply sub_markers_go_ext. intros n g. unfold replace_ref.
    specialize (Hsame n).
    destruct (pf1 !! n) as [e1|], (pf2 !! n) as [e2|]; try done.
    injection Hsame as ->. done.
Qed.

Lemma process_block_same_texts fns1 fns2 texts st b :
  (is_Some fns1 ↔ is_Some fns2) →
  (∀ n, PageFn.fn_text <$> page_fns_of fns1 texts b !! n
        = PageFn.fn_text <$> page_fns_of fns2 texts b !! n) →
  process_block fns1 texts st b = process_block fns2 texts st b.
Proof.
  intros Hsome Hsame.
  destruct (page_fns_same_texts _ _ (Block.lines b) Hsame)
    as (Hdom & Hno & Hlines).
  unfold process_block.
  set (pf1 := page_fns_of fns1 texts b) in *.
  set (pf2 := page_fns_of fns2 texts b) in *.
  assert (bool_decide (pf1 = ∅) = bool_decide (pf2 = ∅)) as ->.
  { apply bool_decide_ext. by rewrite <- !dom_empty_iff_L, Hdom. }
  assert (refs_on_page (Block.lines b) pf1
          = refs_on_page (Block.lines b) pf2) as ->.
  { unfold refs_on_page. by rewrite Hdom. }
  rewrite <- !(size_dom pf1), <- !(size_dom pf2), Hdom, Hno, Hlines.
  destruct fns1, fns2; try done.
  - destruct Hsome as [H _]. by destruct H.
  - destruct Hsome as [_ H]. by destruct H.
Qed.

Lemma correct_attribution_same_locations mp fns1 fns2 :
  same_locations fns1 fns2 →
  same_locations (correct_attribution mp fns1) (correct_attribution mp fns2).
Proof.
  intros Hsame n. specialize (Hsame n). unfold correct_attribution.
  rewrite !map_lookup_imap.
  destruct (fns1 !! n) as [d1|], (fns2 !! n) as [d2|]; try done.
  cbn in *. injection Hsame as Hpage. f_equal.
  unfold correct_page. destruct (mp !! n) as [s|]; [|done].
  rewrite Hpage. by destruct (bool_decide _).
Qed.

Lemma page_fns_classified_same_locations fns1 fns2 texts pg n :
  same_locations fns1 fns2 →
  PageFn.fn_text <$> page_fns_classified fns1 texts pg !! n
  = PageFn.fn_text <$> page_fns_classified fns2 texts pg !! n.
Proof.
  intros Hsame. specialize (Hsame n). unfold page_fns_classified.
  rewrite !map_lookup_imap.
  destruct (fns1 !! n) as [d1|], (fns2 !! n) as [d2|]; try done.
  cbn in *. injection Hsame as ->. by destruct (bool_decide _).
Qed.

(** X17. [process_document] reads nothing of a location record but its
    footnote number and its page: two inventories that place the same
    numbers on the same pages give the same merged document and the same
    diagnostics, whatever text, status or location hint their records
    carry. No text of the classification output reaches the document. *)
Theorem process_document_same_locations content fns1 fns2 :
  same_locations fns1 fns2 →
  process_document content (Some fns1) = process_document content (Some fns2).
Proof.
  intros Hsame. unfold process_document.
  destruct (split_into_pages content) as [pre blocks].
  assert (fns1 = ∅ ↔ fns2 = ∅) as Hempty.
  { split; intros ->; apply map_empty; intros n; specialize (Hsame n);
      rewrite lookup_empty in Hsame; cbn in Hsame.
    - by destruct (fns2 !! n).
    - by destruct (fns1 !! n). }
  cbn [truthy_dict].
  assert (bool_decide (fns1 = ∅) = bool_decide (fns2 = ∅)) as ->
    by by apply bool_decide_ext.
  destruct (bool_decide (fns2 = ∅)); [done|].
  cbn [fmap option_fmap option_map].
  set (c1 := correct_attribution (marker_pages blocks) fns1).
  set (c2 := correct_attribution (marker_pages blocks) fns2).
  assert (same_locations c1 c2) as Hc
    by by apply correct_attribution_same_locations.
  rewrite (foldl_ext_eq (process_block (Some c1) (ocr_texts blocks))
             (process_block (Some c2) (ocr_texts blocks))); [done|].
  intros st b. apply process_block_same_texts; [done|].
  intros n. cbn [page_fns_of].
  by apply page_fns_classified_same_locations.
Qed.

Lemma process_document_same_locations_witness :
  process_document Sample.brief
    (Some {[ 7 := {| FnRecord.page := 9;
                     FnRecord.merge_status := lit "merged";
                     FnRecord.merge_location := lit "after Smith";
                     FnRecord._llm_text := lit "An invented text.";
                     FnRecord._original_page := None |} ]})
  = process_document Sample.brief
      (Some {[ 7 := {| FnRecord.page := 9;
                       FnRecord.merge_status := [];
                       FnRecord.merge_location := [];
                       FnRecord._llm_text := [];
                       FnRecord._original_page := None |} ]}).
Proof.
  apply process_document_same_locations. intros n.
  destruct (decide (n = 7)) as [->|Hn].
  - by rewrite !lookup_singleton_eq.
  - by rewrite !lookup_singleton_ne.
Defined.

(** ** [read_combined_md]: the pages read, and the page blocks of the merger *)

Lemma split_go_splitlines cur s :
  newline_only s →
  ∃ tail, (tail = [] ∨ tail = [[]])
          ∧ split_go cur s = CombinedMd.splitlines_go false cur s ++ tail.
Proof.
  intros Hs. revert cur. induction Hs as [|c r Hc _ IH]; intros cur.
  { destruct cur; [exists [[]]|exists []]; split; auto. }
  cbn [split_go CombinedMd.splitlines_go andb].
  case_bool_decide as Hlf.
  - subst c. change (CombinedMd.is_linebreak LF) with true. cbn iota.
    rewrite bool_decide_eq_false_2 by done.
    destruct (IH []) as (tail & Htail & ->). by exists tail.
  - destruct (CombinedMd.is_linebreak c) eqn:E; [by destruct Hlf; apply Hc|].
    apply IH.
Qed.

Lemma split_step_blank_blocks st :
  blocks (split_step st []) = blocks st.
Proof.
  unfold split_step.
  change (PAGE_START_RE []) with (@None Z).
  change (PAGE_END_RE []) with (@None Z). cbn iota.
  by destruct (current_page st).
Qed.

(** The two loops run in step: the pages built are those of the blocks
    built, and the page being read is the same. *)
Lemma read_step_split_step lines st rst :
  CombinedMd.ReadState.pages rst = block_page <$> blocks st →
  CombinedMd.ReadState.current_page rst = current_page st →
  CombinedMd.ReadState.current_lines rst = current_lines st →
  CombinedMd.ReadState.pages (foldl CombinedMd.read_step rst lines)
  = block_page <$> blocks (foldl split_step st lines).
Proof.
  revert st rst. induction lines as [|line lines IH];
    intros st rst Hp Hc Hl; [done|].
  cbn [foldl]. apply IH; clear IH;
    unfold CombinedMd.read_step, split_step,
      CombinedMd.MD_PAGE_START_RE, CombinedMd.MD_PAGE_END_RE,
      PAGE_START_RE, PAGE_END_RE;
    destruct (match_page_delim (lit "---[Start PDF page ") line);
    try done;
    destruct (match_page_delim (lit "---[End PDF page ") line);
    rewrite ?Hc; destruct (current_page st) eqn:Hcur; cbn; try done.
  - rewrite fmap_app, Hp, Hl. done.
  - by rewrite Hl.
Qed.

(** X18. On a text whose only line boundary is the newline, the pages
    that the classifier reads are the page blocks that the merger splits
    the same text into, in the order sorted by page number: each page has
    the number of its block and, as its text, the lines of the block
    joined and stripped. *)
Theorem read_combined_md_blocks content :
  newline_only content →
  CombinedMd.read_combined_md content
  = CombinedMd.sort_pages (block_page <$> (split_into_pages content).2).
Proof.
  intros Hplain. unfold CombinedMd.read_combined_md. f_equal.
  unfold CombinedMd.read_pages, split_into_pages. cbn [snd].
  rewrite (read_step_split_step _
             {| blocks := []; preamble := []; current_page := None;
                current_lines := []; current_start := [] |}) by done.
  f_equal. unfold split_lines, CombinedMd.splitlines.
  destruct (split_go_splitlines [] content Hplain)
    as (tail & [->| ->] & ->).
  - by rewrite app_nil_r.
  - rewrite foldl_snoc. by rewrite split_step_blank_blocks.
Qed.

Lemma read_combined_md_blocks_witness :
  CombinedMd.read_combined_md Sample.brief
  = CombinedMd.sort_pages
      (block_page <$> (split_into_pages Sample.brief).2).
Proof.
  apply read_combined_md_blocks.
  unfold newline_only.
  apply (bool_decide_unpack
           (Forall (λ c, CombinedMd.is_linebreak c = true → c = LF)
                   Sample.brief)).
  vm_compute. exact I.
Defined.

(** A form feed in a page is a line boundary for the classifier, which
    reads a newline in its place, and none for the merger. *)
Example read_combined_md_form_feed :
  CombinedMd.SourcePage.text
    <$> CombinedMd.read_combined_md
          (join_lines (Sample.page_text 1 [ lit "a" ++ [FF] ++ lit "b" ]))
  = [ lit "a" ++ [LF] ++ lit "b" ]
  ∧ Block.lines
      <$> (split_into_pages
             (join_lines (Sample.page_text 1 [ lit "a" ++ [FF] ++ lit "b" ]))).2
    = [ [ lit "a" ++ [FF] ++ lit "b" ] ].
Proof. split; vm_compute; reflexivity. Qed.

(** *** The order of the pages *)

Lemma insert_page_perm x l : CombinedMd.insert_page x l ≡ₚ x :: l.
Proof.
  induction l as [|y l IH]; [done|]. simpl. case_bool_decide; [done|].
  rewrite IH. apply Permutation_swap.
Qed.

Lemma sort_pages_perm l : CombinedMd.sort_pages l ≡ₚ l.
Proof.
  induction l as [|x l IH]; [done|]. simpl.
  by rewrite insert_page_perm, IH.
Qed.

Lemma insert_page_sorted x l :
  StronglySorted Z.le (CombinedMd.SourcePage.number <$> l) →
  StronglySorted Z.le
    (CombinedMd.SourcePage.number <$> CombinedMd.insert_page x l).
Proof.
  induction l as [|y l IH]; intros Hs.
  { simpl. repeat constructor. }
  cbn [CombinedMd.insert_page]. case_bool_decide as Hle.
  - rewrite fmap_cons. constructor; [done|].
    rewrite fmap_cons in Hs. apply StronglySorted_inv in Hs as [Hs Hy].
    rewrite fmap_cons. constructor; [done|].
    eapply Forall_impl; [exact Hy|]. intros z Hz. simpl in Hz. lia.
  - rewrite fmap_cons in *. apply StronglySorted_inv in Hs as [Hs Hy].
    constructor; [by apply IH|].
    rewrite insert_page_perm, fmap_cons. constructor; [lia|done].
Qed.

Lemma sort_pages_sorted l :
  StronglySorted Z.le
    (CombinedMd.SourcePage.number <$> CombinedMd.sort_pages l).
Proof.
  induction l as [|x l IH]; [constructor|]. by apply insert_page_sorted.
Qed.

Lemma find_page_insert_page x l p :
  find_page (CombinedMd.SourcePage.page <$> CombinedMd.insert_page x l) p
  = find_page (CombinedMd.SourcePage.page <$> x :: l) p.
Proof.
  induction l as [|y l IH]; [done|].
  cbn [CombinedMd.insert_page]. case_bool_decide as Hle; [done|].
  rewrite !fmap_cons in *. cbn [find_page] in *.
  cbn [CombinedMd.SourcePage.page Page.number] in *.
  rewrite IH.
  destruct (decide (CombinedMd.SourcePage.number y = p)) as [Hy|Hy].
  - rewrite (bool_decide_eq_true_2 _ Hy).
    rewrite bool_decide_eq_false_2; [done|]. lia.
  - rewrite (bool_decide_eq_false_2 _ Hy). done.
Qed.

Lemma find_page_sort_pages l p :
  find_page (CombinedMd.SourcePage.page <$> CombinedMd.sort_pages l) p
  = find_page (CombinedMd.SourcePage.page <$> l) p.
Proof.
  induction l as [|x l IH]; [done|]. cbn [CombinedMd.sort_pages].
  rewrite find_page_insert_page, !fmap_cons. cbn [find_page].
  by rewrite IH.
Qed.

(** Sorting is stable: the pages that carry one number come out in the
    order in which they went in. *)
Lemma insert_page_same_number x l n :
  filter (λ pg, CombinedMd.SourcePage.number pg = n)
         (CombinedMd.insert_page x l)
  = filter (λ pg, CombinedMd.SourcePage.number pg = n) (x :: l).
Proof.
  induction l as [|y l IH]; [done|].
  cbn [CombinedMd.insert_page]. case_bool_decide as Hle; [done|].
  rewrite (filter_cons _ y), IH, !(filter_cons _ x), (filter_cons _ y).
  destruct (decide (CombinedMd.SourcePage.number x = n)) as [Hx|Hx];
    [|done].
  destruct (decide (CombinedMd.SourcePage.number y = n)) as [Hy|Hy];
    [lia|done].
Qed.

Lemma sort_pages_same_number l n :
  filter (λ pg, CombinedMd.SourcePage.number pg = n)
         (CombinedMd.sort_pages l)
  = filter (λ pg, CombinedMd.SourcePage.number pg = n) l.
Proof.
  induction l as [|x l IH]; [done|]. cbn [CombinedMd.sort_pages].
  by rewrite insert_page_same_number, !filter_cons, IH.
Qed.

(** X19. [read_combined_md] returns the pages of the file in ascending
    order of their numbers, each page once, and pages with one number
    keep the order of the file: for every number [n], the pages numbered
    [n] are, in the result, the same list in the same order as in the
    file. So a lookup by page number, as the search does it, finds the
    page that comes first in the file. *)
Theorem read_combined_md_sorted content p :
  StronglySorted Z.le
    (CombinedMd.SourcePage.number <$> CombinedMd.read_combined_md content)
  ∧ CombinedMd.read_combined_md content ≡ₚ CombinedMd.read_pages content
  ∧ (∀ n,
       filter (λ pg, CombinedMd.SourcePage.number pg = n)
              (CombinedMd.read_combined_md content)
       = filter (λ pg, CombinedMd.SourcePage.number pg = n)
                (CombinedMd.read_pages content))
  ∧ find_page
      (CombinedMd.SourcePage.page <$> CombinedMd.read_combined_md content) p
    = find_page
        (CombinedMd.SourcePage.page <$> CombinedMd.read_pages content) p.
Proof.
  unfold CombinedMd.read_combined_md. split; [|split; [|split]].
  - apply sort_pages_sorted.
  - apply sort_pages_perm.
  - intros n. apply sort_pages_same_number.
  - apply find_page_sort_pages.
Qed.

(** Two pages numbered 2 before page 1: the search on page 2 reads the
    first of them. *)
Example read_combined_md_same_number :
  (λ pg, (CombinedMd.SourcePage.number pg, CombinedMd.SourcePage.filename pg,
          CombinedMd.SourcePage.text pg))
    <$> CombinedMd.read_combined_md
          (join_lines (Sample.page_text 2 [ lit " first " ]
                       ++ Sample.page_text 2 [ lit "second" ]
                       ++ Sample.page_text 1 [ lit "cover" ]))
  = [ (1, lit "page_0001.txt", lit "cover");
      (2, lit "page_0002.txt", lit "first");
      (2, lit "page_0002.txt", lit "second") ].
Proof. vm_compute. reflexivity. Qed.

(** ** [normalize_search_fields] and [verify_search_fields] together *)

Lemma normalize_coa_idempotent coa :
  SearchFields.normalize_coa (SearchFields.normalize_coa coa)
  = SearchFields.normalize_coa coa.
Proof.
  unfold SearchFields.normalize_coa.
  destruct (Coa.search_text coa) as [s|] eqn:Hs; [done|]. by rewrite Hs.
Qed.

Lemma normalize_document_title_idempotent ci :
  SearchFields.normalize_document_title
    (SearchFields.normalize_document_title ci)
  = SearchFields.normalize_document_title ci.
Proof.
  unfold SearchFields.normalize_document_title.
  destruct (CaptionInfo.document_title ci) as [[dt|s]|] eqn:Hdt; try done.
  by rewrite Hdt.
Qed.

(** X20. [normalize_search_fields] is idempotent: flattening a result
    that is already flattened changes nothing. *)
Theorem normalize_search_fields_idempotent result_ :
  SearchFields.normalize_search_fields
    (SearchFields.normalize_search_fields result_)
  = SearchFields.normalize_search_fields result_.
Proof.
  unfold SearchFields.normalize_search_fields.
  cbn [Result.caption_info Result.causes_of_action Result.pages].
  rewrite normalize_document_title_idempotent. f_equal.
  destruct (Result.causes_of_action result_) as [coas|]; [|done].
  cbn [fmap option_fmap option_map]. f_equal.
  rewrite <- list_fmap_compose. apply list_fmap_ext.
  intros i coa _. apply normalize_coa_idempotent.
Qed.

Lemma mapM_fmap_Ok {A B C} (f : B → result C) (h : A → B) (g : A → C)
    (l : list A) :
  (∀ x, f (h x) = Ok (g x)) → mapM f (h <$> l) = Ok (g <$> l).
Proof.
  intros Hf. induction l as [|x l IH]; [done|].
  cbn [fmap list_fmap mapM] in *. by rewrite Hf, IH.
Qed.

Lemma verify_normalized_coa pages coa :
  verify_coa_title pages (SearchFields.normalize_coa coa)
  = Ok (blank_title coa).
Proof.
  unfold verify_coa_title, SearchFields.normalize_coa, blank_title.
  destruct (Coa.search_text coa) as [s|] eqn:Hs.
  - cbn. reflexivity.
  - rewrite Hs. cbn. reflexivity.
Qed.

(** X21. Verification of a result that is already flattened finds no
    proposal to search for: it returns without error, leaves the caption
    as it is, and sets the title of every cause of action to the empty
    string (the [search_text] key it reads the proposal from is gone). *)
Theorem verify_after_normalize result_ pages :
  verify_search_fields (SearchFields.normalize_search_fields result_) pages
  = Ok {| Result.caption_info :=
            SearchFields.normalize_document_title
              (Result.caption_info result_);
          Result.causes_of_action :=
            (λ coas : list Coa.t, blank_title <$> coas)
              <$> Result.causes_of_action result_;
          Result.pages := Result.pages result_ |}.
Proof.
  unfold verify_search_fields, SearchFields.normalize_search_fields.
  cbn [Result.caption_info Result.causes_of_action Result.pages].
  assert (verify_document_title
            (SearchFields.normalize_document_title
               (Result.caption_info result_)) pages
          = Ok (SearchFields.normalize_document_title
                  (Result.caption_info result_))) as ->.
  { unfold verify_document_title, SearchFields.normalize_document_title.
    destruct (CaptionInfo.document_title (Result.caption_info result_))
      as [[dt|s]|] eqn:Hdt; try done. by rewrite Hdt. }
  cbn [bind].
  destruct (Result.causes_of_action result_) as [coas|]; [|done].
  cbn [fmap option_fmap option_map].
  rewrite (mapM_fmap_Ok _ SearchFields.normalize_coa blank_title);
    [done|]. apply verify_normalized_coa.
Qed.

(** The titles are lost: the proposal of the raw result is not in the
    output of a verification that follows the flattening. *)
Example verify_after_normalize_title :
  (λ out, Coa.title <$> default [] (Result.causes_of_action out))
    <$> (match verify_search_fields
                 (SearchFields.normalize_search_fields
                    {| Result.caption_info :=
                         {| CaptionInfo.document_title := None;
                            CaptionInfo.document_title_verified := None;
                            CaptionInfo.document_title_proposed_value :=
                              None |};
                       Result.causes_of_action :=
                         Some [ {| Coa.number := Some 1;
                                   Coa.search_text := Some (lit "Fraud");
                                   Coa.page := Some 1;
                                   Coa.paragraph_range := None;
                                   Coa.title := None;
                                   Coa.title_verified := None;
                                   Coa.title_proposed_value := None;
                                   Coa.paragraph_range_verified := None;
                                   Coa.missing_paragraphs := None |} ];
                       Result.pages := None |})
                 [ {| Page.number := 1;
                      Page.text := lit "FIRST CAUSE OF ACTION: Fraud" |} ]
         with Ok out => Some out | Raise _ => None end)
  = Some [ Some [] ].
Proof. vm_compute. reflexivity. Qed.

(** *** Where a verified title comes from *)

Lemma found_title_verbatim pages proposal page v :
  search_source_text proposal page pages = Ok (Some v) →
  proposal_or_verbatim pages proposal page v (Some true).
Proof.
  intros H. right. split; [done|].
  split; [by eapply search_result_nonempty|].
  destruct (decide (normalize proposal = [])) as [Hn|Hn].
  { rewrite search_blank in H by done. done. }
  destruct (find_page pages page) as [pg|] eqn:Hpg.
  2:{ rewrite search_no_page in H by done. done. }
  destruct (find (normalize (Page.text pg)) (normalize proposal))
    as [idx|] eqn:Hf.
  2:{ erewrite search_find_none in H by done. done. }
  destruct (search_found _ _ _ _ _ Hpg Hn Hf)
    as (a & r & b & Hsplit & _ & _ & _ & H').
  rewrite H' in H. injection H as <-. by exists pg, a, b.
Qed.

Lemma coa_title_proposal_or_verbatim pages coa coa' :
  coa_title_verified pages coa coa' →
  ∃ title,
    Coa.title coa' = Some title
    ∧ proposal_or_verbatim pages (default [] (Coa.search_text coa))
        (default 0 (Coa.page coa)) title (Coa.title_verified coa').
Proof.
  unfold coa_title_verified. case_bool_decide.
  - destruct (search_source_text _ _ pages) as [[v|]|] eqn:Hs; [| |done].
    + intros [Ht Hv]. exists v. split; [done|]. rewrite Hv.
      by eapply found_title_verbatim.
    + intros (Ht & _). eexists. split; [done|]. by left.
  - intros (Ht & _). eexists. split; [done|]. by left.
Qed.

Lemma document_title_proposal_or_verbatim pages dt ci ci' :
  document_title_verified pages dt ci ci' →
  ∃ title,
    CaptionInfo.document_title ci' = Some (Text title)
    ∧ proposal_or_verbatim pages (default [] (SearchField.search_text dt))
        (default 1 (SearchField.page dt)) title
        (CaptionInfo.document_title_verified ci').
Proof.
  unfold document_title_verified. case_bool_decide.
  - destruct (search_source_text _ _ pages) as [[v|]|] eqn:Hs; [| |done].
    + intros [Ht Hv]. exists v. split; [done|]. rewrite Hv.
      by eapply found_title_verbatim.
    + intros (Ht & _). eexists. split; [done|]. by left.
  - intros (Ht & _). eexists. split; [done|]. by left.
Qed.

(** X22. Verification never invents a title: in its output the document
    title (when the input holds a proposal object for it) and the title
    of every cause of action are either the proposal of the input,
    unchanged, or marked verified and then a piece, not empty, of the
    text of the page that the proposal names (page 1 for a document title
    without page). *)
Theorem verified_titles_from_pages result_ pages :
  ∃ out,
    verify_search_fields result_ pages = Ok out
    ∧ (∀ dt,
         CaptionInfo.document_title (Result.caption_info result_)
           = Some (Object dt) →
         ∃ title,
           CaptionInfo.document_title (Result.caption_info out)
             = Some (Text title)
           ∧ proposal_or_verbatim pages
               (default [] (SearchField.search_text dt))
               (default 1 (SearchField.page dt)) title
               (CaptionInfo.document_title_verified
                  (Result.caption_info out)))
    ∧ (∀ coas i coa,
         Result.causes_of_action result_ = Some coas →
         coas !! i = Some coa →
         ∃ coas' coa' title,
           Result.causes_of_action out = Some coas'
           ∧ coas' !! i = Some coa'
           ∧ Coa.title coa' = Some title
           ∧ proposal_or_verbatim pages
               (default [] (Coa.search_text coa))
               (default 0 (Coa.page coa)) title
               (Coa.title_verified coa')).
Proof.
  unfold verify_search_fields.
  destruct (verify_document_title_total pages (Result.caption_info result_))
    as [ci' Hci]. rewrite Hci. cbn [bind].
  assert (∀ dt,
            CaptionInfo.document_title (Result.caption_info result_)
              = Some (Object dt) →
            ∃ title,
              CaptionInfo.document_title ci' = Some (Text title)
              ∧ proposal_or_verbatim pages
                  (default [] (SearchField.search_text dt))
                  (default 1 (SearchField.page dt)) title
                  (CaptionInfo.document_title_verified ci')) as Htitle.
  { intros dt Hdt.
    destruct (verify_document_title_spec pages _ dt Hdt) as (ci2 & H2 & Hspec).
    assert (ci2 = ci') as -> by congruence.
    by eapply document_title_proposal_or_verbatim. }
  destruct (Result.causes_of_action result_) as [coas|] eqn:Hcoas.
  - destruct (mapM_verify_coa_title pages coas) as (coas' & Hm & Hall).
    rewrite Hm. cbn [bind]. eexists. split; [reflexivity|].
    split; [exact Htitle|].
    intros ? i coa [= <-] Hi.
    destruct (Forall2_lookup_l _ _ _ _ _ Hall Hi) as (coa' & Hi' & Hv).
    destruct (verify_coa_title_spec pages coa) as (coa2 & H2 & Hspec & _).
    assert (coa2 = coa') as -> by congruence.
    destruct (coa_title_proposal_or_verbatim _ _ _ Hspec) as (title & Ht & Hp).
    by exists coas', coa', title.
  - eexists. split; [reflexivity|]. split; [exact Htitle|]. done.
Qed.

(** ** [merge_image_review]: what the answers can change *)

Lemma page_map_snoc pages x :
  ImageReview.page_map (pages ++ [x])
  = <[ImageReview.Page.page_number x := length pages]>
      (ImageReview.page_map pages).
Proof.
  unfold ImageReview.page_map. rewrite imap_app, foldl_app. cbn.
  by rewrite Nat.add_0_r.
Qed.

(** A reference of [page_map] leads to a page with the number asked. *)
Lemma page_map_lookup pages n i :
  ImageReview.page_map pages !! n = Some i →
  ∃ p, pages !! i = Some p ∧ ImageReview.Page.page_number p = n.
Proof.
  induction pages as [|x pages IH] using rev_ind; [done|].
  rewrite page_map_snoc.
  destruct (decide (n = ImageReview.Page.page_number x)) as [->|Hn].
  - rewrite lookup_insert_eq. intros [= <-]. exists x.
    by rewrite list_lookup_middle.
  - rewrite lookup_insert_ne by done. intros (p & Hp & Hnum)%IH.
    exists p. split; [|done]. rewrite lookup_app_l; [done|].
    by eapply lookup_lt_Some.
Qed.

Lemma page_reviewed_refl p : page_reviewed [] p p.
Proof. repeat split; auto. Qed.

Lemma page_reviewed_snoc answers a p p' :
  page_reviewed answers p p' → page_reviewed (answers ++ [a]) p p'.
Proof.
  intros (Hn & Hc & Hf & Hu). repeat split; try done.
  intros Hno. apply Hu. intros a' Ha'. apply Hno.
  apply elem_of_app. by left.
Qed.

(** One update through [page_map], by a function that keeps what
    [page_reviewed] asks for. *)
Lemma page_reviewed_alter answers a pages0 pages i f :
  (∀ p, ImageReview.Page.page_number (f p) = ImageReview.Page.page_number p) →
  (∀ p, ImageReview.Page.category (f p) = ImageReview.Page.category p
        ∨ ImageReview.Page.category (f p) ∈ ImageReview.CATEGORIES) →
  (∀ p, (ImageReview.Page.footnotes (f p) = ImageReview.Page.footnotes p
         ∧ ImageReview.Page.has_footnote (f p)
           = ImageReview.Page.has_footnote p)
        ∨ ∃ fns, ImageReview.Page.footnotes (f p) = Some fns ∧ fns ≠ []
                 ∧ ImageReview.Page.has_footnote (f p) = Some true) →
  ImageReview.page_map pages0 !! ImageReview.Answer.page_number a = Some i →
  Forall2 (page_reviewed (answers ++ [a])) pages0 pages →
  Forall2 (page_reviewed (answers ++ [a])) pages0 (alter f i pages).
Proof.
  intros Hnum Hcat Hfn Hmap Hall.
  apply page_map_lookup in Hmap as (p0 & Hp0 & Hn0).
  apply Forall2_same_length_lookup. 
  apply Forall2_same_length_lookup in Hall as [Hlen Hall].
  split; [by rewrite length_alter|].
  intros j x y Hx Hy.
  destruct (decide (j = i)) as [->|Hj].
  - rewrite list_lookup_alter_eq in Hy.
    destruct (pages !! i) as [y0|] eqn:Hy0; [|done].
    injection Hy as <-.
    destruct (Hall i x y0 Hx Hy0) as (Hn & Hc & Hf & Hu).
    assert (x = p0) as -> by congruence.
    repeat split.
    + by rewrite Hnum.
    + destruct (Hcat y0) as [Hc'|Hc']; [|by right]. by rewrite Hc'.
    + destruct (Hfn y0) as [[Hf1 Hf2]|Hf']; [|by right].
      by rewrite Hf1, Hf2.
    + intros Hno. exfalso. apply (Hno a); [|done].
      apply elem_of_app. right. by left.
  - rewrite list_lookup_alter_ne in Hy by done. by eapply Hall.
Qed.

Lemma update_pages_reviewed answers a pages0 pages :
  Forall2 (page_reviewed answers) pages0 pages →
  Forall2 (page_reviewed (answers ++ [a])) pages0
    (ImageReview.update_pages (ImageReview.page_map pages0) a pages).
Proof.
  intros Hall.
  assert (Forall2 (page_reviewed (answers ++ [a])) pages0 pages) as H0.
  { eapply Forall2_impl; [exact Hall|]. intros. by apply page_reviewed_snoc. }
  clear Hall. unfold ImageReview.update_pages.
  destruct (ImageReview.page_map pages0 !! ImageReview.Answer.page_number a)
    as [i|] eqn:Hmap;
    (destruct (truthy (ImageReview.Answer.updated_category a)) as [cat|];
       [destruct (decide (cat ∈ ImageReview.CATEGORIES)) as [Hcat|Hcat];
          [rewrite (bool_decide_eq_true_2 _ Hcat)
          |rewrite (bool_decide_eq_false_2 _ Hcat)]|]);
    destruct (truthy (ImageReview.Answer.updated_exhibit_label a))
      as [label|];
    destruct (ImageReview.Answer.updated_footnotes a) as [[|fn fns]|];
    cbn zeta iota; try exact H0;
    repeat (eapply page_reviewed_alter;
            [ intros p; try case_bool_decide; done
            | intros p; try case_bool_decide;
              first [ by left | right; exact Hcat ]
            | intros p;
              first [ left; try case_bool_decide; done
                    | right; by eexists ]
            | exact Hmap
            | ]);
    exact H0.
Qed.

Lemma apply_answers_reviewed pages0 done_ answers st :
  Forall2 (page_reviewed done_) pages0 (ImageReview.MergeState.pages st) →
  Forall2 (page_reviewed (done_ ++ answers)) pages0
    (ImageReview.MergeState.pages
       (foldl (ImageReview.apply_answer (ImageReview.page_map pages0))
              st answers)).
Proof.
  revert done_ st. induction answers as [|a answers IH]; intros done_ st Hall.
  { by rewrite app_nil_r. }
  cbn [foldl]. rewrite (assoc_L (++) done_ [a] answers : 
                          done_ ++ a :: answers = (done_ ++ [a]) ++ answers).
  apply IH. cbn [ImageReview.apply_answer ImageReview.MergeState.pages].
  by apply update_pages_reviewed.
Qed.

(** X23. The answers of the image review change the pages of the first
    pass only in this way: the list keeps its length and every page its
    number; a category changes only to one of [CATEGORIES]; footnotes are
    only ever replaced by a list that is not empty, the page then being
    marked as having footnotes (an answer cannot clear them); and a page
    whose number no answer names is unchanged. The result is marked as
    reviewed. *)
Theorem merge_image_review_pages pass1 pass2 :
  Forall2 (page_reviewed (default [] (ImageReview.Pass2.answers pass2)))
    (ImageReview.Pass1.pages pass1)
    (ImageReview.Pass1.pages (ImageReview.merge_image_review pass1 pass2))
  ∧ ImageReview.Pass1.image_review_completed
      (ImageReview.merge_image_review pass1 pass2) = Some true.
Proof.
  split; [|done].
  unfold ImageReview.merge_image_review. cbn [ImageReview.Pass1.pages].
  apply (apply_answers_reviewed _ []).
  cbn [ImageReview.MergeState.pages].
  apply Forall2_same_length_lookup. split; [done|].
  intros i x y Hx Hy. assert (x = y) as -> by congruence.
  apply page_reviewed_refl.
Qed.

(** *** The caption *)

Lemma review_field_other u st field :
  field ≠ ImageReview.FILING_DATE →
  (ImageReview.review_field u st field).1 = st.1.
Proof.
  intros Hf. unfold ImageReview.review_field.
  destruct (nonempty _); [|done]. case_bool_decide; [|done].
  by destruct field.
Qed.

Lemma review_field_filing_date u st :
  let st' := ImageReview.review_field u st ImageReview.FILING_DATE in
  ImageReview.PerField.document_title st'.1
  = ImageReview.PerField.document_title st.1
  ∧ ImageReview.PerField.case_number st'.1
    = ImageReview.PerField.case_number st.1
  ∧ ImageReview.PerField.filing_date st'.1
    = match truthy (ImageReview.PerField.filing_date u) with
      | Some d => Some (Text d)
      | None => ImageReview.PerField.filing_date st.1
      end.
Proof.
  unfold ImageReview.review_field. cbn [ImageReview.PerField.get].
  destruct (ImageReview.PerField.filing_date u) as [[|c s]|]; cbn; try done.
  case_bool_decide as Hne; cbn; [done|].
  split; [done|]. split; [done|].
  destruct (ImageReview.PerField.filing_date st.1) as [v|]; cbn in Hne.
  - by rewrite Hne.
  - done.
Qed.

Lemma review_caption_caption a st :
  ImageReview.PerField.document_title (ImageReview.review_caption a st).1
  = ImageReview.PerField.document_title st.1
  ∧ ImageReview.PerField.case_number (ImageReview.review_caption a st).1
    = ImageReview.PerField.case_number st.1
  ∧ ImageReview.PerField.filing_date (ImageReview.review_caption a st).1
    = match truthy (ImageReview.PerField.filing_date
                      (default ImageReview.no_updates
                         (ImageReview.Answer.caption_updates a))) with
      | Some d => Some (Text d)
      | None => ImageReview.PerField.filing_date st.1
      end.
Proof.
  unfold ImageReview.review_caption, ImageReview.caption_fields.
  cbn [foldl]. rewrite !review_field_other by done.
  apply review_field_filing_date.
Qed.

Lemma apply_answers_caption pm answers st :
  let st' := foldl (ImageReview.apply_answer pm) st answers in
  ImageReview.PerField.document_title (ImageReview.MergeState.caption st').1
  = ImageReview.PerField.document_title (ImageReview.MergeState.caption st).1
  ∧ ImageReview.PerField.case_number (ImageReview.MergeState.caption st').1
    = ImageReview.PerField.case_number (ImageReview.MergeState.caption st).1
  ∧ ImageReview.PerField.filing_date (ImageReview.MergeState.caption st').1
    = match last (proposed_filing_dates answers) with
      | Some d => Some (Text d)
      | None =>
          ImageReview.PerField.filing_date (ImageReview.MergeState.caption st).1
      end.
Proof.
  revert st. induction answers as [|a answers IH]; intros st; [done|].
  cbn [foldl]. destruct (IH (ImageReview.apply_answer pm st a))
    as (Hd & Hc & Hf).
  cbn zeta. rewrite Hd, Hc, Hf.
  cbn [ImageReview.apply_answer ImageReview.MergeState.caption].
  destruct (review_caption_caption a (ImageReview.MergeState.caption st))
    as (Hd' & Hc' & Hf').
  rewrite Hd', Hc', Hf'. split; [done|]. split; [done|].
  unfold proposed_filing_dates. cbn [omap list_omap].
  fold (proposed_filing_dates answers).
  destruct (truthy _) as [d|].
  - rewrite last_cons. by destruct (last (proposed_filing_dates answers)).
  - done.
Qed.

(** X24. The image review never changes the document title or the case
    number of the caption (the value read from the text is kept for typed
    content); the filing date becomes the last filing date that an answer
    proposes (a value that is not empty), and is unchanged when no answer
    proposes one. *)
Theorem merge_image_review_caption pass1 pass2 :
  ImageReview.PerField.document_title
    (ImageReview.Pass1.caption_info
       (ImageReview.merge_image_review pass1 pass2))
  = ImageReview.PerField.document_title
      (ImageReview.Pass1.caption_info pass1)
  ∧ ImageReview.PerField.case_number
      (ImageReview.Pass1.caption_info
         (ImageReview.merge_image_review pass1 pass2))
    = ImageReview.PerField.case_number
        (ImageReview.Pass1.caption_info pass1)
  ∧ ImageReview.PerField.filing_date
      (ImageReview.Pass1.caption_info
         (ImageReview.merge_image_review pass1 pass2))
    = match last (proposed_filing_dates
                    (default [] (ImageReview.Pass2.answers pass2))) with
      | Some d => Some (Text d)
      | None =>
          ImageReview.PerField.filing_date
            (ImageReview.Pass1.caption_info pass1)
      end.
Proof.
  unfold ImageReview.merge_image_review.
  cbn [ImageReview.Pass1.caption_info].
  apply (apply_answers_caption _ _
           {| ImageReview.MergeState.pages := ImageReview.Pass1.pages pass1;
              ImageReview.MergeState.caption :=
                (ImageReview.Pass1.caption_info pass1,
                 ImageReview.no_review) |}).
Qed.

(** Two pages numbered 3: an answer for page 3 changes the later one.
    A title proposed by the image is recorded and not chosen; a stamped
    date is. *)
Example merge_image_review_sample :
  ImageReview.merge_image_review
    {| ImageReview.Pass1.pages :=
         [ {| ImageReview.Page.page_number := 3;
              ImageReview.Page.category := lit "Pleading body";
              ImageReview.Page.exhibit_label := None;
              ImageReview.Page.footnotes := None;
              ImageReview.Page.has_footnote := Some false |};
           {| ImageReview.Page.page_number := 3;
              ImageReview.Page.category := lit "Pleading body";
              ImageReview.Page.exhibit_label := None;
              ImageReview.Page.footnotes := None;
              ImageReview.Page.has_footnote := Some false |} ];
       ImageReview.Pass1.caption_info :=
         {| ImageReview.PerField.filing_date := Some (Text (lit "May 1"));
            ImageReview.PerField.document_title :=
              Some (Object {| SearchField.search_text := Some (lit "COMPLAINT");
                              SearchField.page := Some 1 |});
            ImageReview.PerField.case_number := None |};
       ImageReview.Pass1.caption_review := None;
       ImageReview.Pass1.image_review_completed := None |}
    {| ImageReview.Pass2.answers :=
         Some [ {| ImageReview.Answer.page_number := 3;
                   ImageReview.Answer.updated_category :=
                     Some (lit "Exhibit content");
                   ImageReview.Answer.updated_exhibit_label := Some [];
                   ImageReview.Answer.updated_footnotes := Some [];
                   ImageReview.Answer.caption_updates :=
                     Some {| ImageReview.PerField.filing_date :=
                               Some (lit "May 2");
                             ImageReview.PerField.document_title :=
                               Some (lit "COMPLAINT");
                             ImageReview.PerField.case_number := Some [] |}
                |} ] |}
  = {| ImageReview.Pass1.pages :=
         [ {| ImageReview.Page.page_number := 3;
              ImageReview.Page.category := lit "Pleading body";
              ImageReview.Page.exhibit_label := None;
              ImageReview.Page.footnotes := None;
              ImageReview.Page.has_footnote := Some false |};
           {| ImageReview.Page.page_number := 3;
              ImageReview.Page.category := lit "Exhibit content";
              ImageReview.Page.exhibit_label := None;
              ImageReview.Page.footnotes := None;
              ImageReview.Page.has_footnote := Some false |} ];
       ImageReview.Pass1.caption_info :=
         {| ImageReview.PerField.filing_date := Some (Text (lit "May 2"));
            ImageReview.PerField.document_title :=
              Some (Object {| SearchField.search_text := Some (lit "COMPLAINT");
                              SearchField.page := Some 1 |});
            ImageReview.PerField.case_number := None |};
       ImageReview.Pass1.caption_review :=
         Some {| ImageReview.PerField.filing_date :=
                   Some {| ImageReview.Entry.text_value := Text (lit "May 1");
                           ImageReview.Entry.image_value := lit "May 2";
                           ImageReview.Entry.source := lit "image_review";
                           ImageReview.Entry.chosen := lit "image" |};
                 ImageReview.PerField.document_title :=
                   Some {| ImageReview.Entry.text_value :=
                             Object {| SearchField.search_text :=
                                         Some (lit "COMPLAINT");
                                       SearchField.page := Some 1 |};
                           ImageReview.Entry.image_value := lit "COMPLAINT";
                           ImageReview.Entry.source := lit "image_review";
                           ImageReview.Entry.chosen := lit "text" |};
                 ImageReview.PerField.case_number := None |};
       ImageReview.Pass1.image_review_completed := Some true |}.
Proof. vm_compute. reflexivity. Qed.

(** ** [write_classification_csv]: one row for each page of the store *)

Lemma classified_snoc result_pages p :
  ClassificationCsv.classified (result_pages ++ [p])
  = <[ClassificationCsv.ClassifiedPage.page_number p := p]>
      (ClassificationCsv.classified result_pages).
Proof. unfold ClassificationCsv.classified. by rewrite foldl_snoc. Qed.

Lemma classified_lookup result_pages n :
  ClassificationCsv.classified result_pages !! n
  = classification_of n result_pages.
Proof.
  unfold classification_of.
  induction result_pages as [|p l IH] using rev_ind; [done|].
  rewrite classified_snoc, filter_app.
  destruct (decide (ClassificationCsv.ClassifiedPage.page_number p = n))
    as [Hn|Hn].
  - rewrite <- Hn at 1. rewrite lookup_insert_eq.
    rewrite filter_cons_True by done. by rewrite filter_nil, last_snoc.
  - rewrite lookup_insert_ne by done.
    rewrite filter_cons_False by done. by rewrite filter_nil, app_nil_r.
Qed.

(** X26. The classification table has one row for each page of the page
    store, in the order of the store, whatever pages the classification
    output lists: the row of a page carries the category of the last
    classification with its page number and is named after that number;
    a page without classification, or whose classification has no
    category, is entered as Pleading body; a classification for a page
    number that is not in the store gives no row. *)
Theorem classification_rows result_pages pages :
  length (ClassificationCsv.rows result_pages pages) = length pages
  ∧ ∀ i pg,
      pages !! i = Some pg →
      ∃ r,
        ClassificationCsv.rows result_pages pages !! i = Some r
        ∧ ClassificationCsv.Row.filename r
          = lit "page_" ++ CombinedMd.format_04d (Page.number pg)
            ++ lit ".png"
        ∧ ClassificationCsv.Row.category r
          = default (lit "Pleading body")
              (classification_of (Page.number pg) result_pages
               ≫= ClassificationCsv.ClassifiedPage.category).
Proof.
  unfold ClassificationCsv.rows. split; [apply length_fmap|].
  intros i pg Hi. eexists. rewrite list_lookup_fmap, Hi.
  split; [reflexivity|]. split; [reflexivity|].
  cbn [ClassificationCsv.row ClassificationCsv.Row.category].
  by rewrite classified_lookup.
Qed.

Example classification_rows_sample :
  (λ r, (ClassificationCsv.Row.filename r, ClassificationCsv.Row.category r))
    <$> ClassificationCsv.rows
          [ {| ClassificationCsv.ClassifiedPage.page_number := 2;
               ClassificationCsv.ClassifiedPage.category := Some (lit "Form");
               ClassificationCsv.ClassifiedPage.subtype := None;
               ClassificationCsv.ClassifiedPage.exhibit_label := None;
               ClassificationCsv.ClassifiedPage.exhibit_title := None;
               ClassificationCsv.ClassifiedPage.nested_exhibit_label := None;
               ClassificationCsv.ClassifiedPage.nested_exhibit_title := None;
               ClassificationCsv.ClassifiedPage.exhibit_notes := None;
               ClassificationCsv.ClassifiedPage.notes := None |};
            {| ClassificationCsv.ClassifiedPage.page_number := 2;
               ClassificationCsv.ClassifiedPage.category :=
                 Some (lit "Proof of service");
               ClassificationCsv.ClassifiedPage.subtype := None;
               ClassificationCsv.ClassifiedPage.exhibit_label := None;
               ClassificationCsv.ClassifiedPage.exhibit_title := None;
               ClassificationCsv.ClassifiedPage.nested_exhibit_label := None;
               ClassificationCsv.ClassifiedPage.nested_exhibit_title := None;
               ClassificationCsv.ClassifiedPage.exhibit_notes := None;
               ClassificationCsv.ClassifiedPage.notes := None |};
            {| ClassificationCsv.ClassifiedPage.page_number := 7;
               ClassificationCsv.ClassifiedPage.category := Some (lit "Form");
               ClassificationCsv.ClassifiedPage.subtype := None;
               ClassificationCsv.ClassifiedPage.exhibit_label := None;
               ClassificationCsv.ClassifiedPage.exhibit_title := None;
               ClassificationCsv.ClassifiedPage.nested_exhibit_label := None;
               ClassificationCsv.ClassifiedPage.nested_exhibit_title := None;
               ClassificationCsv.ClassifiedPage.exhibit_notes := None;
               ClassificationCsv.ClassifiedPage.notes := None |} ]
          [ {| Page.number := 1; Page.text := lit "cover" |};
            {| Page.number := 2; Page.text := lit "service" |} ]
  = [ (lit "page_0001.png", lit "Pleading body");
      (lit "page_0002.png", lit "Proof of service") ].
Proof. vm_compute. reflexivity. Qed.

